(** * genome-ts: Chromosome and Genome (src/genome.ts)

    A shallow embedding of the two classes of [genome.ts] and of the helper
    [countOnes], followed by the properties of their operators.

    Conventions of the embedding.
    - A gene is a [Z]; a [Uint32Array] is a [list Z] whose stores wrap with
      [ToUint32].  Bit operators go through [ToInt32] as ECMAScript does.
    - [Math.random()] is the next value of a stream [rand : nat -> Q]; the
      state counts the draws made so far.
    - A [Chromosome] object is a location of the heap, the heap holds its
      [genes] array.  A [Genome] is the pair of its two fields; no method
      writes a field of an existing Genome.
    - A [number] that is the result of a division is a [jsnum]: a rational,
      NaN or an infinity.  Quotients are exact rationals, the rounding of
      doubles is not modelled.  Probabilities are rationals: the infinite
      and NaN doubles are outside the embedding.
    - A [genes] array is never shared by two chromosomes ([copy] and
      [mutate] build a new [Uint32Array]), so the heap holds the arrays by
      value.  The length of a typed array is fixed, so the loops bounded
      by it run over [seq 0 length].
    - The static fields [mutation_probability] and [addition_probability]
      stand at their initial values.
    - The string of a gene is its decimal form, [pretty] of stdpp.
    - A length is an integer: the fractional lengths that the typed-array
      constructor truncates are outside the embedding.
    - Products and quotients are exact rationals where the source rounds
      to binary64: the ranges, the orders and the values 0 and 1 of the
      further properties are those of the rounded results as well.
    - The loop of [mutate] is [mutate_loop], over the number of attempts.
      The source counts them down in a binary64, which is exact up to
      2^53: [mutate_while] is the loop with that counter, the two agree
      up to 2^53 ([mutate_while_exact]), and a statement that [mutate]
      returns is made up to 2^53 only. *)

From Stdlib Require Import ZArith QArith Qround Lia Ascii.
From stdpp Require Import base list strings pretty.

Local Open Scope Z_scope.

(** ** ECMAScript numbers and typed arrays *)

Module JS.

Definition ToUint32 (z : Z) : Z := z mod 2 ^ 32.

Definition ToInt32 (z : Z) : Z :=
  let m := z mod 2 ^ 32 in
  if m <? 2 ^ 31 then m else m - 2 ^ 32.

(** [a ^ b], [a & b], [~a], [a << b], [a >> b] on numbers holding
    integers: the result is an Int32. *)
Definition bitxor (a b : Z) : Z := Z.lxor (ToInt32 a) (ToInt32 b).
Definition bitand (a b : Z) : Z := Z.land (ToInt32 a) (ToInt32 b).
Definition bitnot (a : Z) : Z := Z.lnot (ToInt32 a).
Definition shl (a b : Z) : Z :=
  ToInt32 (Z.shiftl (ToInt32 a) (ToUint32 b mod 32)).
Definition sar (a b : Z) : Z :=
  Z.shiftr (ToInt32 a) (ToUint32 b mod 32).

(** The value of a division or of a sum of such values. *)
Inductive jsnum : Type :=
| Fin (q : Q)
| NaN
| PInf
| NInf.

Definition div (x y : jsnum) : jsnum :=
  match x, y with
  | Fin a, Fin b =>
      if Qeq_bool b 0 then
        (if Qeq_bool a 0 then NaN
         else if Qle_bool 0 a then PInf else NInf)
      else Fin (a / b)
  | NaN, _ | _, NaN => NaN
  | Fin _, _ => Fin 0
  | PInf, Fin b => if Qle_bool 0 b then PInf else NInf
  | NInf, Fin b => if Qle_bool 0 b then NInf else PInf
  | _, _ => NaN
  end.

Definition add (x y : jsnum) : jsnum :=
  match x, y with
  | Fin a, Fin b => Fin (a + b)
  | NaN, _ | _, NaN => NaN
  | PInf, NInf | NInf, PInf => NaN
  | PInf, _ | _, PInf => PInf
  | NInf, _ | _, NInf => NInf
  end.

Definition Qlt_bool (x y : Q) : bool := negb (Qle_bool y x).

(** [new Uint32Array(n)]. *)
Definition ta_new (n : nat) : list Z := replicate n 0.

(** [arr[i]] used as an operand or stored into a typed array: out of
    range the read is [undefined], which [ToInt32] and the store of a
    typed array both turn into 0. *)
Definition ta_read (arr : list Z) (i : nat) : Z := default 0 (arr !! i).

(** [arr[i] = v]: the store wraps to 32 bits; out of range it is
    ignored. *)
Definition ta_put (arr : list Z) (i : nat) (v : Z) : list Z :=
  if (i <? length arr)%nat then <[i := ToUint32 v]> arr else arr.

(** The same two accesses at an index computed as a number. *)
Definition ta_read_at (arr : list Z) (i : Z) : Z :=
  if 0 <=? i then ta_read arr (Z.to_nat i) else 0.

Definition ta_put_at (arr : list Z) (i : Z) (v : Z) : list Z :=
  if 0 <=? i then ta_put arr (Z.to_nat i) v else arr.

(** [target.set(src)]: [None] stands for the RangeError of a source
    longer than the target. *)
Definition ta_set (target src : list Z) : option (list Z) :=
  if (length target <? length src)%nat then None
  else Some (src ++ drop (length src) target).

(** [Math.floor(r * n)]. *)
Definition floor_mul (r : Q) (n : Z) : Z := Qfloor (r * inject_Z n).

End JS.

(** ** countOnes *)

(** The inner loop of [countOnes]: [i] iterations left, [n] the shifted
    number, [count] the running total. *)
Fixpoint count_bits (i : nat) (n count : Z) : Z :=
  match i with
  | O => count
  | S i' =>
      count_bits i' (JS.sar n 1)
        (if JS.bitand n 1 =? 1 then count + 1 else count)
  end.

Definition countOnes (arr : list Z) : Z :=
  foldl (fun count num => count_bits 32 num count) 0 arr.

(** The number of set bits among bits 0..k-1 of [n]. *)
Fixpoint popcount (k : nat) (n : Z) : Z :=
  match k with
  | O => 0
  | S k' => popcount k' n + Z.b2z (Z.testbit n (Z.of_nat k'))
  end.

(** The set bits of the low 32 bits of every element, summed. *)
Definition bit_total (arr : list Z) : Z :=
  foldr (fun n acc => popcount 32 n + acc) 0 arr.

(** ** Chromosome.diversityWith on the gene arrays *)

Definition pick_longer (this other : list Z) : list Z * list Z :=
  if (length other <? length this)%nat then (this, other) else (other, this).

Definition extend_shorter (longer shorter : list Z) : option (list Z) :=
  match JS.ta_set (JS.ta_new (length longer)) shorter with
  | None => None
  | Some extendedShorter =>
      Some (foldl
              (fun ext i => JS.ta_put ext i (JS.bitnot (JS.ta_read longer i)))
              extendedShorter
              (seq (length shorter) (length longer - length shorter)))
  end.

Definition xor_arrays (longer extendedShorter : list Z) : list Z :=
  foldl
    (fun xored i =>
       JS.ta_put xored i
         (JS.bitxor (JS.ta_read longer i) (JS.ta_read extendedShorter i)))
    (JS.ta_new (length longer))
    (seq 0 (length longer)).

Definition ratio (onesCount : Z) (len : nat) : JS.jsnum :=
  JS.div (JS.Fin (inject_Z onesCount))
         (JS.Fin (inject_Z (Z.of_nat len * 32))).

Definition genes_diversity (this other : list Z) : option JS.jsnum :=
  let '(longer, shorter) := pick_longer this other in
  match extend_shorter longer shorter with
  | None => None
  | Some extendedShorter =>
      let xored := xor_arrays longer extendedShorter in
      Some (ratio (countOnes xored) (length longer))
  end.

(** ** The heap of Chromosome objects and the monad of methods *)

Inductive exn : Type := TypeError | RangeError.

Inductive result (A : Type) : Type :=
| Ok (a : A)
| Throw (e : exn).
Arguments Ok {A} a.
Arguments Throw {A} e.

(** [heap s !! c] is the [genes] array of the Chromosome object [c];
    [drawn s] is the number of calls of [Math.random()] made so far. *)
Record state : Type := State { heap : list (list Z); drawn : nat }.

Definition M (A : Type) : Type := state -> result (A * state).

Definition ret {A} (a : A) : M A := fun s => Ok (a, s).

Definition bind {A B} (m : M A) (k : A -> M B) : M B :=
  fun s =>
    match m s with
    | Ok (a, s') => k a s'
    | Throw e => Throw e
    end.

Definition throw {A} (e : exn) : M A := fun _ => Throw e.

Notation "x <- m ;; k" := (bind m (fun x => k))
  (at level 100, m at next level, right associativity).
Notation "m ;;; k" := (bind m (fun _ => k))
  (at level 100, right associativity).

(** [try { m } catch (e) { }]: the effects made before the throw are kept
    by ECMAScript; every body below is one statement whose only effect is
    its last step, so the state at entry is the state at the throw. *)
Definition try_ (m : M unit) : M unit :=
  fun s =>
    match m s with
    | Ok r => Ok r
    | Throw _ => Ok (tt, s)
    end.

Definition lift_option {A} (e : exn) (o : option A) : M A :=
  match o with
  | Some a => ret a
  | None => throw e
  end.

Fixpoint foldM {A B} (f : B -> A -> M B) (b : B) (l : list A) : M B :=
  match l with
  | [] => ret b
  | x :: l' => b' <- f b x ;; foldM f b' l'
  end.

Fixpoint forM {A B} (f : A -> M B) (l : list A) : M (list B) :=
  match l with
  | [] => ret []
  | x :: l' => y <- f x ;; ys <- forM f l' ;; ret (y :: ys)
  end.

Definition loc : Type := nat.

(** [new] of a Chromosome whose [genes] field is [g]. *)
Definition alloc (g : list Z) : M loc :=
  fun s => Ok (length (heap s), State (heap s ++ [g]) (drawn s)).

(** [c.genes]; a reference that is not an object has no such property. *)
Definition get_genes (c : loc) : M (list Z) :=
  fun s => match heap s !! c with
           | Some g => Ok (g, s)
           | None => Throw TypeError
           end.

(** [c.genes = g], and [c.genes[i] = v] as the store of the updated
    array. *)
Definition set_genes (c : loc) (g : list Z) : M unit :=
  fun s => match heap s !! c with
           | Some _ => Ok (tt, State (<[c := g]> (heap s)) (drawn s))
           | None => Throw TypeError
           end.

(** [arr[i].method(...)] on an array of objects. *)
Definition nth_obj (arr : list loc) (i : nat) : M loc :=
  lift_option TypeError (arr !! i).

Definition mutation_probability : Q := 1 # 100.
Definition addition_probability : Q := 1 # 1000.

Record Genome : Type := MkGenome {
  chromosomes : list loc;
  shape : list (option Z)
}.

(** [arr[i] = v] on an ordinary array: past the end the array grows and
    the skipped slots are holes ([None]). *)
Definition array_put (arr : list (option Z)) (i : nat) (v : Z)
  : list (option Z) :=
  if (i <? length arr)%nat then <[i := Some v]> arr
  else arr ++ replicate (i - length arr) None ++ [Some v].

Section Methods.

(** The stream behind [Math.random()]. *)
Variable rand : nat -> Q.

Definition Math_random : M Q :=
  fun s => Ok (rand (drawn s), State (heap s) (S (drawn s))).

(** *** class Chromosome *)

Definition Chromosome_new (length : Z) : M loc :=
  if length <? 0 then throw RangeError
  else
    let genes := JS.ta_new (Z.to_nat length) in
    genes <- (if 0 <? length then
                foldM (fun genes i =>
                         r <- Math_random ;;
                         ret (JS.ta_put genes i (JS.floor_mul r 4294967295)))
                      genes (seq 0 (Z.to_nat length))
              else ret genes) ;;
    alloc genes.

Definition Chromosome_copy (this : loc) : M loc :=
  c <- Chromosome_new 0 ;;
  genes <- get_genes this ;;
  set_genes c genes ;;;
  ret c.

Definition Chromosome_length (this : loc) : M nat :=
  genes <- get_genes this ;;
  ret (length genes).

(** The body of the loop of [spawnWith] at index [i]. *)
Definition spawn_gene (nondom child : loc) (_ : unit) (i : nat) : M unit :=
  nondom_length <- Chromosome_length nondom ;;
  if (i <? nondom_length)%nat then
    r <- Math_random ;;
    if JS.Qlt_bool (1 # 2) r then
      try_ (dst <- get_genes child ;;
            src <- get_genes nondom ;;
            set_genes child (JS.ta_put dst i (JS.ta_read src i)))
    else ret tt
  else ret tt.

Definition Chromosome_spawnWith (this other : loc) : M loc :=
  other_length <- Chromosome_length other ;;
  this_length <- Chromosome_length this ;;
  let '(dom, nondom) :=
    if (this_length <? other_length)%nat then (other, this)
    else (this, other) in
  child <- Chromosome_copy dom ;;
  child_length <- Chromosome_length child ;;
  foldM (spawn_gene nondom child) tt (seq 0 child_length) ;;;
  ret child.

Definition Chromosome_diversityWith (this other : loc) : M JS.jsnum :=
  this_genes <- get_genes this ;;
  other_genes <- get_genes other ;;
  lift_option RangeError (genes_diversity this_genes other_genes).

(** [genes[idxGene] = genes[idxGene] ^ (1 << idxBit)]. *)
Definition flip_bit (genes : list Z) (idxGene idxBit : Z) : list Z :=
  JS.ta_put_at genes idxGene
    (JS.bitxor (JS.ta_read_at genes idxGene) (JS.shl 1 idxBit)).

Fixpoint mutate_loop (numMutations : nat) (this : loc) (mutationProb : Q)
  : M unit :=
  match numMutations with
  | O => ret tt
  | S numMutations' =>
      r <- Math_random ;;
      (if JS.Qlt_bool r mutationProb then
         r1 <- Math_random ;;
         len <- Chromosome_length this ;;
         let idxGene := JS.floor_mul r1 (Z.of_nat len) in
         r2 <- Math_random ;;
         let idxBit := JS.floor_mul r2 32 in
         try_ (genes <- get_genes this ;;
               set_genes this (flip_bit genes idxGene idxBit))
       else ret tt) ;;;
      mutate_loop numMutations' this mutationProb
  end.

(** [numMutations] and the probability of each attempt, as computed
    before the loop. *)
Definition attempts (mutationProb : Q) : Z * Q :=
  if Qle_bool 1 mutationProb then
    let numMutations := Qfloor mutationProb in
    let mutationProb := (mutationProb - inject_Z numMutations)%Q in
    (numMutations, if Qeq_bool mutationProb 0 then 1%Q else mutationProb)
  else (1, mutationProb).

Definition Chromosome_mutate (this : loc) (mutationProb additionProb : option Q)
  : M loc :=
  let mutationProb := default mutation_probability mutationProb in
  let additionProb := default addition_probability additionProb in
  let '(numMutations, mutationProb) := attempts mutationProb in
  mutate_loop (Z.to_nat numMutations) this mutationProb ;;;
  r <- Math_random ;;
  (if JS.Qlt_bool r additionProb then
     genes <- get_genes this ;;
     newGenes <- lift_option RangeError
                   (JS.ta_set (JS.ta_new (length genes + 1)) genes) ;;
     r' <- Math_random ;;
     set_genes this
       (JS.ta_put newGenes (length genes) (JS.floor_mul r' 4294967295))
   else ret tt) ;;;
  ret this.

(** [numMutations--] on a binary64 that holds the integer [n], at least
    1.  Up to 2^53 every integer is a binary64 and the decrement is exact.
    From there to 2^54 the binary64 numbers are the even integers:
    [n - 1] lies half-way between [n - 2] and [n] and rounds to the one
    of the two whose significand is even, [n] when 4 divides it.  From
    2^54 on [n - 1] rounds back to [n]. *)
Definition decrement (n : Z) : Z :=
  if n <=? 2 ^ 53 then n - 1
  else if (n <? 2 ^ 54) && (n mod 4 =? 2) then n - 2
  else n.

(** The loop of [mutate] with its counter as the source holds it, run
    for at most [fuel] iterations: [None] when they do not end it. *)
Fixpoint mutate_while (fuel : nat) (numMutations : Z) (this : loc)
    (mutationProb : Q) : M (option unit) :=
  match fuel with
  | O => ret None
  | S fuel' =>
      if 0 <? numMutations then
        let numMutations := decrement numMutations in
        r <- Math_random ;;
        (if JS.Qlt_bool r mutationProb then
           r1 <- Math_random ;;
           len <- Chromosome_length this ;;
           let idxGene := JS.floor_mul r1 (Z.of_nat len) in
           r2 <- Math_random ;;
           let idxBit := JS.floor_mul r2 32 in
           try_ (genes <- get_genes this ;;
                 set_genes this (flip_bit genes idxGene idxBit))
         else ret tt) ;;;
        mutate_while fuel' numMutations this mutationProb
      else ret (Some tt)
  end.

(** *** class Genome *)

Definition Genome_new (lengths : list Z) : M Genome :=
  let shape := Some <$> lengths in
  chromosomes <- forM Chromosome_new lengths ;;
  ret (MkGenome chromosomes shape).

Definition Genome_copy (this : Genome) : M Genome :=
  ret0 <- Genome_new [] ;;
  chromosomes' <- forM Chromosome_copy (chromosomes this) ;;
  shape' <- forM (fun c => n <- Chromosome_length c ;; ret (Some (Z.of_nat n)))
                 (chromosomes this) ;;
  ret (MkGenome chromosomes' shape').

Definition Genome_numGenes (this : Genome) : M Z :=
  foldM (fun sum c => n <- Chromosome_length c ;; ret (sum + Z.of_nat n))
        0 (chromosomes this).

(** The body of the loop of [Genome.diversityWith]. *)
Definition add_diversity (shorter longer : list loc)
    (divTotal : JS.jsnum) (i : nat) : M JS.jsnum :=
  a <- nth_obj shorter i ;;
  b <- nth_obj longer i ;;
  divCurrent <- Chromosome_diversityWith a b ;;
  ret (JS.add divTotal divCurrent).

Definition Genome_diversityWith (this other : Genome) : M JS.jsnum :=
  let '(shorter, longer) :=
    if (length (chromosomes this) <? length (chromosomes other))%nat
    then (chromosomes this, chromosomes other)
    else (chromosomes other, chromosomes this) in
  divTotal <-
    foldM (add_diversity shorter longer) (JS.Fin 0)
          (seq 0 (length shorter)) ;;
  ret (JS.div divTotal (JS.Fin (inject_Z (Z.of_nat (length shorter))))).

(** The child chromosome of one pair: crossover, then mutation of the
    fresh chromosome. *)
Definition spawn_pair (mutationProbability additionProbability : Q)
    (pair : loc * loc) : M loc :=
  c <- Chromosome_spawnWith pair.1 pair.2 ;;
  Chromosome_mutate c (Some mutationProbability) (Some additionProbability).

(** The body of the loop of [Genome.spawnWith]: the accumulator is
    [child.chromosomes] and [newShape]. *)
Definition spawn_chromosome (this other : Genome)
    (mutationProbability additionProbability : Q)
    (acc : list loc * list (option Z)) (i : nat)
  : M (list loc * list (option Z)) :=
  if (i <? length (chromosomes other))%nat then
    a <- nth_obj (chromosomes this) i ;;
    b <- nth_obj (chromosomes other) i ;;
    childChromosome <-
      spawn_pair mutationProbability additionProbability (a, b) ;;
    n <- Chromosome_length childChromosome ;;
    ret (acc.1 ++ [childChromosome], array_put acc.2 i (Z.of_nat n))
  else ret acc.

Definition Genome_spawnWith (this other : Genome)
    (mutationProbability additionProbability : option Q) : M Genome :=
  let mutationProbability :=
    default mutation_probability mutationProbability in
  let additionProbability :=
    default addition_probability additionProbability in
  child <- Genome_new [] ;;
  let newShape := shape this in
  built <-
    foldM (spawn_chromosome this other
             mutationProbability additionProbability)
          (chromosomes child, newShape)
          (seq 0 (length (chromosomes this))) ;;
  ret (MkGenome built.1 built.2).

End Methods.

(** ** What the loops compute, on the gene arrays

    The two loops that write into a chromosome are restated as functions
    on the array and the number of draws; the lemmas below show that the
    methods compute them. *)

Section Views.

Variable rand : nat -> Q.

(** One iteration of the loop of [Chromosome.spawnWith]. *)
Definition cross_gene (nondom : list Z) (st : list Z * nat) (i : nat)
  : list Z * nat :=
  if (i <? length nondom)%nat then
    (if JS.Qlt_bool (1 # 2) (rand st.2)
     then JS.ta_put st.1 i (JS.ta_read nondom i) else st.1,
     S st.2)
  else st.

(** The loop of [Chromosome.spawnWith] started on the copy of [dom]:
    the child and the number of draws after it. *)
Definition crossed (k : nat) (dom nondom : list Z) : list Z * nat :=
  foldl (cross_gene nondom) (dom, k) (seq 0 (length dom)).

(** The loop of [Chromosome.mutate]. *)
Fixpoint flips (numMutations : nat) (mutationProb : Q)
    (genes : list Z) (k : nat) : list Z * nat :=
  match numMutations with
  | O => (genes, k)
  | S numMutations' =>
      if JS.Qlt_bool (rand k) mutationProb then
        flips numMutations' mutationProb
          (flip_bit genes
             (JS.floor_mul (rand (S k)) (Z.of_nat (length genes)))
             (JS.floor_mul (rand (S (S k))) 32))
          (S (S (S k)))
      else flips numMutations' mutationProb genes (S k)
  end.

(** The gene addition of [Chromosome.mutate]. *)
Definition grow (additionProb : Q) (genes : list Z) (k : nat)
  : list Z * nat :=
  if JS.Qlt_bool (rand k) additionProb then
    (genes ++ [JS.ToUint32 (JS.floor_mul (rand (S k)) 4294967295)],
     S (S k))
  else (genes, S k).

Definition mutated (mutationProb additionProb : Q) (genes : list Z)
    (k : nat) : list Z * nat :=
  let a := attempts mutationProb in
  let f := flips (Z.to_nat a.1) a.2 genes k in
  grow additionProb f.1 f.2.

(** The parents of [a.spawnWith(b)] as the code names them, on the gene
    arrays [ga] of the receiver and [gb] of the argument. *)
Definition dominant (ga gb : list Z) : list Z :=
  if (length ga <? length gb)%nat then gb else ga.

Definition nondominant (ga gb : list Z) : list Z :=
  if (length ga <? length gb)%nat then ga else gb.

(** The genes of the chromosome that [Genome.spawnWith] makes of one
    pair, and the number of draws after it. *)
Definition offspring (mutationProb additionProb : Q) (ga gb : list Z)
    (k : nat) : list Z * nat :=
  let c := crossed k (dominant ga gb) (nondominant ga gb) in
  mutated mutationProb additionProb c.1 c.2.


(** The child of a crossover as the specification words it: a copy of
    the dominant parent in which position [i], when the other parent has
    it and the coin of that position (draw [k + i]) exceeds one half,
    holds the gene of the other parent. *)
Definition inherit (k : nat) (dom nondom : list Z) : list Z :=
  imap (fun i d =>
          if (i <? length nondom)%nat && JS.Qlt_bool (1 # 2) (rand (k + i))
          then JS.ta_read nondom i else d)
       dom.

(** [n] always-firing bit flips, the draws of flip [j] being
    [k + 3j + 1] (gene) and [k + 3j + 2] (bit). *)
Fixpoint sure_flips (n : nat) (genes : list Z) (k : nat) : list Z :=
  match n with
  | O => genes
  | S n' =>
      sure_flips n'
        (flip_bit genes
           (JS.floor_mul (rand (S k)) (Z.of_nat (length genes)))
           (JS.floor_mul (rand (S (S k))) 32))
        (S (S (S k)))
  end.

End Views.

Definition uint32 (z : Z) : Prop := 0 <= z < 2 ^ 32.

(** The stream whose every draw is [q]. *)
Definition always (q : Q) : nat -> Q := fun _ => q.

(** Every chromosome of the genome is an object of the heap. *)
Definition valid (h : list (list Z)) (g : Genome) : Prop :=
  Forall (fun c => is_Some (h !! c)) (chromosomes g).

(** The invariant of the data model: one entry of [shape] per chromosome,
    holding its length. *)
Definition shape_ok (h : list (list Z)) (g : Genome) : Prop :=
  length (shape g) = length (chromosomes g) /\
  forall i c, chromosomes g !! i = Some c ->
    exists genes, h !! c = Some genes /\
                  shape g !! i = Some (Some (Z.of_nat (length genes))).

(** ** toString *)

(** [%TypedArray%.prototype.toString]: the elements in decimal, joined
    by commas. *)
Definition ta_toString (arr : list Z) : string :=
  String.concat "," (pretty <$> arr).

Definition Chromosome_toString (this : loc) : M string :=
  genes <- get_genes this ;;
  ret (ta_toString genes).

(** [c => '\n ' + c.toString()] *)
Definition chromosome_line (c : loc) : M string :=
  str <- Chromosome_toString c ;;
  ret (String "010"%char (String " "%char str)).

Definition Genome_toString (this : Genome) : M string :=
  lines <- forM chromosome_line (chromosomes this) ;;
  ret (String "("%char
         (String.concat EmptyString lines +:+ String "010"%char ")")).

(** ** Notions of the further properties *)

(** The character [c] occurs in [s]. *)
Fixpoint has_char (c : ascii) (s : string) : bool :=
  match s with
  | EmptyString => false
  | String a s' => Ascii.eqb a c || has_char c s'
  end.

(** The lines of [Genome.toString] followed by its closing line, on the
    gene arrays of the chromosomes. *)
Definition genome_lines (gs : list (list Z)) : string :=
  String.concat EmptyString
    ((fun g => String "010"%char (String " "%char (ta_toString g))) <$> gs)
  +:+ String "010"%char ")".

(** Every chromosome of the genome is an object of the heap with at least
    one gene. *)
Definition populated (h : list (list Z)) (g : Genome) : Prop :=
  Forall (fun c => exists genes, h !! c = Some genes /\ genes <> [])
         (chromosomes g).

(** The genes that the constructor of [Chromosome] draws from draw [k]
    on. *)
Definition fresh_genes (rand : nat -> Q) (k n : nat) : list Z :=
  (fun i => JS.ToUint32 (JS.floor_mul (rand (k + i)%nat) 4294967295))
    <$> seq 0 n.

(** * Properties *)

(** ** Conversions and bit operators *)

Section Bits.

Lemma ToUint32_range z : 0 <= JS.ToUint32 z < 2 ^ 32.
Proof. unfold JS.ToUint32. apply Z.mod_pos_bound. lia. Qed.

Lemma ToUint32_small z : 0 <= z < 2 ^ 32 -> JS.ToUint32 z = z.
Proof. intros H. unfold JS.ToUint32. apply Z.mod_small. exact H. Qed.

Lemma ToInt32_range z : - 2 ^ 31 <= JS.ToInt32 z < 2 ^ 31.
Proof.
  unfold JS.ToInt32. cbv zeta.
  pose proof (Z.mod_pos_bound z (2 ^ 32) ltac:(lia)) as Hm.
  destruct (Z.ltb_spec (z mod 2 ^ 32) (2 ^ 31)); lia.
Qed.

Lemma ToInt32_small z : - 2 ^ 31 <= z < 2 ^ 31 -> JS.ToInt32 z = z.
Proof.
  intros H. unfold JS.ToInt32. cbv zeta.
  change (2 ^ 32) with 4294967296 in *.
  change (2 ^ 31) with 2147483648 in *.
  destruct (Z.ltb_spec (z mod 4294967296) 2147483648);
    Z.div_mod_to_equations; lia.
Qed.

Lemma ToInt32_mod z : JS.ToInt32 z mod 2 ^ 32 = z mod 2 ^ 32.
Proof.
  unfold JS.ToInt32. cbv zeta.
  destruct (Z.ltb_spec (z mod 2 ^ 32) (2 ^ 31)).
  - apply Z.mod_mod. lia.
  - replace (z mod 2 ^ 32 - 2 ^ 32)
      with (z mod 2 ^ 32 + (-1) * 2 ^ 32) by lia.
    rewrite Z.mod_add by lia. apply Z.mod_mod. lia.
Qed.

(** [ToInt32] keeps the low 32 bits. *)
Lemma ToInt32_testbit z j :
  0 <= j < 32 -> Z.testbit (JS.ToInt32 z) j = Z.testbit z j.
Proof.
  intros Hj.
  rewrite <- (Z.mod_pow2_bits_low (JS.ToInt32 z) 32 j) by lia.
  rewrite <- (Z.mod_pow2_bits_low z 32 j) by lia.
  now rewrite ToInt32_mod.
Qed.

Lemma shiftr1_int32 x :
  - 2 ^ 31 <= x < 2 ^ 31 -> - 2 ^ 31 <= Z.shiftr x 1 < 2 ^ 31.
Proof.
  intros H. rewrite Z.shiftr_div_pow2 by lia. change (2 ^ 1) with 2.
  split.
  - apply Z.div_le_lower_bound; lia.
  - apply Z.div_lt_upper_bound; lia.
Qed.

(** [(n & 1) === 1] tests bit 0, and [n >> 1], although it extends the
    sign, moves bit [j + 1] to bit [j]. *)
Lemma bitand_1 n : JS.bitand n 1 = Z.b2z (Z.testbit (JS.ToInt32 n) 0).
Proof.
  unfold JS.bitand. rewrite (ToInt32_small 1) by lia.
  change 1 with (Z.ones 1) at 1. rewrite Z.land_ones by lia.
  change (2 ^ 1) with 2. symmetry. apply Z.bit0_mod.
Qed.

Lemma sar_1 n : JS.sar n 1 = Z.shiftr (JS.ToInt32 n) 1.
Proof. reflexivity. Qed.

Lemma popcount_shift k x :
  popcount (S k) x = Z.b2z (Z.testbit x 0) + popcount k (Z.shiftr x 1).
Proof.
  induction k as [|k IH].
  - simpl. lia.
  - change (popcount (S (S k)) x)
      with (popcount (S k) x + Z.b2z (Z.testbit x (Z.of_nat (S k)))).
    rewrite IH. simpl popcount.
    rewrite Z.shiftr_spec by lia.
    replace (Z.of_nat k + 1) with (Z.of_nat (S k)) by lia. lia.
Qed.

Lemma popcount_ext k x y :
  (forall j, 0 <= j < Z.of_nat k -> Z.testbit x j = Z.testbit y j) ->
  popcount k x = popcount k y.
Proof.
  induction k as [|k IH]; intros H; [reflexivity|].
  simpl. rewrite IH, H by (intros; try apply H; lia). reflexivity.
Qed.

Lemma popcount_bounds k x : 0 <= popcount k x <= Z.of_nat k.
Proof.
  induction k as [|k IH]; simpl popcount; [lia|].
  destruct (Z.testbit x (Z.of_nat k)); simpl; lia.
Qed.

Lemma count_bits_popcount k : forall n count,
  count_bits k n count = count + popcount k (JS.ToInt32 n).
Proof.
  induction k as [|k IH]; intros n count.
  - simpl. lia.
  - cbn [count_bits]. rewrite IH, popcount_shift, bitand_1, sar_1.
    rewrite (ToInt32_small (Z.shiftr _ 1))
      by (apply shiftr1_int32, ToInt32_range).
    destruct (Z.testbit (JS.ToInt32 n) 0); simpl; lia.
Qed.

(** The 32 iterations of the inner loop count the 32 low bits. *)
Lemma count_bits_32 n count :
  count_bits 32 n count = count + popcount 32 n.
Proof.
  rewrite count_bits_popcount. f_equal.
  apply popcount_ext. intros j Hj. apply ToInt32_testbit. lia.
Qed.

Lemma countOnes_acc arr : forall c,
  foldl (fun count num => count_bits 32 num count) c arr
  = c + bit_total arr.
Proof.
  unfold bit_total.
  induction arr as [|n arr IH]; intros c; cbn [foldl foldr]; [lia|].
  rewrite IH, count_bits_32. lia.
Qed.

Lemma countOnes_exact arr : countOnes arr = bit_total arr.
Proof. unfold countOnes. rewrite countOnes_acc. lia. Qed.

Lemma countOnes_bounds arr :
  0 <= countOnes arr <= 32 * Z.of_nat (length arr).
Proof.
  rewrite countOnes_exact. unfold bit_total.
  induction arr as [|n arr IH]; cbn [foldr length]; [lia|].
  pose proof (popcount_bounds 32 n). lia.
Qed.

Lemma countOnes_zeros n : countOnes (replicate n 0) = 0.
Proof.
  rewrite countOnes_exact. unfold bit_total.
  induction n as [|n IH]; cbn [replicate foldr]; [reflexivity|].
  rewrite IH. reflexivity.
Qed.

End Bits.

(** ** Typed arrays *)

Section TypedArrays.

Lemma ta_put_length arr i v : length (JS.ta_put arr i v) = length arr.
Proof.
  unfold JS.ta_put.
  destruct (i <? length arr)%nat; [apply length_insert|reflexivity].
Qed.

Lemma ta_put_lookup arr i v j :
  JS.ta_put arr i v !! j =
  if decide (j = i /\ (i < length arr)%nat)
  then Some (JS.ToUint32 v) else arr !! j.
Proof.
  unfold JS.ta_put. destruct (Nat.ltb_spec i (length arr)) as [Hlt|Hge].
  - destruct (decide (j = i)) as [->|Hne].
    + rewrite list_lookup_insert_eq by lia.
      rewrite decide_True by done. reflexivity.
    + rewrite list_lookup_insert_ne by done.
      rewrite decide_False by tauto. reflexivity.
  - rewrite decide_False by lia. reflexivity.
Qed.

Lemma ta_put_last g x v :
  JS.ta_put (g ++ [x]) (length g) v = g ++ [JS.ToUint32 v].
Proof.
  unfold JS.ta_put. rewrite length_app. cbn [length].
  destruct (Nat.ltb_spec (length g) (length g + 1)) as [_|?]; [|lia].
  rewrite insert_app_r_alt by lia. rewrite Nat.sub_diag. reflexivity.
Qed.

Lemma ta_put_uint32 arr i v :
  Forall uint32 arr -> Forall uint32 (JS.ta_put arr i v).
Proof.
  intros H. unfold JS.ta_put. destruct (i <? length arr)%nat; [|exact H].
  apply Forall_insert; [exact H|apply ToUint32_range].
Qed.

Lemma ta_put_at_length g i v : length (JS.ta_put_at g i v) = length g.
Proof.
  unfold JS.ta_put_at. destruct (0 <=? i); [apply ta_put_length|reflexivity].
Qed.

Lemma ta_read_uint32 g j :
  Forall uint32 g -> JS.ToUint32 (JS.ta_read g j) = JS.ta_read g j.
Proof.
  intros H. unfold JS.ta_read. destruct (g !! j) as [x|] eqn:E; simpl.
  - apply ToUint32_small. exact (Forall_lookup_1 _ _ _ _ H E).
  - reflexivity.
Qed.

(** [new Uint32Array(n + 1)] then [set(g)] for [g] of length [n]. *)
Lemma ta_set_grow g :
  JS.ta_set (JS.ta_new (length g + 1)) g = Some (g ++ [0]).
Proof.
  unfold JS.ta_set, JS.ta_new. rewrite length_replicate.
  destruct (Nat.ltb_spec (length g + 1) (length g)) as [?|_]; [lia|].
  rewrite drop_replicate.
  replace (length g + 1 - length g)%nat with 1%nat by lia.
  reflexivity.
Qed.

(** A loop [for (i = lo; i < lo + n; i++) acc[i] = v(i)]. *)
Lemma foldl_put_length (v : nat -> Z) l init :
  length (foldl (fun acc i => JS.ta_put acc i (v i)) init l) = length init.
Proof.
  revert init. induction l as [|i l IH]; intros init; simpl; [reflexivity|].
  rewrite IH. apply ta_put_length.
Qed.

Lemma foldl_put_lookup (v : nat -> Z) n lo init j :
  foldl (fun acc i => JS.ta_put acc i (v i)) init (seq lo n) !! j =
  if decide ((lo <= j < lo + n)%nat /\ (j < length init)%nat)
  then Some (JS.ToUint32 (v j)) else init !! j.
Proof.
  induction n as [|n IH].
  - simpl. rewrite decide_False by lia. reflexivity.
  - rewrite seq_S, foldl_app. cbn [foldl].
    rewrite ta_put_lookup, foldl_put_length, IH.
    repeat case_decide; try reflexivity; try lia.
    destruct H0 as [-> _]. reflexivity.
Qed.

Lemma array_put_length arr i v :
  length (array_put arr i v) = Nat.max (length arr) (S i).
Proof.
  unfold array_put. destruct (Nat.ltb_spec i (length arr)).
  - rewrite length_insert. lia.
  - rewrite !length_app, length_replicate. cbn [length]. lia.
Qed.

Lemma array_put_lookup_eq arr i v : array_put arr i v !! i = Some (Some v).
Proof.
  unfold array_put. destruct (Nat.ltb_spec i (length arr)).
  - apply list_lookup_insert_eq. lia.
  - rewrite lookup_app_r by lia.
    rewrite lookup_app_r by (rewrite length_replicate; lia).
    rewrite length_replicate, Nat.sub_diag. reflexivity.
Qed.

Lemma array_put_lookup_keep arr i v j x :
  arr !! j = Some x -> j <> i -> array_put arr i v !! j = Some x.
Proof.
  intros Hj Hne. unfold array_put. destruct (Nat.ltb_spec i (length arr)).
  - rewrite list_lookup_insert_ne by done. exact Hj.
  - rewrite lookup_app_l by (eapply lookup_lt_Some, Hj). exact Hj.
Qed.

End TypedArrays.

(** ** The diversity of two gene arrays *)

Section Diversity.

Lemma pick_longer_le this other :
  (length (pick_longer this other).2
   <= length (pick_longer this other).1)%nat /\
  length (pick_longer this other).1
  = Nat.max (length this) (length other).
Proof.
  unfold pick_longer.
  destruct (Nat.ltb_spec (length other) (length this)); cbn [fst snd]; lia.
Qed.

Lemma pick_longer_self a : pick_longer a a = (a, a).
Proof.
  unfold pick_longer. destruct (length a <? length a)%nat; reflexivity.
Qed.

(** The extended shorter array: the shorter one, then the complements
    of the tail of the longer one.  [set] never throws here. *)
Lemma extend_shorter_Some longer shorter :
  (length shorter <= length longer)%nat ->
  exists ext,
    extend_shorter longer shorter = Some ext /\
    length ext = length longer /\
    forall j, ext !! j =
      if decide (j < length shorter)%nat then shorter !! j
      else if decide (j < length longer)%nat
           then Some (JS.ToUint32 (JS.bitnot (JS.ta_read longer j)))
           else None.
Proof.
  intros Hle. unfold extend_shorter, JS.ta_set, JS.ta_new.
  rewrite length_replicate.
  destruct (Nat.ltb_spec (length longer) (length shorter)) as [?|_]; [lia|].
  eexists. split; [reflexivity|].
  assert (Hlen : length (shorter ++ drop (length shorter)
                           (replicate (length longer) 0)) = length longer).
  { rewrite length_app, length_drop, length_replicate. lia. }
  split.
  - rewrite (foldl_put_length (fun i => JS.bitnot (JS.ta_read longer i))).
    exact Hlen.
  - intros j.
    rewrite (foldl_put_lookup (fun i => JS.bitnot (JS.ta_read longer i))),
      Hlen.
    destruct (decide (j < length shorter)%nat) as [Hj|Hj].
    + rewrite decide_False by lia. apply lookup_app_l. exact Hj.
    + destruct (decide (j < length longer)%nat) as [Hj'|Hj'].
      * rewrite decide_True by lia. reflexivity.
      * rewrite decide_False by lia. apply lookup_ge_None. lia.
Qed.

Lemma extend_self a : extend_shorter a a = Some a.
Proof.
  destruct (extend_shorter_Some a a ltac:(lia)) as (ext & -> & Hlen & Hget).
  f_equal. apply list_eq. intros j. rewrite Hget.
  destruct (decide (j < length a)%nat); [reflexivity|].
  symmetry. apply lookup_ge_None_2. lia.
Qed.

Lemma xor_arrays_length longer ext :
  length (xor_arrays longer ext) = length longer.
Proof.
  unfold xor_arrays.
  rewrite (foldl_put_length
             (fun i => JS.bitxor (JS.ta_read longer i) (JS.ta_read ext i))).
  apply length_replicate.
Qed.

Lemma xor_arrays_lookup longer ext j :
  (j < length longer)%nat ->
  xor_arrays longer ext !! j =
  Some (JS.ToUint32 (JS.bitxor (JS.ta_read longer j) (JS.ta_read ext j))).
Proof.
  intros Hj. unfold xor_arrays.
  rewrite (foldl_put_lookup
             (fun i => JS.bitxor (JS.ta_read longer i) (JS.ta_read ext i))).
  unfold JS.ta_new. rewrite length_replicate.
  rewrite decide_True by lia. reflexivity.
Qed.

Lemma xor_self a : xor_arrays a a = replicate (length a) 0.
Proof.
  apply list_eq. intros j. destruct (decide (j < length a)%nat) as [Hj|Hj].
  - rewrite xor_arrays_lookup by exact Hj.
    rewrite lookup_replicate_2 by exact Hj.
    unfold JS.bitxor. rewrite Z.lxor_nilpotent. reflexivity.
  - rewrite !lookup_ge_None_2;
      [reflexivity | rewrite length_replicate; lia
       | rewrite xor_arrays_length; lia].
Qed.

(** With a positive length and a count within the number of bits, the
    quotient is a rational of the unit interval. *)
Lemma ratio_unit ones len :
  (0 < len)%nat -> 0 <= ones <= 32 * Z.of_nat len ->
  ratio ones len
    = JS.Fin (inject_Z ones / inject_Z (Z.of_nat len * 32)) /\
  (0 <= inject_Z ones / inject_Z (Z.of_nat len * 32))%Q /\
  (inject_Z ones / inject_Z (Z.of_nat len * 32) <= 1)%Q.
Proof.
  intros Hlen Hones. unfold ratio, JS.div.
  assert (Hpos : (inject_Z 0 < inject_Z (Z.of_nat len * 32))%Q).
  { rewrite <- Zlt_Qlt. lia. }
  destruct (Qeq_bool (inject_Z (Z.of_nat len * 32)) 0) eqn:E.
  - apply Qeq_bool_eq in E. rewrite E in Hpos. exfalso.
    revert Hpos. apply Qlt_irrefl.
  - split; [reflexivity|]. split.
    + apply Qle_shift_div_l; [exact Hpos|]. rewrite Qmult_0_l.
      change 0%Q with (inject_Z 0). rewrite <- Zle_Qle. lia.
    + apply Qle_shift_div_r; [exact Hpos|]. rewrite Qmult_1_l.
      rewrite <- Zle_Qle. lia.
Qed.

Lemma genes_diversity_unfold this other :
  exists ext,
    extend_shorter (pick_longer this other).1 (pick_longer this other).2
      = Some ext /\
    genes_diversity this other =
    Some (ratio (countOnes (xor_arrays (pick_longer this other).1 ext))
                (length (pick_longer this other).1)).
Proof.
  unfold genes_diversity.
  destruct (pick_longer_le this other) as [Hle _].
  destruct (pick_longer this other) as [longer shorter]. cbn [fst snd] in *.
  destruct (extend_shorter_Some longer shorter Hle) as (ext & Hext & _).
  exists ext. rewrite Hext. split; reflexivity.
Qed.

Lemma genes_diversity_self a :
  genes_diversity a a = Some (ratio 0 (length a)).
Proof.
  unfold genes_diversity.
  rewrite pick_longer_self, extend_self, xor_self, countOnes_zeros.
  reflexivity.
Qed.

End Diversity.

(** ** Running the methods *)

Section Steps.

Lemma bind_Ok {A B} (m : M A) (k : A -> M B) s a s' :
  m s = Ok (a, s') -> bind m k s = k a s'.
Proof. intros H. unfold bind. rewrite H. reflexivity. Qed.

Lemma bind_assoc {A B C} (m : M A) (f : A -> M B) (g : B -> M C) s :
  bind (bind m f) g s = bind m (fun a => bind (f a) g) s.
Proof. unfold bind. destruct (m s) as [[a s']|e]; reflexivity. Qed.

Lemma bind_ext {A B} (m : M A) (f g : A -> M B) s :
  (forall a s', f a s' = g a s') -> bind m f s = bind m g s.
Proof.
  intros H. unfold bind. destruct (m s) as [[a s']|e]; [apply H|reflexivity].
Qed.

Lemma get_genes_Ok c g s :
  heap s !! c = Some g -> get_genes c s = Ok (g, s).
Proof. intros H. unfold get_genes. rewrite H. reflexivity. Qed.

Lemma set_genes_Ok c g g' s :
  heap s !! c = Some g ->
  set_genes c g' s = Ok (tt, State (<[c := g']> (heap s)) (drawn s)).
Proof. intros H. unfold set_genes. rewrite H. reflexivity. Qed.

Lemma nth_obj_Ok arr i c s :
  arr !! i = Some c -> nth_obj arr i s = Ok (c, s).
Proof. intros H. unfold nth_obj. rewrite H. reflexivity. Qed.

Lemma Chromosome_length_Ok c g s :
  heap s !! c = Some g -> Chromosome_length c s = Ok (length g, s).
Proof.
  intros H. unfold Chromosome_length.
  rewrite (bind_Ok _ _ _ _ _ (get_genes_Ok _ _ _ H)). reflexivity.
Qed.

Lemma foldM_snoc {A B} (f : B -> A -> M B) l x b b' s s' :
  foldM f b l s = Ok (b', s') -> foldM f b (l ++ [x]) s = f b' x s'.
Proof.
  revert b s. induction l as [|y l IH]; intros b s H; simpl in *.
  - injection H as -> ->. unfold bind.
    destruct (f b' x s') as [[? ?]|]; reflexivity.
  - unfold bind in *. destruct (f b y s) as [[b1 s1]|e]; [|discriminate].
    apply IH, H.
Qed.

Lemma forM_snoc {A B} (f : A -> M B) l x ys y s s' s'' :
  forM f l s = Ok (ys, s') -> f x s' = Ok (y, s'') ->
  forM f (l ++ [x]) s = Ok (ys ++ [y], s'').
Proof.
  revert ys s. induction l as [|z l IH]; intros ys s H Hx; simpl in *.
  - injection H as <- <-. unfold bind. rewrite Hx. reflexivity.
  - unfold bind in *. destruct (f z s) as [[y1 s1]|e]; [|discriminate].
    destruct (forM f l s1) as [[ys1 s2]|e] eqn:E; [|discriminate].
    injection H as <- <-.
    rewrite (IH _ _ E Hx). reflexivity.
Qed.

(** The object allocated last, read and written. *)
Lemma lookup_fresh (h : list (list Z)) g : (h ++ [g]) !! length h = Some g.
Proof. apply list_lookup_middle. reflexivity. Qed.

Lemma insert_fresh (h : list (list Z)) g g' :
  <[length h := g']> (h ++ [g]) = h ++ [g'].
Proof. rewrite insert_app_r_alt by lia. rewrite Nat.sub_diag. reflexivity. Qed.

End Steps.

Tactic Notation "step" uconstr(H) := rewrite (bind_Ok _ _ _ _ _ H).

(** ** Chromosome.copy and Chromosome.spawnWith *)

Section Crossover.

Variable rand : nat -> Q.

Lemma Chromosome_copy_Ok c g s :
  heap s !! c = Some g ->
  Chromosome_copy rand c s =
  Ok (length (heap s), State (heap s ++ [g]) (drawn s)).
Proof.
  intros H. unfold Chromosome_copy, Chromosome_new. simpl.
  unfold bind at 1. simpl.
  erewrite bind_Ok;
    [|apply get_genes_Ok; simpl; rewrite lookup_app_l;
      [exact H|]; eapply lookup_lt_Some, H].
  erewrite bind_Ok;
    [|apply (set_genes_Ok _ []); simpl; apply lookup_fresh].
  unfold ret. simpl. rewrite insert_fresh. reflexivity.
Qed.

Lemma spawn_gene_Ok nondom child gn cur i s :
  heap s !! nondom = Some gn -> heap s !! child = Some cur ->
  spawn_gene rand nondom child tt i s =
  Ok (tt,
      State (<[child := (cross_gene rand gn (cur, drawn s) i).1]> (heap s))
            (cross_gene rand gn (cur, drawn s) i).2).
Proof.
  intros Hn Hc. unfold spawn_gene, cross_gene.
  step (Chromosome_length_Ok _ _ _ Hn).
  destruct (i <? length gn)%nat; simpl.
  - unfold bind at 1, Math_random. simpl.
    destruct (JS.Qlt_bool (1 # 2) (rand (drawn s))).
    + unfold try_.
      erewrite bind_Ok; [|apply get_genes_Ok; exact Hc].
      erewrite bind_Ok; [|apply get_genes_Ok; exact Hn].
      erewrite set_genes_Ok; [|exact Hc]. reflexivity.
    + unfold ret. rewrite list_insert_id by exact Hc. reflexivity.
  - unfold ret. rewrite list_insert_id by exact Hc. destruct s; reflexivity.
Qed.

Lemma spawn_loop_Ok nondom child gn l : forall cur s,
  nondom <> child ->
  heap s !! nondom = Some gn -> heap s !! child = Some cur ->
  foldM (spawn_gene rand nondom child) tt l s =
  Ok (tt,
      State (<[child := (foldl (cross_gene rand gn) (cur, drawn s) l).1]>
               (heap s))
            (foldl (cross_gene rand gn) (cur, drawn s) l).2).
Proof.
  induction l as [|i l IH]; intros cur s Hne Hn Hc.
  - simpl. unfold ret. rewrite list_insert_id by exact Hc.
    destruct s; reflexivity.
  - simpl foldM. step (spawn_gene_Ok _ _ _ _ i _ Hn Hc).
    pose proof (lookup_lt_Some _ _ _ Hc) as Hlt.
    erewrite IH;
      [| exact Hne
       | simpl; rewrite list_lookup_insert_ne by done; exact Hn
       | simpl; apply list_lookup_insert_eq; exact Hlt ].
    simpl. rewrite list_insert_insert_eq.
    destruct (cross_gene rand gn (cur, drawn s) i) as [cur1 k1].
    reflexivity.
Qed.

(** After [n] iterations: one draw per position that both parents have,
    position [j] decided by draw [k + j]. *)
Lemma cross_loop_spec gn cur k n :
  (foldl (cross_gene rand gn) (cur, k) (seq 0 n)).2
    = (k + Nat.min n (length gn))%nat /\
  length (foldl (cross_gene rand gn) (cur, k) (seq 0 n)).1 = length cur /\
  forall j, (foldl (cross_gene rand gn) (cur, k) (seq 0 n)).1 !! j =
    if decide ((j < n)%nat /\ (j < length gn)%nat /\ (j < length cur)%nat)
    then (if JS.Qlt_bool (1 # 2) (rand (k + j))
          then Some (JS.ToUint32 (JS.ta_read gn j)) else cur !! j)
    else cur !! j.
Proof.
  induction n as [|n (IHk & IHlen & IHget)].
  - cbn [seq foldl fst snd]. split; [lia|]. split; [reflexivity|].
    intros j. case_decide; [lia|reflexivity].
  - rewrite seq_S, foldl_app. cbn [foldl Nat.add].
    destruct (foldl (cross_gene rand gn) (cur, k) (seq 0 n)) as [c1 k1].
    cbn [fst snd] in IHk, IHlen, IHget. subst k1.
    unfold cross_gene. cbn [fst snd].
    destruct (Nat.ltb_spec n (length gn)) as [Hn|Hn]; cbn [fst snd].
    + split; [lia|].
      replace (k + Nat.min n (length gn))%nat with (k + n)%nat by lia.
      destruct (JS.Qlt_bool (1 # 2) (rand (k + n))) eqn:Ecoin.
      * split; [rewrite ta_put_length; exact IHlen|]. intros j.
        rewrite ta_put_lookup, IHlen, IHget.
        repeat case_decide; try reflexivity; try lia.
        all: try (destruct H as [-> _]; rewrite ?Ecoin;
                  try reflexivity; lia).
      * split; [exact IHlen|]. intros j. rewrite IHget.
        repeat case_decide; try reflexivity; try lia.
        assert (j = n) as -> by lia. rewrite Ecoin. reflexivity.
    + split; [lia|]. split; [exact IHlen|]. intros j. rewrite IHget.
      repeat case_decide; try reflexivity; lia.
Qed.

Lemma crossed_draws k dom nondom :
  (crossed rand k dom nondom).2
  = (k + Nat.min (length dom) (length nondom))%nat.
Proof. unfold crossed. apply cross_loop_spec. Qed.

Lemma crossed_length k dom nondom :
  length (crossed rand k dom nondom).1 = length dom.
Proof. unfold crossed. apply cross_loop_spec. Qed.

(** On 32-bit genes the loop computes the child of the specification. *)
Lemma crossed_inherit k dom nondom :
  Forall uint32 nondom ->
  (crossed rand k dom nondom).1 = inherit rand k dom nondom.
Proof.
  intros Hu. unfold crossed, inherit.
  destruct (cross_loop_spec nondom dom k (length dom)) as (_ & Hlen & Hget).
  apply list_eq. intros j. rewrite Hget, list_lookup_imap.
  destruct (dom !! j) as [d|] eqn:Ed; simpl.
  - pose proof (lookup_lt_Some _ _ _ Ed) as Hj.
    destruct (Nat.ltb_spec j (length nondom)) as [Hjn|Hjn]; simpl.
    + rewrite decide_True by lia.
      destruct (JS.Qlt_bool (1 # 2) (rand (k + j))); [|reflexivity].
      rewrite ta_read_uint32 by exact Hu. reflexivity.
    + rewrite decide_False by lia. reflexivity.
  - pose proof (lookup_ge_None_1 _ _ Ed) as Hj.
    rewrite decide_False by lia. reflexivity.
Qed.

Lemma inherit_length k dom nondom :
  length (inherit rand k dom nondom) = length dom.
Proof. unfold inherit. apply length_imap. Qed.

Lemma inherit_lookup k dom nondom i :
  inherit rand k dom nondom !! i =
  if decide (i < Nat.min (length dom) (length nondom))%nat
  then (if JS.Qlt_bool (1 # 2) (rand (k + i)%nat)
        then nondom !! i else dom !! i)
  else dom !! i.
Proof.
  unfold inherit. rewrite list_lookup_imap.
  destruct (dom !! i) as [d|] eqn:Ed; cbn [fmap option_fmap option_map].
  - pose proof (lookup_lt_Some _ _ _ Ed) as Hi.
    destruct (Nat.ltb_spec i (length nondom)) as [Hn|Hn]; cbn [andb].
    + rewrite decide_True by lia.
      destruct (JS.Qlt_bool (1 # 2) (rand (k + i)%nat)); [|reflexivity].
      unfold JS.ta_read.
      destruct (lookup_lt_is_Some_2 nondom i Hn) as [x ->]. reflexivity.
    + rewrite decide_False by lia. reflexivity.
  - pose proof (lookup_ge_None_1 _ _ Ed) as Hi.
    rewrite decide_False by lia. reflexivity.
Qed.

Lemma dominant_length ga gb :
  length (dominant ga gb) = Nat.max (length ga) (length gb) /\
  length (nondominant ga gb) = Nat.min (length ga) (length gb).
Proof.
  unfold dominant, nondominant.
  destruct (Nat.ltb_spec (length ga) (length gb)); lia.
Qed.

Lemma uint32_nondominant ga gb :
  Forall uint32 ga -> Forall uint32 gb -> Forall uint32 (nondominant ga gb).
Proof.
  intros Ha Hb. unfold nondominant. destruct (_ <? _)%nat; assumption.
Qed.

(** [a.spawnWith(b)] allocates one object, the child, and writes
    nothing else. *)
Lemma Chromosome_spawnWith_Ok a b ga gb s :
  heap s !! a = Some ga -> heap s !! b = Some gb ->
  Chromosome_spawnWith rand a b s =
  Ok (length (heap s),
      State (heap s ++
               [(crossed rand (drawn s) (dominant ga gb)
                         (nondominant ga gb)).1])
            (crossed rand (drawn s) (dominant ga gb)
                     (nondominant ga gb)).2).
Proof.
  intros Ha Hb. unfold Chromosome_spawnWith, dominant, nondominant.
  step (Chromosome_length_Ok _ _ _ Hb).
  step (Chromosome_length_Ok _ _ _ Ha).
  pose proof (lookup_lt_Some _ _ _ Ha) as Hla.
  pose proof (lookup_lt_Some _ _ _ Hb) as Hlb.
  destruct (length ga <? length gb)%nat.
  - step (Chromosome_copy_Ok _ _ _ Hb).
    erewrite bind_Ok; [|apply Chromosome_length_Ok; apply lookup_fresh].
    erewrite bind_Ok;
      [|apply (spawn_loop_Ok a _ ga _ gb);
        [lia | simpl; rewrite lookup_app_l by lia; exact Ha
         | apply lookup_fresh]].
    simpl. rewrite insert_fresh. reflexivity.
  - step (Chromosome_copy_Ok _ _ _ Ha).
    erewrite bind_Ok; [|apply Chromosome_length_Ok; apply lookup_fresh].
    erewrite bind_Ok;
      [|apply (spawn_loop_Ok b _ gb _ ga);
        [lia | simpl; rewrite lookup_app_l by lia; exact Hb
         | apply lookup_fresh]].
    simpl. rewrite insert_fresh. reflexivity.
Qed.

End Crossover.

(** ** Chromosome.mutate *)

Section Mutation.

Variable rand : nat -> Q.

Lemma Qlt_bool_true x y : (x < y)%Q -> JS.Qlt_bool x y = true.
Proof.
  intros H. unfold JS.Qlt_bool. destruct (Qle_bool y x) eqn:E; [|reflexivity].
  apply Qle_bool_iff in E. exfalso. exact (Qlt_not_le _ _ H E).
Qed.

Lemma Qlt_bool_false x y : (y <= x)%Q -> JS.Qlt_bool x y = false.
Proof.
  intros H. unfold JS.Qlt_bool. apply Qle_bool_iff in H. rewrite H.
  reflexivity.
Qed.

(** The three cases of the computation before the loop. *)
Lemma attempts_integer n : 1 <= n -> attempts (inject_Z n) = (n, 1%Q).
Proof.
  intros Hn. unfold attempts.
  assert (H1 : Qle_bool 1 (inject_Z n) = true).
  { apply Qle_bool_iff. change 1%Q with (inject_Z 1).
    rewrite <- Zle_Qle. exact Hn. }
  rewrite H1, Qfloor_Z.
  assert (H0 : Qeq_bool (inject_Z n - inject_Z n) 0 = true).
  { apply Qeq_eq_bool. apply Qplus_opp_r. }
  rewrite H0. reflexivity.
Qed.

Lemma attempts_fractional p :
  (1 <= p)%Q -> ~ (p - inject_Z (Qfloor p) == 0)%Q ->
  attempts p = (Qfloor p, (p - inject_Z (Qfloor p))%Q).
Proof.
  intros Hp Hfrac. unfold attempts.
  apply Qle_bool_iff in Hp. rewrite Hp.
  destruct (Qeq_bool (p - inject_Z (Qfloor p)) 0) eqn:E; [|reflexivity].
  apply Qeq_bool_eq in E. contradiction.
Qed.

Lemma attempts_below_one p : ~ (1 <= p)%Q -> attempts p = (1, p).
Proof.
  intros Hp. unfold attempts. destruct (Qle_bool 1 p) eqn:E; [|reflexivity].
  apply Qle_bool_iff in E. contradiction.
Qed.

Lemma flip_bit_length g i b : length (flip_bit g i b) = length g.
Proof. apply ta_put_at_length. Qed.

(** On the empty array the flip reads [undefined] and its store is
    ignored. *)
Lemma flip_bit_nil i b : flip_bit [] i b = [].
Proof.
  unfold flip_bit, JS.ta_put_at, JS.ta_put. destruct (0 <=? i); reflexivity.
Qed.

Lemma flips_length n p : forall g k,
  length (flips rand n p g k).1 = length g.
Proof.
  induction n as [|n IH]; intros g k; cbn [flips]; [reflexivity|].
  destruct (JS.Qlt_bool (rand k) p); rewrite IH;
    [apply flip_bit_length|reflexivity].
Qed.

Lemma flips_nil n p : forall k, (flips rand n p [] k).1 = [].
Proof.
  induction n as [|n IH]; intros k; cbn [flips]; [reflexivity|].
  destruct (JS.Qlt_bool (rand k) p); [rewrite flip_bit_nil|]; apply IH.
Qed.

(** With probability 1 every attempt fires. *)
Lemma flips_sure n : forall g k,
  (forall i, (rand i < 1)%Q) ->
  flips rand n 1 g k = (sure_flips rand n g k, (k + 3 * n)%nat).
Proof.
  induction n as [|n IH]; intros g k Hr; cbn [flips sure_flips].
  - f_equal. lia.
  - rewrite (Qlt_bool_true _ _ (Hr k)), IH by exact Hr. f_equal. lia.
Qed.

Lemma grow_never g k : (0 <= rand k)%Q -> grow rand 0 g k = (g, S k).
Proof.
  intros H. unfold grow. rewrite Qlt_bool_false by exact H. reflexivity.
Qed.

Lemma mutated_length mp ap g k :
  (length g <= length (mutated rand mp ap g k).1 <= S (length g))%nat.
Proof.
  unfold mutated, grow.
  destruct (JS.Qlt_bool _ _); cbn [fst];
    rewrite ?length_app, flips_length; cbn [length]; lia.
Qed.

Lemma mutate_loop_Ok n mp c : forall g s,
  heap s !! c = Some g ->
  mutate_loop rand n c mp s =
  Ok (tt, State (<[c := (flips rand n mp g (drawn s)).1]> (heap s))
                (flips rand n mp g (drawn s)).2).
Proof.
  induction n as [|n IH]; intros g s Hc.
  - cbn [mutate_loop flips fst snd]. unfold ret.
    rewrite list_insert_id by exact Hc. destruct s; reflexivity.
  - cbn [mutate_loop flips].
    unfold bind at 1, Math_random. cbn [heap drawn].
    pose proof (lookup_lt_Some _ _ _ Hc) as Hlt.
    destruct (JS.Qlt_bool (rand (drawn s)) mp).
    + unfold bind at 1. unfold bind at 1. cbn [heap drawn].
      erewrite bind_Ok; [|apply Chromosome_length_Ok; exact Hc].
      unfold bind at 1. cbn [heap drawn].
      unfold try_.
      erewrite bind_Ok; [|apply get_genes_Ok; exact Hc].
      erewrite set_genes_Ok; [|exact Hc]. cbn [heap drawn].
      erewrite IH; [|cbn [heap]; apply list_lookup_insert_eq; exact Hlt].
      cbn [heap drawn]. rewrite list_insert_insert_eq. reflexivity.
    + unfold bind at 1. unfold ret at 1.
      erewrite IH; [|exact Hc]. reflexivity.
Qed.

(** [mutate] writes the receiver only, and returns it. *)
Lemma Chromosome_mutate_Ok c g mp ap s :
  heap s !! c = Some g ->
  Chromosome_mutate rand c mp ap s =
  Ok (c,
      State (<[c := (mutated rand (default mutation_probability mp)
                       (default addition_probability ap) g (drawn s)).1]>
               (heap s))
            (mutated rand (default mutation_probability mp)
               (default addition_probability ap) g (drawn s)).2).
Proof.
  intros Hc. unfold Chromosome_mutate, mutated.
  destruct (attempts (default mutation_probability mp)) as [num p].
  cbn [fst snd].
  step (mutate_loop_Ok _ _ _ _ _ Hc).
  destruct (flips rand (Z.to_nat num) p g (drawn s)) as [g1 k1].
  cbn [fst snd].
  pose proof (lookup_lt_Some _ _ _ Hc) as Hlt.
  assert (H1 : <[c := g1]> (heap s) !! c = Some g1)
    by (apply list_lookup_insert_eq; exact Hlt).
  unfold bind at 1, Math_random. cbn [heap drawn]. unfold grow.
  destruct (JS.Qlt_bool (rand k1) (default addition_probability ap)).
  - unfold bind at 1.
    erewrite bind_Ok; [|apply get_genes_Ok; exact H1].
    rewrite ta_set_grow. unfold lift_option.
    unfold bind at 1, ret at 1. unfold bind at 1. cbn [heap drawn].
    erewrite set_genes_Ok; [|exact H1]. cbn [heap drawn fst snd].
    rewrite list_insert_insert_eq, ta_put_last. reflexivity.
  - unfold bind at 1, ret at 1. unfold ret. cbn [fst snd]. reflexivity.
Qed.

(** An integer probability [n >= 1] without addition: exactly [n] flips,
    three draws each, and the draw of the addition test. *)
Lemma mutate_integer n c g s :
  (forall i, (0 <= rand i)%Q /\ (rand i < 1)%Q) ->
  1 <= n -> heap s !! c = Some g ->
  Chromosome_mutate rand c (Some (inject_Z n)) (Some 0%Q) s =
  Ok (c, State (<[c := sure_flips rand (Z.to_nat n) g (drawn s)]> (heap s))
               (drawn s + 3 * Z.to_nat n + 1)).
Proof.
  intros Hr Hn Hc. rewrite (Chromosome_mutate_Ok _ _ _ _ _ Hc).
  unfold mutated. cbn [from_option id].
  rewrite attempts_integer by exact Hn. cbn [fst snd].
  rewrite flips_sure by (intros i; apply Hr). cbn [fst snd].
  rewrite grow_never by apply Hr. cbn [fst snd]. do 3 f_equal. lia.
Qed.

(** A probability [p >= 1] with a fractional part: [floor p] attempts,
    each of which fires only when its draw is below the fractional
    part; there is no further attempt. *)
Lemma mutate_fractional p ap c g s :
  (1 <= p)%Q -> ~ (p - inject_Z (Qfloor p) == 0)%Q ->
  heap s !! c = Some g ->
  Chromosome_mutate rand c (Some p) (Some ap) s =
  Ok (c,
      State (<[c := (grow rand ap
                       (flips rand (Z.to_nat (Qfloor p))
                              (p - inject_Z (Qfloor p)) g (drawn s)).1
                       (flips rand (Z.to_nat (Qfloor p))
                              (p - inject_Z (Qfloor p)) g (drawn s)).2).1]>
               (heap s))
            (grow rand ap
               (flips rand (Z.to_nat (Qfloor p))
                      (p - inject_Z (Qfloor p)) g (drawn s)).1
               (flips rand (Z.to_nat (Qfloor p))
                      (p - inject_Z (Qfloor p)) g (drawn s)).2).2).
Proof.
  intros Hp Hfrac Hc. rewrite (Chromosome_mutate_Ok _ _ _ _ _ Hc).
  unfold mutated. cbn [from_option id].
  rewrite attempts_fractional by assumption. reflexivity.
Qed.

(** The number of attempts is at least 1 and no more than a bound of
    the probability. *)
Lemma attempts_bounded p N :
  1 <= N -> (p <= inject_Z N)%Q -> 1 <= (attempts p).1 <= N.
Proof.
  intros HN Hp. unfold attempts.
  destruct (Qle_bool 1 p) eqn:E; cbn [fst]; [|lia].
  apply Qle_bool_iff in E. split.
  - change 1 with (Qfloor 1). apply Qfloor_resp_le, E.
  - rewrite <- (Qfloor_Z N). apply Qfloor_resp_le, Hp.
Qed.

Lemma decrement_exact n : 1 <= n <= 2 ^ 53 -> decrement n = n - 1.
Proof.
  intros Hn. unfold decrement.
  destruct (Z.leb_spec n (2 ^ 53)) as [_|H]; [reflexivity|lia].
Qed.

(** Up to 2^53 the counter of the source reaches 0 after as many
    iterations as it held: the loop with the binary64 counter is
    [mutate_loop]. *)
Lemma mutate_while_exact c p : forall fuel n s,
  0 <= n <= 2 ^ 53 -> (Z.to_nat n < fuel)%nat ->
  mutate_while rand fuel n c p s
  = (mutate_loop rand (Z.to_nat n) c p ;;; ret (Some tt)) s.
Proof.
  induction fuel as [|fuel IH]; intros n s Hn Hf; [lia|].
  cbn [mutate_while]. destruct (Z.ltb_spec 0 n) as [Hpos|Hz].
  - rewrite decrement_exact by lia.
    replace (Z.to_nat n) with (S (Z.to_nat (n - 1))) by lia.
    cbn [mutate_loop]. rewrite bind_assoc. apply bind_ext. intros r s1.
    rewrite bind_assoc. apply bind_ext. intros u s2. apply IH; lia.
  - replace n with 0 by lia. reflexivity.
Qed.

End Mutation.

(** ** Chromosome.diversityWith and Genome.diversityWith *)

Section DiversityMethods.

(** Neither method throws, and the state is the one at entry. *)
Lemma Chromosome_diversityWith_Ok a b ga gb s :
  heap s !! a = Some ga -> heap s !! b = Some gb ->
  exists v, genes_diversity ga gb = Some v /\
            Chromosome_diversityWith a b s = Ok (v, s).
Proof.
  intros Ha Hb. destruct (genes_diversity_unfold ga gb) as (ext & _ & Hv).
  eexists. split; [exact Hv|]. unfold Chromosome_diversityWith.
  step (get_genes_Ok _ _ _ Ha). step (get_genes_Ok _ _ _ Hb).
  rewrite Hv. reflexivity.
Qed.

Lemma diversity_loop_Ok shorter longer s n :
  Forall (fun c => is_Some (heap s !! c)) shorter ->
  Forall (fun c => is_Some (heap s !! c)) longer ->
  (n <= length shorter)%nat -> (length shorter <= length longer)%nat ->
  exists v,
    foldM (add_diversity shorter longer) (JS.Fin 0) (seq 0 n) s = Ok (v, s).
Proof.
  intros Hs Hl Hn Hle. induction n as [|n IH].
  - eexists. reflexivity.
  - destruct IH as [v IH]; [lia|].
    rewrite seq_S. rewrite (foldM_snoc _ _ _ _ _ _ _ IH). cbn [Nat.add].
    destruct (lookup_lt_is_Some_2 shorter n ltac:(lia)) as [a Ha].
    destruct (lookup_lt_is_Some_2 longer n ltac:(lia)) as [b Hb].
    destruct (Forall_lookup_1 _ _ _ _ Hs Ha) as [ga Hga].
    destruct (Forall_lookup_1 _ _ _ _ Hl Hb) as [gb Hgb].
    destruct (Chromosome_diversityWith_Ok _ _ _ _ _ Hga Hgb) as (d & _ & Hd).
    unfold add_diversity.
    step (nth_obj_Ok _ _ _ _ Ha). step (nth_obj_Ok _ _ _ _ Hb). step Hd.
    eexists. reflexivity.
Qed.

Lemma Genome_diversityWith_Ok this other s :
  valid (heap s) this -> valid (heap s) other ->
  exists v, Genome_diversityWith this other s = Ok (v, s).
Proof.
  intros Ht Ho. unfold Genome_diversityWith.
  destruct (Nat.ltb_spec (length (chromosomes this))
                         (length (chromosomes other))).
  - destruct (diversity_loop_Ok (chromosomes this) (chromosomes other) s
                (length (chromosomes this)) Ht Ho) as [v Hv]; [lia|lia|].
    step Hv. eexists. reflexivity.
  - destruct (diversity_loop_Ok (chromosomes other) (chromosomes this) s
                (length (chromosomes other)) Ho Ht) as [v Hv]; [lia|lia|].
    step Hv. eexists. reflexivity.
Qed.

End DiversityMethods.

(** ** Genome: construction, copy and spawnWith *)

Section GenomeMethods.

Variable rand : nat -> Q.

Lemma init_loop_Ok l : forall genes s,
  exists genes',
    foldM (fun genes i =>
             r <- Math_random rand ;;
             ret (JS.ta_put genes i (JS.floor_mul r 4294967295)))
          genes l s
    = Ok (genes', State (heap s) (drawn s + length l)) /\
    length genes' = length genes /\
    (Forall uint32 genes -> Forall uint32 genes').
Proof.
  induction l as [|i l IH]; intros genes s.
  - exists genes. cbn [foldM length]. unfold ret.
    rewrite Nat.add_0_r. destruct s. auto.
  - cbn [foldM].
    assert (Hbody :
      (r <- Math_random rand ;;
       ret (JS.ta_put genes i (JS.floor_mul r 4294967295))) s
      = Ok (JS.ta_put genes i (JS.floor_mul (rand (drawn s)) 4294967295),
            State (heap s) (S (drawn s)))) by reflexivity.
    step Hbody.
    destruct (IH (JS.ta_put genes i
                    (JS.floor_mul (rand (drawn s)) 4294967295))
                 (State (heap s) (S (drawn s))))
      as (g' & Hrun & Hlen & Hu).
    exists g'. rewrite Hrun. cbn [heap drawn length].
    split; [do 3 f_equal; lia|]. split.
    + rewrite Hlen. apply ta_put_length.
    + intros H. apply Hu, ta_put_uint32, H.
Qed.

(** [new Chromosome(len)] for [len >= 0]: [len] genes of 32 bits. *)
Lemma Chromosome_new_Ok len s :
  0 <= len ->
  exists genes,
    Chromosome_new rand len s
    = Ok (length (heap s),
          State (heap s ++ [genes]) (drawn s + Z.to_nat len)) /\
    Z.of_nat (length genes) = len /\ Forall uint32 genes.
Proof.
  intros Hlen. unfold Chromosome_new.
  destruct (Z.ltb_spec len 0) as [?|_]; [lia|].
  destruct (Z.ltb_spec 0 len) as [Hpos|Hzero].
  - destruct (init_loop_Ok (seq 0 (Z.to_nat len))
                (JS.ta_new (Z.to_nat len)) s) as (g' & Hrun & Hl & Hu).
    exists g'. step Hrun. rewrite length_seq. unfold alloc.
    cbn [heap drawn].
    split; [reflexivity|]. split.
    + rewrite Hl. unfold JS.ta_new. rewrite length_replicate. lia.
    + apply Hu. unfold JS.ta_new. apply Forall_replicate.
      unfold uint32. lia.
  - assert (len = 0) as -> by lia.
    exists []. cbn. unfold bind, ret, alloc. cbn.
    rewrite Nat.add_0_r. split; [reflexivity|].
    split; [reflexivity|constructor].
Qed.

(** A negative length is rejected. *)
Lemma Chromosome_new_negative len s :
  len < 0 -> Chromosome_new rand len s = Throw RangeError.
Proof.
  intros H. unfold Chromosome_new.
  destruct (Z.ltb_spec len 0); [reflexivity|lia].
Qed.

Lemma new_all_Ok lengths : forall s,
  Forall (fun len => 0 <= len) lengths ->
  exists cs s',
    forM (Chromosome_new rand) lengths s = Ok (cs, s') /\
    heap s `prefix_of` heap s' /\
    Forall2 (fun c len => exists g, heap s' !! c = Some g /\
                                   Z.of_nat (length g) = len) cs lengths.
Proof.
  induction lengths as [|len lengths IH]; intros s Hpos.
  - exists [], s. split; [reflexivity|]. split; [reflexivity|constructor].
  - apply Forall_cons in Hpos. destruct Hpos as [Hlen Hpos].
    destruct (Chromosome_new_Ok len s Hlen) as (g & Hrun & Hg & _).
    destruct (IH (State (heap s ++ [g]) (drawn s + Z.to_nat len)) Hpos)
      as (cs & s' & Hrest & Hpre & Hall).
    cbn [heap] in Hpre.
    exists (length (heap s) :: cs), s'. cbn [forM].
    step Hrun. step Hrest. split; [reflexivity|].
    split; [eapply prefix_app_l, Hpre|].
    constructor; [|exact Hall].
    exists g. split; [|exact Hg].
    eapply prefix_lookup_Some; [apply lookup_fresh|exact Hpre].
Qed.

(** [new Genome(lengths)] keeps the invariant of [shape]. *)
Lemma Genome_new_shape lengths s :
  Forall (fun len => 0 <= len) lengths ->
  exists g s',
    Genome_new rand lengths s = Ok (g, s') /\
    heap s `prefix_of` heap s' /\
    shape g = Some <$> lengths /\
    shape_ok (heap s') g.
Proof.
  intros Hpos.
  destruct (new_all_Ok lengths s Hpos) as (cs & s' & Hrun & Hpre & Hall).
  exists (MkGenome cs (Some <$> lengths)), s'. unfold Genome_new.
  step Hrun. split; [reflexivity|]. split; [exact Hpre|].
  split; [reflexivity|].
  split; cbn [chromosomes shape].
  - rewrite length_fmap. symmetry. eapply Forall2_length, Hall.
  - intros i c Hc.
    destruct (Forall2_lookup_l _ _ _ _ _ Hall Hc)
      as (len & Hlen & g & Hg & Hgl).
    exists g. split; [exact Hg|].
    rewrite list_lookup_fmap, Hlen, Hgl. reflexivity.
Qed.

Lemma copy_all_Ok cs : forall s,
  Forall (fun c => is_Some (heap s !! c)) cs ->
  exists cs' s',
    forM (Chromosome_copy rand) cs s = Ok (cs', s') /\
    heap s `prefix_of` heap s' /\
    Forall2 (fun c' c => exists g, heap s' !! c' = Some g /\
                                  heap s' !! c = Some g) cs' cs.
Proof.
  induction cs as [|c cs IH]; intros s Hv.
  - exists [], s. split; [reflexivity|]. split; [reflexivity|constructor].
  - apply Forall_cons in Hv. destruct Hv as [[g Hg] Hv].
    pose proof (Chromosome_copy_Ok rand c g s Hg) as Hrun.
    destruct (IH (State (heap s ++ [g]) (drawn s)))
      as (cs' & s' & Hrest & Hpre & Hall).
    { cbn [heap]. eapply Forall_impl; [exact Hv|].
      intros x [gx Hx]. exists gx. apply lookup_app_l_Some, Hx. }
    cbn [heap] in Hpre.
    exists (length (heap s) :: cs'), s'. cbn [forM].
    step Hrun. step Hrest. split; [reflexivity|].
    split; [eapply prefix_app_l, Hpre|].
    constructor; [|exact Hall].
    exists g. split.
    + eapply prefix_lookup_Some; [apply lookup_fresh|exact Hpre].
    + eapply prefix_lookup_Some; [|exact Hpre].
      apply lookup_app_l_Some, Hg.
Qed.

Lemma lengths_all_Ok cs s :
  Forall (fun c => is_Some (heap s !! c)) cs ->
  exists sh,
    forM (fun c => n <- Chromosome_length c ;; ret (Some (Z.of_nat n))) cs s
      = Ok (sh, s) /\
    Forall2 (fun x c => exists g, heap s !! c = Some g /\
                                 x = Some (Z.of_nat (length g))) sh cs.
Proof.
  induction cs as [|c cs IH]; intros Hv.
  - exists []. split; [reflexivity|constructor].
  - apply Forall_cons in Hv. destruct Hv as [[g Hg] Hv].
    destruct (IH Hv) as (sh & Hrest & Hall).
    exists (Some (Z.of_nat (length g)) :: sh). cbn [forM].
    assert (Hbody :
      (n <- Chromosome_length c ;; ret (Some (Z.of_nat n))) s
      = Ok (Some (Z.of_nat (length g)), s)).
    { step (Chromosome_length_Ok _ _ _ Hg). reflexivity. }
    step Hbody. step Hrest. split; [reflexivity|].
    constructor; [|exact Hall]. exists g. auto.
Qed.

(** [copy()] keeps the invariant of [shape] and leaves the source as it
    was. *)
Lemma Genome_copy_shape this s :
  valid (heap s) this ->
  exists g s',
    Genome_copy rand this s = Ok (g, s') /\
    heap s `prefix_of` heap s' /\
    length (chromosomes g) = length (chromosomes this) /\
    shape_ok (heap s') g.
Proof.
  intros Hv.
  destruct (copy_all_Ok (chromosomes this) s Hv)
    as (cs' & s' & Hcopy & Hpre & Hall).
  destruct (lengths_all_Ok (chromosomes this) s') as (sh & Hlens & Hsh).
  { eapply Forall_impl; [exact Hv|].
    intros x [gx Hx]. exists gx.
    exact (prefix_lookup_Some _ _ _ _ Hx Hpre). }
  exists (MkGenome cs' sh), s'. unfold Genome_copy, Genome_new.
  cbn [forM fmap list_fmap]. unfold bind at 1. unfold bind at 1.
  unfold ret at 1. unfold ret at 1.
  step Hcopy. step Hlens. split; [reflexivity|]. split; [exact Hpre|].
  split; [exact (Forall2_length _ _ _ Hall)|].
  split; cbn [chromosomes shape].
  - rewrite (Forall2_length _ _ _ Hall), (Forall2_length _ _ _ Hsh).
    reflexivity.
  - intros i c' Hc'.
    destruct (Forall2_lookup_l _ _ _ _ _ Hall Hc')
      as (c & Hc & g & Hg' & Hg).
    destruct (Forall2_lookup_r _ _ _ _ _ Hsh Hc)
      as (x & Hx & g2 & Hg2 & ->).
    exists g. split; [exact Hg'|]. rewrite Hx. congruence.
Qed.

End GenomeMethods.

Section GenomeSpawn.

Variable rand : nat -> Q.

(** One pair: the child is the only new object, and it alone has been
    written by the mutation. *)
Lemma spawn_pair_Ok mp ap a b ga gb s :
  heap s !! a = Some ga -> heap s !! b = Some gb ->
  spawn_pair rand mp ap (a, b) s =
  Ok (length (heap s),
      State (heap s ++ [(offspring rand mp ap ga gb (drawn s)).1])
            (offspring rand mp ap ga gb (drawn s)).2).
Proof.
  intros Ha Hb. unfold spawn_pair, offspring. cbn [fst snd].
  step (Chromosome_spawnWith_Ok rand _ _ _ _ _ Ha Hb).
  erewrite Chromosome_mutate_Ok; [|apply lookup_fresh].
  cbn [heap drawn from_option id]. rewrite insert_fresh. reflexivity.
Qed.

(** The loop of [Genome.spawnWith] after [n] iterations. *)
Lemma spawn_loop_inv this other mp ap s n :
  valid (heap s) this -> valid (heap s) other ->
  (n <= length (chromosomes this))%nat ->
  exists cc sh s',
    foldM (spawn_chromosome rand this other mp ap)
          ([], shape this) (seq 0 n) s
      = Ok ((cc, sh), s') /\
    forM (spawn_pair rand mp ap)
         (zip (take n (chromosomes this)) (take n (chromosomes other))) s
      = Ok (cc, s') /\
    heap s `prefix_of` heap s' /\
    length cc = Nat.min n (length (chromosomes other)) /\
    length sh = Nat.max (length (shape this))
                        (Nat.min n (length (chromosomes other))) /\
    (forall j c, cc !! j = Some c ->
       (length (heap s) <= c)%nat /\
       exists g, heap s' !! c = Some g /\
                 sh !! j = Some (Some (Z.of_nat (length g)))).
Proof.
  intros Ht Ho Hn. induction n as [|n IH].
  - exists [], (shape this), s. cbn [seq foldM take zip_with forM].
    split; [reflexivity|]. split; [reflexivity|]. split; [reflexivity|].
    split; [reflexivity|]. split; [simpl; lia|].
    intros j c Hj. rewrite lookup_nil in Hj. discriminate.
  - destruct IH as (cc & sh & s' & Hloop & Hmap & Hpre & Hlen & Hsh & Hget);
      [lia|].
    rewrite seq_S. rewrite (foldM_snoc _ _ _ _ _ _ _ Hloop). cbn [Nat.add].
    unfold spawn_chromosome. cbn [fst snd].
    destruct (lookup_lt_is_Some_2 (chromosomes this) n ltac:(lia))
      as [a Ha].
    destruct (Nat.ltb_spec n (length (chromosomes other))) as [Hlt|Hge].
    + destruct (lookup_lt_is_Some_2 (chromosomes other) n Hlt) as [b Hb].
      destruct (Forall_lookup_1 _ _ _ _ Ht Ha) as [ga Hga].
      destruct (Forall_lookup_1 _ _ _ _ Ho Hb) as [gb Hgb].
      pose proof (prefix_lookup_Some _ _ _ _ Hga Hpre) as Hga'.
      pose proof (prefix_lookup_Some _ _ _ _ Hgb Hpre) as Hgb'.
      pose proof (spawn_pair_Ok mp ap _ _ _ _ _ Hga' Hgb') as Hpair.
      pose proof
        (lookup_fresh (heap s') (offspring rand mp ap ga gb (drawn s')).1)
        as Hnew.
      step (nth_obj_Ok _ _ _ _ Ha). step (nth_obj_Ok _ _ _ _ Hb).
      step Hpair.
      erewrite bind_Ok; [|apply Chromosome_length_Ok; exact Hnew].
      eexists _, _, _. split; [reflexivity|].
      split.
      { rewrite (take_S_r _ _ _ Ha), (take_S_r _ _ _ Hb).
        rewrite (zip_with_app pair (take n (chromosomes this)) [a]
                   (take n (chromosomes other)) [b])
          by (rewrite !length_take; lia).
        cbn [zip_with]. eapply forM_snoc; [exact Hmap|exact Hpair]. }
      split; [cbn [heap]; apply prefix_app_r, Hpre|].
      split; [rewrite length_app; cbn [length]; lia|].
      split; [rewrite array_put_length; lia|].
      intros j c Hj. cbn [heap].
      destruct (decide (j = length cc)) as [->|Hne].
      * rewrite list_lookup_middle in Hj by reflexivity.
        injection Hj as <-. split; [apply prefix_length, Hpre|].
        eexists. split; [exact Hnew|].
        replace (length cc) with n by lia. apply array_put_lookup_eq.
      * assert (Hj' : cc !! j = Some c).
        { destruct (decide (j < length cc)%nat) as [Hjl|Hjl].
          - rewrite lookup_app_l in Hj by exact Hjl. exact Hj.
          - apply lookup_lt_Some in Hj. rewrite length_app in Hj.
            cbn [length] in Hj. lia. }
        destruct (Hget j c Hj') as (Hc & g & Hg & Hs).
        split; [exact Hc|]. exists g. split.
        -- apply lookup_app_l_Some. exact Hg.
        -- apply array_put_lookup_keep; [exact Hs|].
           apply lookup_lt_Some in Hj'. lia.
    + exists cc, sh, s'. split; [reflexivity|].
      split.
      { rewrite (zip_with_take_both' pair (S n) (S n)) by lia.
        rewrite (zip_with_take_both' pair n n) in Hmap by lia. exact Hmap. }
      split; [exact Hpre|]. split; [lia|]. split; [lia|]. exact Hget.
Qed.

(** [g1.spawnWith(g2)] on genomes of the heap: it returns; the child's
    chromosomes are those of the pairs of the zipped parents, all of
    them new objects whose lengths [shape] records at their indices;
    [shape] has the receiver's entries past them. *)
Lemma Genome_spawnWith_Ok this other mp ap s :
  valid (heap s) this -> valid (heap s) other ->
  exists child s',
    Genome_spawnWith rand this other mp ap s = Ok (child, s') /\
    forM (spawn_pair rand (default mutation_probability mp)
                          (default addition_probability ap))
         (zip (chromosomes this) (chromosomes other)) s
      = Ok (chromosomes child, s') /\
    heap s `prefix_of` heap s' /\
    length (chromosomes child)
      = Nat.min (length (chromosomes this)) (length (chromosomes other)) /\
    length (shape child)
      = Nat.max (length (shape this))
          (Nat.min (length (chromosomes this))
                   (length (chromosomes other))) /\
    (forall j c, chromosomes child !! j = Some c ->
       (length (heap s) <= c)%nat /\
       exists g, heap s' !! c = Some g /\
                 shape child !! j = Some (Some (Z.of_nat (length g)))).
Proof.
  intros Ht Ho.
  destruct (spawn_loop_inv this other (default mutation_probability mp)
              (default addition_probability ap) s
              (length (chromosomes this)) Ht Ho ltac:(lia))
    as (cc & sh & s' & Hloop & Hmap & Hrest).
  exists (MkGenome cc sh), s'. split.
  - unfold Genome_spawnWith, Genome_new. cbn [forM fmap list_fmap].
    unfold bind at 1. unfold bind at 1. unfold ret at 1. unfold ret at 1.
    cbn [chromosomes]. step Hloop. reflexivity.
  - split; [|exact Hrest].
    rewrite (zip_with_take_both' pair _ _) in Hmap by lia. exact Hmap.
Qed.

(** When the receiver has no more chromosomes than the other parent, the
    child keeps the invariant of [shape]. *)
Lemma Genome_spawnWith_shape_kept this other mp ap s :
  valid (heap s) this -> valid (heap s) other ->
  length (shape this) = length (chromosomes this) ->
  (length (chromosomes this) <= length (chromosomes other))%nat ->
  exists child s',
    Genome_spawnWith rand this other mp ap s = Ok (child, s') /\
    shape_ok (heap s') child.
Proof.
  intros Ht Ho Hsh Hle.
  destruct (Genome_spawnWith_Ok this other mp ap s Ht Ho)
    as (child & s' & Hrun & _ & _ & Hlen & Hshape & Hget).
  exists child, s'. split; [exact Hrun|]. split; [lia|].
  intros i c Hc. destruct (Hget i c Hc) as (_ & g & Hg & Hs). eauto.
Qed.

(** When the receiver has more chromosomes than the other parent, the
    child has the receiver's number of [shape] entries and the other
    parent's number of chromosomes. *)
Lemma Genome_spawnWith_shape_lost this other mp ap s :
  valid (heap s) this -> valid (heap s) other ->
  length (shape this) = length (chromosomes this) ->
  (length (chromosomes other) < length (chromosomes this))%nat ->
  exists child s',
    Genome_spawnWith rand this other mp ap s = Ok (child, s') /\
    length (chromosomes child) = length (chromosomes other) /\
    length (shape child) = length (chromosomes this) /\
    ~ shape_ok (heap s') child.
Proof.
  intros Ht Ho Hsh Hlt.
  destruct (Genome_spawnWith_Ok this other mp ap s Ht Ho)
    as (child & s' & Hrun & _ & _ & Hlen & Hshape & _).
  exists child, s'. split; [exact Hrun|]. split; [lia|]. split; [lia|].
  intros [Hbad _]. lia.
Qed.




End GenomeSpawn.

(** * The claims of the specification *)

Section Claims.

Variable rand : nat -> Q.

(** C8.  For chromosomes [a] and [b] of the heap holding 32-bit genes,
    [a.spawnWith(b)] returns a new chromosome whose length is the
    maximum of the two lengths.  At every position that both parents
    have, the child holds the gene of the non-dominant parent when the
    draw of that position, the [i]-th one of the call, exceeds 1/2, and
    the gene of the dominant parent otherwise; at the other positions it
    holds the gene of the dominant parent.  One draw is made per common
    position. *)
Theorem spawnWith_child (s : state) (a b : loc) (ga gb : list Z) :
  heap s !! a = Some ga -> heap s !! b = Some gb ->
  Forall uint32 ga -> Forall uint32 gb ->
  exists child,
    Chromosome_spawnWith rand a b s =
      Ok (length (heap s),
          State (heap s ++ [child])
                (drawn s + Nat.min (length ga) (length gb))) /\
    length child = Nat.max (length ga) (length gb) /\
    forall i,
      child !! i =
      if decide (i < Nat.min (length ga) (length gb))%nat
      then (if JS.Qlt_bool (1 # 2) (rand (drawn s + i)%nat)
            then nondominant ga gb !! i else dominant ga gb !! i)
      else dominant ga gb !! i.
Proof.
  intros Ha Hb Hua Hub.
  destruct (dominant_length ga gb) as [Hd Hn].
  exists (inherit rand (drawn s) (dominant ga gb) (nondominant ga gb)).
  rewrite (Chromosome_spawnWith_Ok rand _ _ _ _ _ Ha Hb).
  rewrite crossed_inherit by (apply uint32_nondominant; assumption).
  rewrite crossed_draws, Hd, Hn.
  split; [do 3 f_equal; lia|].
  split; [rewrite inherit_length; exact Hd|].
  intros i. rewrite inherit_lookup, Hd, Hn.
  destruct (decide (i < Nat.min (Nat.max (length ga) (length gb))
                            (Nat.min (length ga) (length gb)))%nat);
    destruct (decide (i < Nat.min (length ga) (length gb))%nat);
    try reflexivity; lia.
Qed.

(** C4, amended.  In [a.spawnWith(b)] on chromosomes holding 32-bit
    genes, the receiver [a] is the dominant parent whenever [b] is not
    longer than [a], equal lengths included, and [b] is the dominant
    parent when it is longer: the child is the copy of the dominant
    parent with the genes of the other parent at the positions whose
    coin selects them. *)
Theorem spawnWith_dominance (s : state) (a b : loc) (ga gb : list Z) :
  heap s !! a = Some ga -> heap s !! b = Some gb ->
  Forall uint32 ga -> Forall uint32 gb ->
  exists child k,
    Chromosome_spawnWith rand a b s =
      Ok (length (heap s), State (heap s ++ [child]) k) /\
    ((length gb <= length ga)%nat ->
     child = inherit rand (drawn s) ga gb) /\
    ((length ga < length gb)%nat ->
     child = inherit rand (drawn s) gb ga).
Proof.
  intros Ha Hb Hua Hub.
  eexists _, _.
  split; [apply (Chromosome_spawnWith_Ok rand _ _ _ _ _ Ha Hb)|].
  rewrite crossed_inherit by (apply uint32_nondominant; assumption).
  unfold dominant, nondominant.
  destruct (Nat.ltb_spec (length ga) (length gb));
    split; intros; try reflexivity; lia.
Qed.


(** C9.  [Chromosome.spawnWith] and [Genome.spawnWith] return in a
    heap where every object that existed before the call has the genes
    it had; [Chromosome.diversityWith] and [Genome.diversityWith] return
    in the very state of the call. *)
Theorem parents_unchanged (s1 s2 : state) (a b : loc) (ga gb : list Z)
    (g1 g2 : Genome) (mp ap : option Q) :
  heap s1 !! a = Some ga -> heap s1 !! b = Some gb ->
  valid (heap s2) g1 -> valid (heap s2) g2 ->
  (exists child s',
      Chromosome_spawnWith rand a b s1 = Ok (child, s') /\
      forall c g, heap s1 !! c = Some g -> heap s' !! c = Some g) /\
  (exists v, Chromosome_diversityWith a b s1 = Ok (v, s1)) /\
  (exists child s',
      Genome_spawnWith rand g1 g2 mp ap s2 = Ok (child, s') /\
      forall c g, heap s2 !! c = Some g -> heap s' !! c = Some g) /\
  (exists v, Genome_diversityWith g1 g2 s2 = Ok (v, s2)).
Proof.
  intros Ha Hb H1 H2. split; [|split; [|split]].
  - eexists _, _.
    split; [apply (Chromosome_spawnWith_Ok rand _ _ _ _ _ Ha Hb)|].
    intros c g Hc. cbn [heap]. apply lookup_app_l_Some. exact Hc.
  - destruct (Chromosome_diversityWith_Ok _ _ _ _ s1 Ha Hb)
      as (v & _ & Hv).
    eauto.
  - destruct (Genome_spawnWith_Ok rand g1 g2 mp ap s2 H1 H2)
      as (child & s' & Hrun & _ & Hpre & _).
    exists child, s'. split; [exact Hrun|].
    intros c g Hc. exact (prefix_lookup_Some _ _ _ _ Hc Hpre).
  - apply Genome_diversityWith_Ok; assumption.
Qed.

(** C10, amended.  With draws that are never negative, [mutate(p, 0)]
    for [p] from 0 to 2^53 on a chromosome without genes returns the
    chromosome and leaves the whole heap, hence the empty gene array, as
    it was; the loop with the binary64 counter of the source ends within
    as many iterations as there are attempts, in the same heap. *)
Theorem mutate_empty (s : state) (c : loc) (p : Q) :
  (forall i, (0 <= rand i)%Q) -> (0 <= p)%Q -> (p <= inject_Z (2 ^ 53))%Q ->
  heap s !! c = Some [] ->
  (exists k, Chromosome_mutate rand c (Some p) (Some 0%Q) s
             = Ok (c, State (heap s) k)) /\
  (exists k, mutate_while rand (S (Z.to_nat (attempts p).1)) (attempts p).1
               c (attempts p).2 s
             = Ok (Some tt, State (heap s) k)).
Proof.
  intros Hr _ Hp Hc. split.
  - rewrite (Chromosome_mutate_Ok rand _ _ _ _ _ Hc).
    unfold mutated. cbn [from_option id].
    destruct (flips rand _ _ [] (drawn s)) as [g1 k1] eqn:E.
    pose proof (flips_nil rand (Z.to_nat (attempts p).1) (attempts p).2
                  (drawn s)) as Hnil.
    rewrite E in Hnil. cbn [fst snd] in *. subst g1.
    rewrite grow_never by apply Hr. cbn [fst snd].
    rewrite list_insert_id by exact Hc. eauto.
  - pose proof (attempts_bounded p (2 ^ 53) ltac:(lia) Hp) as Hn.
    rewrite mutate_while_exact by lia.
    step (mutate_loop_Ok rand _ _ _ _ _ Hc).
    rewrite flips_nil. rewrite list_insert_id by exact Hc.
    eexists. reflexivity.
Qed.

End Claims.

(** C7.  For two chromosomes of the heap that both have genes,
    [a.diversityWith(b)] returns a rational of the interval [0, 1]: the
    count that [countOnes] returns for the XOR of the longer array with
    the extended shorter one is the number of set bits of its 32-bit
    elements, it is at most 32 times the length of the longer array, and
    the result is their quotient. *)
Theorem diversityWith_unit_interval (s : state) (a b : loc)
    (ga gb : list Z) :
  heap s !! a = Some ga -> heap s !! b = Some gb ->
  ga <> [] -> gb <> [] ->
  exists ext q,
    extend_shorter (pick_longer ga gb).1 (pick_longer ga gb).2 = Some ext /\
    countOnes (xor_arrays (pick_longer ga gb).1 ext)
      = bit_total (xor_arrays (pick_longer ga gb).1 ext) /\
    0 <= countOnes (xor_arrays (pick_longer ga gb).1 ext)
      <= Z.of_nat (length (pick_longer ga gb).1) * 32 /\
    Chromosome_diversityWith a b s = Ok (JS.Fin q, s) /\
    q = (inject_Z (countOnes (xor_arrays (pick_longer ga gb).1 ext))
         / inject_Z (Z.of_nat (length (pick_longer ga gb).1) * 32))%Q /\
    (0 <= q)%Q /\ (q <= 1)%Q.
Proof.
  intros Ha Hb Hna Hnb.
  destruct (genes_diversity_unfold ga gb) as (ext & Hext & Hdiv).
  destruct (pick_longer_le ga gb) as [_ Hlen].
  pose proof (countOnes_bounds (xor_arrays (pick_longer ga gb).1 ext)) as Hb1.
  rewrite xor_arrays_length in Hb1.
  assert (Hpos : (0 < length (pick_longer ga gb).1)%nat).
  { destruct ga; [congruence|]. rewrite Hlen. cbn [length]. lia. }
  destruct (ratio_unit (countOnes (xor_arrays (pick_longer ga gb).1 ext))
              (length (pick_longer ga gb).1) Hpos ltac:(lia))
    as (Hq & Hq0 & Hq1).
  eexists ext, _. split; [exact Hext|]. split; [apply countOnes_exact|].
  split; [lia|]. split.
  - destruct (Chromosome_diversityWith_Ok _ _ _ _ s Ha Hb) as (v & Hv & Hrun).
    rewrite Hrun. rewrite Hdiv in Hv. injection Hv as <-. rewrite Hq.
    reflexivity.
  - split; [reflexivity|]. split; assumption.
Qed.

(** C6 on the chromosomes that have genes.  For every chromosome [a] of
    the heap that has at least one gene, [a.diversityWith(a)] returns a
    rational equal to 0. *)
Theorem diversityWith_self (s : state) (a : loc) (ga : list Z) :
  heap s !! a = Some ga -> ga <> [] ->
  exists q, Chromosome_diversityWith a a s = Ok (JS.Fin q, s) /\ (q == 0)%Q.
Proof.
  intros Ha Hne.
  destruct (Chromosome_diversityWith_Ok _ _ _ _ s Ha Ha) as (v & Hv & Hrun).
  rewrite genes_diversity_self in Hv. injection Hv as <-. rewrite Hrun.
  destruct (ratio_unit 0 (length ga)) as (Hq & _);
    [destruct ga; [congruence|cbn [length]; lia]|lia|].
  eexists. split; [rewrite Hq; reflexivity|].
  unfold Qdiv. apply Qmult_0_l.
Qed.

(** C2.  The code on a zero denominator: [Chromosome.diversityWith] on
    two chromosomes without genes, and [Genome.diversityWith] on two
    genomes one of which has no chromosome, signal no error; they return
    NaN, the quotient 0/0, and leave the state as it was.  The claim has
    an error signalled there. *)
Theorem diversityWith_zero_denominator (s1 s2 : state) (a b : loc)
    (this other : Genome) :
  heap s1 !! a = Some [] -> heap s1 !! b = Some [] ->
  chromosomes this = [] \/ chromosomes other = [] ->
  Chromosome_diversityWith a b s1 = Ok (JS.NaN, s1) /\
  Genome_diversityWith this other s2 = Ok (JS.NaN, s2).
Proof.
  intros Ha Hb Hz. split.
  - destruct (Chromosome_diversityWith_Ok _ _ _ _ s1 Ha Hb) as (v & Hv & Hrun).
    rewrite Hrun. cbv in Hv. injection Hv as <-. reflexivity.
  - unfold Genome_diversityWith.
    destruct (Nat.ltb_spec (length (chromosomes this))
                           (length (chromosomes other))) as [H|H].
    + destruct Hz as [Hz|Hz]; [|rewrite Hz in H; cbn [length] in H; lia].
      rewrite Hz. reflexivity.
    + destruct Hz as [Hz|Hz].
      * rewrite Hz in H. cbn [length] in H.
        destruct (chromosomes other); [reflexivity|cbn [length] in H; lia].
      * rewrite Hz. reflexivity.
Qed.

(** C1.  The code at probability 1.5, on the chromosome [[0]], every
    draw being 0.7: the single attempt is tested against the fractional
    part 0.5 and does not fire, so that after the two draws of the call
    (the attempt and the addition test) the gene is still 0.  The claim
    has one flip that always fires, and the flip of any of the 32 bits
    changes the gene. *)
Theorem mutate_fractional_no_sure_flip :
  Chromosome_mutate (always (7 # 10)) 0%nat (Some (3 # 2)%Q) (Some 0%Q)
                    (State [[0]] 0)
  = Ok (0%nat, State [[0]] 2) /\
  Forall (fun idxBit => flip_bit [0] 0 idxBit <> [0]) (seqZ 0 32).
Proof.
  split; [reflexivity|].
  apply Forall_forall. intros b Hb. apply elem_of_seqZ in Hb.
  assert (Hcase : exists n, (n < 32)%nat /\ b = Z.of_nat n).
  { exists (Z.to_nat b). lia. }
  destruct Hcase as (n & Hn & ->).
  do 32 (destruct n as [|n]; [vm_compute; discriminate|]). lia.
Qed.

(** C3.  The code on [new Genome([1, 1]).spawnWith(new Genome([1]))],
    every draw being 0.7: both parents keep the invariant of [shape], the
    child has one chromosome and two entries of [shape], so that it
    breaks the invariant. *)
Theorem Genome_spawnWith_shape_mismatch :
  Genome_new (always (7 # 10)) [1; 1] (State [] 0)
  = Ok (MkGenome [0%nat; 1%nat] [Some 1; Some 1],
        State [[3006477106]; [3006477106]] 2) /\
  Genome_new (always (7 # 10)) [1] (State [[3006477106]; [3006477106]] 2)
  = Ok (MkGenome [2%nat] [Some 1],
        State [[3006477106]; [3006477106]; [3006477106]] 3) /\
  Genome_spawnWith (always (7 # 10))
    (MkGenome [0%nat; 1%nat] [Some 1; Some 1]) (MkGenome [2%nat] [Some 1])
    None None (State [[3006477106]; [3006477106]; [3006477106]] 3)
  = Ok (MkGenome [3%nat] [Some 1; Some 1],
        State [[3006477106]; [3006477106]; [3006477106]; [3006477106]] 6) /\
  shape_ok [[3006477106]; [3006477106]; [3006477106]]
           (MkGenome [0%nat; 1%nat] [Some 1; Some 1]) /\
  shape_ok [[3006477106]; [3006477106]; [3006477106]]
           (MkGenome [2%nat] [Some 1]) /\
  ~ shape_ok [[3006477106]; [3006477106]; [3006477106]; [3006477106]]
             (MkGenome [3%nat] [Some 1; Some 1]).
Proof.
  split; [vm_compute; reflexivity|].
  split; [vm_compute; reflexivity|].
  split; [vm_compute; reflexivity|].
  split.
  { split; [reflexivity|].
    intros [|[|i]] c [= <-]; eexists; split; reflexivity. }
  split.
  { split; [reflexivity|].
    intros [|i] c [= <-]; eexists; split; reflexivity. }
  intros [Hlen _]. cbn in Hlen. discriminate.
Qed.

(** * Counterexamples and instances *)

(** C2: two chromosomes without genes, and two genomes without
    chromosomes; each call returns NaN and signals nothing. *)
Lemma diversityWith_empty_is_NaN :
  Chromosome_diversityWith 0%nat 1%nat (State [[]; []] 0)
    = Ok (JS.NaN, State [[]; []] 0) /\
  Genome_diversityWith (MkGenome [] []) (MkGenome [] []) (State [] 0)
    = Ok (JS.NaN, State [] 0) /\
  ~ (exists e, Chromosome_diversityWith 0%nat 1%nat (State [[]; []] 0)
               = Throw e) /\
  ~ (exists e, Genome_diversityWith (MkGenome [] []) (MkGenome [] [])
                 (State [] 0) = Throw e).
Proof.
  split; [reflexivity|]. split; [reflexivity|].
  split; intros [e He]; discriminate He.
Qed.

(** C4: equal lengths and a coin that never selects the other parent;
    the child is the receiver's [[1]], whereas the child seeded by the
    argument would be [[2]]. *)
Lemma spawnWith_tie_keeps_receiver :
  length [1] = length [2] /\
  Chromosome_spawnWith (always 0) 0%nat 1%nat (State [[1]; [2]] 0)
    = Ok (2%nat, State [[1]; [2]; [1]] 1) /\
  inherit (always 0) 0 [2] [1] = [2] /\
  [1] <> inherit (always 0) 0 [2] [1].
Proof.
  split; [reflexivity|]. split; [reflexivity|].
  split; [reflexivity|]. discriminate.
Qed.

(** C6.  The code on the chromosome without genes compared with itself:
    it returns NaN, the quotient 0/0, which is no rational and not the 0
    of the claim. *)
Lemma diversityWith_self_empty_is_NaN :
  Chromosome_diversityWith 0%nat 0%nat (State [[]] 0)
    = Ok (JS.NaN, State [[]] 0) /\
  ~ (exists q, Chromosome_diversityWith 0%nat 0%nat (State [[]] 0)
               = Ok (JS.Fin q, State [[]] 0)).
Proof. split; [reflexivity|]. intros [q H]. discriminate H. Qed.

Ltac solve_uint32 :=
  repeat (constructor; [unfold uint32; split; [discriminate|reflexivity]|]);
  constructor.

Ltac solve_valid := repeat constructor; eexists; reflexivity.

(** C2 at two empty chromosomes, and at an empty genome against a genome
    of one chromosome. *)
Lemma diversityWith_zero_denominator_witness :
  (heap (State [[]; []] 0) !! 0%nat = Some [] /\
   heap (State [[]; []] 0) !! 1%nat = Some [] /\
   (chromosomes (MkGenome [] []) = [] \/
    chromosomes (MkGenome [0%nat] [Some 1]) = [])) /\
  Chromosome_diversityWith 0%nat 1%nat (State [[]; []] 0)
    = Ok (JS.NaN, State [[]; []] 0) /\
  Genome_diversityWith (MkGenome [] []) (MkGenome [0%nat] [Some 1])
    (State [[5]] 3)
    = Ok (JS.NaN, State [[5]] 3).
Proof.
  split.
  - split; [reflexivity|]. split; [reflexivity|]. left. reflexivity.
  - apply (diversityWith_zero_denominator
             (State [[]; []] 0) (State [[5]] 3) 0%nat 1%nat
             (MkGenome [] []) (MkGenome [0%nat] [Some 1]));
      [reflexivity|reflexivity|left; reflexivity].
Defined.

(** C4 at two chromosomes of two genes: the receiver is dominant. *)
Lemma spawnWith_dominance_witness :
  (heap (State [[1; 2]; [3; 4]] 0) !! 0%nat = Some [1; 2] /\
   heap (State [[1; 2]; [3; 4]] 0) !! 1%nat = Some [3; 4] /\
   Forall uint32 [1; 2] /\ Forall uint32 [3; 4] /\
   (length [3; 4] <= length [1; 2])%nat) /\
  exists child k,
    Chromosome_spawnWith (always (7 # 10)) 0%nat 1%nat
      (State [[1; 2]; [3; 4]] 0)
      = Ok (2%nat, State ([[1; 2]; [3; 4]] ++ [child]) k) /\
    child = inherit (always (7 # 10)) 0 [1; 2] [3; 4].
Proof.
  split.
  - split; [reflexivity|]. split; [reflexivity|].
    split; [solve_uint32|]. split; [solve_uint32|]. cbn [length]. lia.
  - destruct (spawnWith_dominance (always (7 # 10))
                (State [[1; 2]; [3; 4]] 0) 0%nat 1%nat [1; 2] [3; 4])
      as (child & k & Hrun & Htie & _);
      [reflexivity|reflexivity|solve_uint32|solve_uint32|].
    exists child, k. split; [exact Hrun|]. apply Htie. cbn [length]. lia.
Defined.


(** C6 at a chromosome of two genes. *)
Lemma diversityWith_self_witness :
  (heap (State [[5; 6]] 0) !! 0%nat = Some [5; 6] /\ [5; 6] <> []) /\
  exists q,
    Chromosome_diversityWith 0%nat 0%nat (State [[5; 6]] 0)
      = Ok (JS.Fin q, State [[5; 6]] 0) /\
    (q == 0)%Q.
Proof.
  split.
  - split; [reflexivity|discriminate].
  - apply (diversityWith_self (State [[5; 6]] 0) 0%nat [5; 6]);
      [reflexivity|discriminate].
Defined.

(** C7 at chromosomes of two genes and of one gene. *)
Lemma diversityWith_unit_interval_witness :
  (heap (State [[1; 2]; [3]] 0) !! 0%nat = Some [1; 2] /\
   heap (State [[1; 2]; [3]] 0) !! 1%nat = Some [3] /\
   [1; 2] <> [] /\ [3] <> []) /\
  exists q,
    Chromosome_diversityWith 0%nat 1%nat (State [[1; 2]; [3]] 0)
      = Ok (JS.Fin q, State [[1; 2]; [3]] 0) /\
    (0 <= q)%Q /\ (q <= 1)%Q.
Proof.
  split.
  - split; [reflexivity|]. split; [reflexivity|]. split; discriminate.
  - destruct (diversityWith_unit_interval (State [[1; 2]; [3]] 0)
                0%nat 1%nat [1; 2] [3])
      as (ext & q & _ & _ & _ & Hrun & _ & H0 & H1);
      [reflexivity|reflexivity|discriminate|discriminate|].
    exists q. split; [exact Hrun|]. split; assumption.
Defined.

(** C8 at chromosomes of three and of two genes. *)
Lemma spawnWith_child_witness :
  (heap (State [[1; 2; 3]; [4; 5]] 0) !! 0%nat = Some [1; 2; 3] /\
   heap (State [[1; 2; 3]; [4; 5]] 0) !! 1%nat = Some [4; 5] /\
   Forall uint32 [1; 2; 3] /\ Forall uint32 [4; 5]) /\
  exists child,
    Chromosome_spawnWith (always (7 # 10)) 0%nat 1%nat
      (State [[1; 2; 3]; [4; 5]] 0)
      = Ok (2%nat, State ([[1; 2; 3]; [4; 5]] ++ [child]) 2) /\
    length child = 3%nat.
Proof.
  split.
  - split; [reflexivity|]. split; [reflexivity|]. split; solve_uint32.
  - destruct (spawnWith_child (always (7 # 10))
                (State [[1; 2; 3]; [4; 5]] 0) 0%nat 1%nat [1; 2; 3] [4; 5])
      as (child & Hrun & Hlen & _);
      [reflexivity|reflexivity|solve_uint32|solve_uint32|].
    exists child. split; [exact Hrun|exact Hlen].
Defined.

(** C9 at two chromosomes and two genomes of one heap. *)
Lemma parents_unchanged_witness :
  (heap (State [[1]; [2]; [3]] 0) !! 0%nat = Some [1] /\
   heap (State [[1]; [2]; [3]] 0) !! 1%nat = Some [2] /\
   valid [[1]; [2]; [3]] (MkGenome [0%nat; 1%nat] [Some 1; Some 1]) /\
   valid [[1]; [2]; [3]] (MkGenome [2%nat] [Some 1])) /\
  (exists child s',
      Chromosome_spawnWith (always (7 # 10)) 0%nat 1%nat
        (State [[1]; [2]; [3]] 0) = Ok (child, s') /\
      forall c g, [[1]; [2]; [3]] !! c = Some g -> heap s' !! c = Some g) /\
  (exists child s',
      Genome_spawnWith (always (7 # 10))
        (MkGenome [0%nat; 1%nat] [Some 1; Some 1])
        (MkGenome [2%nat] [Some 1]) None None (State [[1]; [2]; [3]] 0)
      = Ok (child, s') /\
      forall c g, [[1]; [2]; [3]] !! c = Some g -> heap s' !! c = Some g).
Proof.
  split.
  - split; [reflexivity|]. split; [reflexivity|]. split; solve_valid.
  - destruct (parents_unchanged (always (7 # 10))
                (State [[1]; [2]; [3]] 0) (State [[1]; [2]; [3]] 0)
                0%nat 1%nat [1] [2]
                (MkGenome [0%nat; 1%nat] [Some 1; Some 1])
                (MkGenome [2%nat] [Some 1]) None None)
      as (Hc & _ & Hg & _);
      [reflexivity|reflexivity|solve_valid|solve_valid|].
    split; [exact Hc|exact Hg].
Defined.

(** C10 at probability 2.5, every draw being 0.3. *)
Lemma mutate_empty_witness :
  ((forall i : nat, (0 <= always (3 # 10) i)%Q) /\ (0 <= 5 # 2)%Q /\
   (5 # 2 <= inject_Z (2 ^ 53))%Q /\
   heap (State [[]] 0) !! 0%nat = Some []) /\
  (exists k,
    Chromosome_mutate (always (3 # 10)) 0%nat (Some (5 # 2)%Q) (Some 0%Q)
      (State [[]] 0)
    = Ok (0%nat, State [[]] k)) /\
  (exists k,
    mutate_while (always (3 # 10)) 3 2 0%nat (1 # 2) (State [[]] 0)
    = Ok (Some tt, State [[]] k)).
Proof.
  split.
  - split; [intros i; discriminate|]. split; [discriminate|].
    split; [vm_compute; discriminate|reflexivity].
  - apply (mutate_empty (always (3 # 10)) (State [[]] 0) 0%nat (5 # 2)%Q);
      [intros i; discriminate|discriminate|vm_compute; discriminate
      |reflexivity].
Defined.

(** One iteration of the loop of [mutate] on the chromosome without
    genes, every draw being 0.5 and the probability of an attempt 1: the
    attempt fires, its store is ignored, three draws are made. *)
Lemma attempt_on_empty (rest : M (option unit)) (k : nat) :
  (r <- Math_random (always (1 # 2)) ;;
   (if JS.Qlt_bool r 1 then
      r1 <- Math_random (always (1 # 2)) ;;
      len <- Chromosome_length 0%nat ;;
      let idxGene := JS.floor_mul r1 (Z.of_nat len) in
      r2 <- Math_random (always (1 # 2)) ;;
      let idxBit := JS.floor_mul r2 32 in
      try_ (genes <- get_genes 0%nat ;;
            set_genes 0%nat (flip_bit genes idxGene idxBit))
    else ret tt) ;;;
   rest) (State [[]] k)
  = rest (State [[]] (S (S (S k)))).
Proof. reflexivity. Qed.

(** C10: at the probability 2^53 + 4 on the chromosome without genes
    the loop of [mutate] never ends.  The number of attempts is
    2^53 + 4, a binary64; its decrement gives 2^53 + 4 back, so that the
    counter is positive after any number of iterations. *)
Lemma mutate_loop_never_ends :
  (0 <= inject_Z (2 ^ 53 + 4))%Q /\
  heap (State [[]] 0) !! 0%nat = Some [] /\
  attempts (inject_Z (2 ^ 53 + 4)) = (2 ^ 53 + 4, 1%Q) /\
  decrement (2 ^ 53 + 4) = 2 ^ 53 + 4 /\
  forall fuel : nat, exists k,
    mutate_while (always (1 # 2)) fuel (2 ^ 53 + 4) 0%nat 1 (State [[]] 0)
    = Ok (None, State [[]] k).
Proof.
  split; [vm_compute; discriminate|]. split; [reflexivity|].
  split; [vm_compute; reflexivity|]. split; [vm_compute; reflexivity|].
  assert (H : forall fuel k0, exists k,
             mutate_while (always (1 # 2)) fuel (2 ^ 53 + 4) 0%nat 1
               (State [[]] k0) = Ok (None, State [[]] k)).
  { induction fuel as [|fuel IH]; intros k0.
    - exists k0. reflexivity.
    - destruct (IH (S (S (S k0)))) as [k Hk]. exists k.
      cbn [mutate_while].
      change (0 <? 2 ^ 53 + 4) with true.
      change (decrement (2 ^ 53 + 4)) with (2 ^ 53 + 4).
      cbv beta iota zeta. rewrite attempt_on_empty. exact Hk. }
  intros fuel. apply H.
Qed.

(** * Further properties of the code *)

(** ** Further bit facts *)

Lemma uint32_high_bits x j : uint32 x -> 32 <= j -> Z.testbit x j = false.
Proof.
  intros Hx Hj. rewrite <- (Z.mod_small x (2 ^ 32)) by exact Hx.
  apply Z.mod_pow2_bits_high. lia.
Qed.

Lemma shl_1 b : 0 <= b < 32 -> JS.shl 1 b = JS.ToInt32 (2 ^ b).
Proof.
  intros Hb. unfold JS.shl. rewrite (ToInt32_small 1) by lia.
  unfold JS.ToUint32 at 1.
  rewrite (Z.mod_small b (2 ^ 32)) by lia.
  rewrite (Z.mod_small b 32) by lia.
  rewrite Z.shiftl_1_l. reflexivity.
Qed.

(** [g ^ (1 << b)] stored into a typed array is [g] with bit [b]
    flipped. *)
Lemma xor_single_bit g b :
  uint32 g -> 0 <= b < 32 ->
  JS.ToUint32 (JS.bitxor g (JS.shl 1 b)) = Z.lxor g (2 ^ b).
Proof.
  intros Hg Hb. rewrite shl_1 by exact Hb. unfold JS.ToUint32, JS.bitxor.
  apply Z.bits_inj'. intros j Hj.
  destruct (Z.lt_ge_cases j 32) as [Hlow|Hhigh].
  - rewrite Z.mod_pow2_bits_low by lia. rewrite !Z.lxor_spec.
    rewrite !ToInt32_testbit by lia. reflexivity.
  - rewrite Z.mod_pow2_bits_high by lia. rewrite Z.lxor_spec.
    rewrite (uint32_high_bits g j Hg Hhigh).
    rewrite Z.pow2_bits_eqb by lia.
    destruct (Z.eqb_spec b j); [lia|reflexivity].
Qed.



Lemma lxor_single_bit_changes g b : 0 <= b -> Z.lxor g (2 ^ b) <> g.
Proof.
  intros Hb H. apply (f_equal (fun x => Z.testbit x b)) in H.
  rewrite Z.lxor_spec, Z.pow2_bits_true in H by lia.
  destruct (Z.testbit g b); discriminate.
Qed.

(** Bits that are pairwise opposite: the XOR is all ones. *)
Lemma xor_opposite x y :
  (forall j, 0 <= j < 32 -> Z.testbit y j = negb (Z.testbit x j)) ->
  JS.ToUint32 (JS.bitxor x y) = 4294967295.
Proof.
  intros H. unfold JS.ToUint32, JS.bitxor. change 4294967295 with (Z.ones 32).
  apply Z.bits_inj'. intros j Hj.
  destruct (Z.lt_ge_cases j 32) as [Hlow|Hhigh].
  - rewrite Z.mod_pow2_bits_low by lia. rewrite Z.lxor_spec.
    rewrite !ToInt32_testbit by lia. rewrite H by lia.
    rewrite Z.ones_spec_low by lia. destruct (Z.testbit x j); reflexivity.
  - rewrite Z.mod_pow2_bits_high by lia.
    rewrite Z.ones_spec_high by lia. reflexivity.
Qed.

Lemma xor_with_bitnot x :
  JS.ToUint32 (JS.bitxor x (JS.ToUint32 (JS.bitnot x))) = 4294967295.
Proof.
  apply xor_opposite. intros j Hj. unfold JS.ToUint32, JS.bitnot.
  rewrite Z.mod_pow2_bits_low by lia. rewrite Z.lnot_spec by lia.
  rewrite ToInt32_testbit by lia. reflexivity.
Qed.

Lemma xor_with_complement x :
  uint32 x -> JS.ToUint32 (JS.bitxor x (4294967295 - x)) = 4294967295.
Proof.
  intros Hx. apply xor_opposite. intros j Hj.
  replace (4294967295 - x) with (Z.lnot x mod 2 ^ 32).
  - rewrite Z.mod_pow2_bits_low by lia. apply Z.lnot_spec. lia.
  - unfold Z.lnot, uint32 in *. change (2 ^ 32) with 4294967296 in *.
    Z.div_mod_to_equations. lia.
Qed.

Lemma popcount_ones : popcount 32 4294967295 = 32.
Proof. reflexivity. Qed.

Lemma bit_total_app l1 l2 : bit_total (l1 ++ l2) = bit_total l1 + bit_total l2.
Proof.
  unfold bit_total. induction l1 as [|x l1 IH]; cbn [app foldr]; [lia|].
  rewrite IH. lia.
Qed.

Lemma bit_total_nonneg l : 0 <= bit_total l.
Proof. rewrite <- countOnes_exact. apply countOnes_bounds. Qed.

Lemma bit_total_ones n : bit_total (replicate n 4294967295) = 32 * Z.of_nat n.
Proof.
  unfold bit_total. induction n as [|n IH]; cbn [replicate foldr]; [lia|].
  rewrite IH, popcount_ones. lia.
Qed.

(** ** Math.floor(Math.random() * n) *)

Lemma floor_mul_range r n :
  (0 <= r)%Q -> (r < 1)%Q -> 0 < n -> 0 <= JS.floor_mul r n < n.
Proof.
  intros H0 H1 Hn. unfold JS.floor_mul.
  assert (Hpos : (0 < inject_Z n)%Q).
  { change 0%Q with (inject_Z 0). rewrite <- Zlt_Qlt. exact Hn. }
  split.
  - change 0 with (Qfloor 0). apply Qfloor_resp_le.
    apply Qmult_le_0_compat; [exact H0|]. apply Qlt_le_weak, Hpos.
  - rewrite Zlt_Qlt. eapply Qle_lt_trans; [apply Qfloor_le|].
    rewrite <- (Qmult_1_l (inject_Z n)) at 2.
    apply Qmult_lt_compat_r; assumption.
Qed.

Lemma floor_mul_zero r : JS.floor_mul r 0 = 0.
Proof.
  unfold JS.floor_mul. change 0 with (Qfloor 0) at 2.
  apply Qfloor_comp. apply Qmult_0_r.
Qed.

(** ** One bit flip *)

Lemma flip_bit_in_range genes i b g :
  genes !! i = Some g -> uint32 g -> 0 <= b < 32 ->
  flip_bit genes (Z.of_nat i) b = <[i := Z.lxor g (2 ^ b)]> genes.
Proof.
  intros Hi Hg Hb. unfold flip_bit, JS.ta_put_at, JS.ta_read_at.
  destruct (Z.leb_spec 0 (Z.of_nat i)) as [_|?]; [|lia].
  rewrite Nat2Z.id. unfold JS.ta_put, JS.ta_read. rewrite Hi. cbn [default from_option id].
  pose proof (lookup_lt_Some _ _ _ Hi) as Hlt.
  destruct (Nat.ltb_spec i (length genes)) as [_|?]; [|lia].
  rewrite xor_single_bit by assumption. reflexivity.
Qed.

Lemma flip_bit_uint32 genes i b : Forall uint32 genes -> Forall uint32 (flip_bit genes i b).
Proof.
  intros H. unfold flip_bit, JS.ta_put_at. destruct (0 <=? i); [|exact H].
  apply ta_put_uint32, H.
Qed.

(** The flip of [mutate] with draws of the unit interval, on an array
    with genes: an index of the array and a bit below 32. *)
Lemma flip_drawn genes r1 r2 :
  Forall uint32 genes -> genes <> [] ->
  (0 <= r1)%Q -> (r1 < 1)%Q -> (0 <= r2)%Q -> (r2 < 1)%Q ->
  exists i g,
    genes !! i = Some g /\
    Z.of_nat i = JS.floor_mul r1 (Z.of_nat (length genes)) /\
    0 <= JS.floor_mul r2 32 < 32 /\
    flip_bit genes (JS.floor_mul r1 (Z.of_nat (length genes)))
                   (JS.floor_mul r2 32)
    = <[i := Z.lxor g (2 ^ JS.floor_mul r2 32)]> genes.
Proof.
  intros Hu Hne H10 H11 H20 H21.
  assert (Hlen : 0 < Z.of_nat (length genes)) by (destruct genes; [congruence|cbn [length]; lia]).
  pose proof (floor_mul_range r1 _ H10 H11 Hlen) as Hi.
  pose proof (floor_mul_range r2 32 H20 H21 ltac:(lia)) as Hb.
  destruct (lookup_lt_is_Some_2 genes
              (Z.to_nat (JS.floor_mul r1 (Z.of_nat (length genes)))) ltac:(lia))
    as [g Hg].
  exists (Z.to_nat (JS.floor_mul r1 (Z.of_nat (length genes)))), g.
  split; [exact Hg|]. split; [lia|]. split; [exact Hb|].
  rewrite <- (flip_bit_in_range _ _ _ _ Hg (Forall_lookup_1 _ _ _ _ Hu Hg) Hb).
  f_equal. lia.
Qed.


(** ** Chromosome.mutate, further *)

Section MutationMore.

Variable rand : nat -> Q.

Lemma flips_uint32 n p : forall g k,
  Forall uint32 g -> Forall uint32 (flips rand n p g k).1.
Proof.
  induction n as [|n IH]; intros g k Hu; cbn [flips]; [exact Hu|].
  destruct (JS.Qlt_bool (rand k) p); apply IH; [apply flip_bit_uint32|]; exact Hu.
Qed.

Lemma flips_draws n p : forall g k, (k + n <= (flips rand n p g k).2)%nat.
Proof.
  induction n as [|n IH]; intros g k; cbn [flips snd]; [lia|].
  destruct (JS.Qlt_bool (rand k) p).
  - pose proof (IH (flip_bit g
                      (JS.floor_mul (rand (S k)) (Z.of_nat (length g)))
                      (JS.floor_mul (rand (S (S k))) 32)) (S (S (S k)))). lia.
  - pose proof (IH g (S k)). lia.
Qed.

Lemma flips_never n p : forall g k,
  (forall i, (p <= rand i)%Q) -> flips rand n p g k = (g, (k + n)%nat).
Proof.
  induction n as [|n IH]; intros g k Hr; cbn [flips].
  - f_equal. lia.
  - rewrite (Qlt_bool_false _ _ (Hr k)), IH by exact Hr. f_equal. lia.
Qed.

Lemma grow_uint32 ap g k : Forall uint32 g -> Forall uint32 (grow rand ap g k).1.
Proof.
  intros Hu. unfold grow. destruct (JS.Qlt_bool _ _); cbn [fst]; [|exact Hu].
  apply Forall_app. split; [exact Hu|].
  constructor; [apply ToUint32_range|constructor].
Qed.

Lemma attempts_positive p : 1 <= (attempts p).1.
Proof.
  unfold attempts. destruct (Qle_bool 1 p) eqn:E; cbn [fst]; [|lia].
  apply Qle_bool_iff in E. change 1 with (Qfloor 1).
  apply Qfloor_resp_le, E.
Qed.

Lemma attempts_nonpositive p : (p <= 0)%Q -> attempts p = (1, p).
Proof.
  intros Hp. apply attempts_below_one. intros H1.
  assert (H : (1 <= 0)%Q) by (eapply Qle_trans; eassumption).
  unfold Qle in H. simpl in H. lia.
Qed.

(** X1.  [mutate] on a chromosome of the heap, at a mutation probability
    of at most 2^53, returns the receiver; the heap differs at the
    receiver only; the receiver has its former number of genes or one
    more; genes of 32 bits stay genes of 32 bits; at least two draws are
    made. *)
Theorem mutate_writes_receiver_only (s : state) (c : loc) (g : list Z)
    (mp ap : option Q) :
  heap s !! c = Some g ->
  (default mutation_probability mp <= inject_Z (2 ^ 53))%Q ->
  exists g' k,
    Chromosome_mutate rand c mp ap s
      = Ok (c, State (<[c := g']> (heap s)) k) /\
    (length g <= length g' <= S (length g))%nat /\
    (Forall uint32 g -> Forall uint32 g') /\
    (drawn s + 2 <= k)%nat.
Proof.
  intros Hc _. eexists _, _.
  split; [apply (Chromosome_mutate_Ok rand _ _ _ _ _ Hc)|].
  split; [apply mutated_length|]. split.
  - intros Hu. unfold mutated. apply grow_uint32, flips_uint32, Hu.
  - unfold mutated.
    pose proof (attempts_positive (default mutation_probability mp)) as Hn.
    pose proof (flips_draws (Z.to_nat (attempts (default mutation_probability mp)).1)
                  (attempts (default mutation_probability mp)).2 g (drawn s)) as Hk.
    unfold grow. destruct (JS.Qlt_bool _ _); cbn [snd]; lia.
Qed.


(** X3.  With draws that are never negative, [mutate] with a mutation
    probability and an addition probability of 0 or less leaves the whole
    heap as it was and makes two draws. *)
Theorem mutate_nothing (s : state) (c : loc) (g : list Z) (mp ap : Q) :
  (forall i, (0 <= rand i)%Q) -> (mp <= 0)%Q -> (ap <= 0)%Q ->
  heap s !! c = Some g ->
  Chromosome_mutate rand c (Some mp) (Some ap) s
  = Ok (c, State (heap s) (drawn s + 2)).
Proof.
  intros Hr Hmp Hap Hc. rewrite (Chromosome_mutate_Ok rand _ _ _ _ _ Hc).
  cbn [from_option id]. unfold mutated.
  rewrite attempts_nonpositive by exact Hmp. cbn [fst snd]. change (Z.to_nat 1) with 1%nat.
  rewrite flips_never by (intros i; eapply Qle_trans; [exact Hmp|apply Hr]).
  cbn [fst snd]. unfold grow.
  rewrite Qlt_bool_false by (eapply Qle_trans; [exact Hap|apply Hr]).
  cbn [fst snd]. rewrite list_insert_id by exact Hc. do 3 f_equal. lia.
Qed.

(** X4.  With draws of the unit interval, [mutate] with a mutation
    probability of 0 or less and an addition probability of 1 or more
    appends one gene, of at most 4294967294, after the former genes, which
    it keeps, and makes three draws. *)
Theorem mutate_appends (s : state) (c : loc) (g : list Z) (mp ap : Q) :
  (forall i, (0 <= rand i)%Q /\ (rand i < 1)%Q) ->
  (mp <= 0)%Q -> (1 <= ap)%Q ->
  heap s !! c = Some g ->
  exists x,
    0 <= x <= 4294967294 /\
    Chromosome_mutate rand c (Some mp) (Some ap) s
    = Ok (c, State (<[c := g ++ [x]]> (heap s)) (drawn s + 3)).
Proof.
  intros Hr Hmp Hap Hc.
  exists (JS.floor_mul (rand (S (drawn s + 1))) 4294967295).
  pose proof (floor_mul_range (rand (S (drawn s + 1))) 4294967295
                (proj1 (Hr _)) (proj2 (Hr _)) ltac:(lia)) as Hx.
  split; [lia|].
  rewrite (Chromosome_mutate_Ok rand _ _ _ _ _ Hc).
  cbn [from_option id]. unfold mutated.
  rewrite attempts_nonpositive by exact Hmp. cbn [fst snd]. change (Z.to_nat 1) with 1%nat.
  rewrite flips_never by (intros i; eapply Qle_trans; [exact Hmp|apply Hr]).
  cbn [fst snd]. unfold grow.
  rewrite Qlt_bool_true by (eapply Qlt_le_trans; [apply Hr|exact Hap]).
  cbn [fst snd]. change (Z.to_nat 1) with 1%nat.
  rewrite ToUint32_small by (change (2 ^ 32) with 4294967296; lia).
  do 3 f_equal. lia.
Qed.

(** X5.  With draws of the unit interval, [mutate(1, 0)] on a chromosome
    that has genes of 32 bits changes exactly one gene, by exactly one
    bit, and makes four draws. *)
Theorem mutate_one_flip (s : state) (c : loc) (g : list Z) :
  (forall i, (0 <= rand i)%Q /\ (rand i < 1)%Q) ->
  heap s !! c = Some g -> Forall uint32 g -> g <> [] ->
  exists i x b,
    g !! i = Some x /\ 0 <= b < 32 /\
    Z.lxor x (2 ^ b) <> x /\
    Chromosome_mutate rand c (Some 1%Q) (Some 0%Q) s
    = Ok (c, State (<[c := <[i := Z.lxor x (2 ^ b)]> g]> (heap s))
                   (drawn s + 4)).
Proof.
  intros Hr Hc Hu Hne.
  destruct (flip_drawn g (rand (S (drawn s))) (rand (S (S (drawn s)))) Hu Hne
              (proj1 (Hr _)) (proj2 (Hr _)) (proj1 (Hr _)) (proj2 (Hr _)))
    as (i & x & Hx & _ & Hb & Hflip).
  exists i, x, (JS.floor_mul (rand (S (S (drawn s)))) 32).
  split; [exact Hx|]. split; [exact Hb|].
  split; [apply lxor_single_bit_changes; lia|].
  change (Some 1%Q) with (Some (inject_Z 1)).
  rewrite (mutate_integer rand 1 c g s Hr ltac:(lia) Hc).
  change (Z.to_nat 1) with 1%nat. cbn [sure_flips]. rewrite Hflip.
  do 3 f_equal. lia.
Qed.

End MutationMore.




(** ** The constructors *)

Section ConstructMore.

Variable rand : nat -> Q.

Lemma init_loop_genes N s n :
  (n <= N)%nat ->
  exists genes',
    foldM (fun genes i =>
             r <- Math_random rand ;;
             ret (JS.ta_put genes i (JS.floor_mul r 4294967295)))
          (JS.ta_new N) (seq 0 n) s
    = Ok (genes', State (heap s) (drawn s + n)) /\
    length genes' = N /\
    forall j, genes' !! j =
      if decide (j < n)%nat
      then Some (JS.ToUint32 (JS.floor_mul (rand (drawn s + j)) 4294967295))
      else JS.ta_new N !! j.
Proof.
  intros Hn. induction n as [|n IH].
  - exists (JS.ta_new N). cbn [seq foldM]. unfold ret. rewrite Nat.add_0_r.
    destruct s. split; [reflexivity|].
    split; [apply length_replicate|]. intros j. case_decide; [lia|reflexivity].
  - destruct IH as (g & Hrun & Hlen & Hget); [lia|].
    rewrite seq_S, (foldM_snoc _ _ _ _ _ _ _ Hrun). cbn [Nat.add].
    eexists. split; [|split].
    + unfold bind, Math_random, ret. cbn [heap drawn]. do 3 f_equal. lia.
    + rewrite ta_put_length. exact Hlen.
    + intros j. cbn [drawn]. rewrite ta_put_lookup, Hlen, Hget.
      repeat case_decide; try reflexivity; try lia.
      destruct H as [-> _]. reflexivity.
Qed.

Lemma Chromosome_new_genes len s :
  0 <= len ->
  Chromosome_new rand len s
  = Ok (length (heap s),
        State (heap s ++ [fresh_genes rand (drawn s) (Z.to_nat len)])
              (drawn s + Z.to_nat len)).
Proof.
  intros Hlen. unfold Chromosome_new.
  destruct (Z.ltb_spec len 0) as [?|_]; [lia|].
  destruct (Z.ltb_spec 0 len) as [Hpos|Hzero].
  - destruct (init_loop_genes (Z.to_nat len) s (Z.to_nat len) ltac:(lia))
      as (g & Hrun & Hl & Hget).
    assert (Hg : g = fresh_genes rand (drawn s) (Z.to_nat len)).
    { apply list_eq. intros j. rewrite Hget. unfold fresh_genes.
      rewrite list_lookup_fmap.
      destruct (decide (j < Z.to_nat len)%nat) as [Hj|Hj].
      - rewrite lookup_seq_lt by exact Hj. reflexivity.
      - rewrite lookup_seq_ge by lia. apply lookup_ge_None_2.
        unfold JS.ta_new. rewrite length_replicate. lia. }
    subst g. step Hrun. reflexivity.
  - assert (len = 0) as -> by lia.
    cbn. unfold bind, ret, alloc. cbn. rewrite Nat.add_0_r. reflexivity.
Qed.

Lemma fresh_genes_length k n : length (fresh_genes rand k n) = n.
Proof. unfold fresh_genes. rewrite length_fmap. apply length_seq. Qed.

Lemma fresh_genes_range k n :
  (forall i, (0 <= rand i)%Q /\ (rand i < 1)%Q) ->
  Forall (fun x => 0 <= x <= 4294967294) (fresh_genes rand k n).
Proof.
  intros Hr. unfold fresh_genes. apply Forall_fmap, Forall_forall.
  intros i _. unfold compose.
  pose proof (floor_mul_range (rand (k + i)) 4294967295
                (proj1 (Hr _)) (proj2 (Hr _)) ltac:(lia)) as Hx.
  rewrite ToUint32_small by (change (2 ^ 32) with 4294967296; lia). lia.
Qed.


Lemma new_all_spec lengths : forall s,
  Forall (fun len => 0 <= len) lengths ->
  exists gs,
    forM (Chromosome_new rand) lengths s
    = Ok (seq (length (heap s)) (length lengths),
          State (heap s ++ gs) (drawn s + Z.to_nat (foldr Z.add 0 lengths))) /\
    Forall2 (fun g len => Z.of_nat (length g) = len) gs lengths.
Proof.
  induction lengths as [|len lengths IH]; intros s Hpos.
  - exists []. cbn [forM length seq foldr]. unfold ret.
    rewrite app_nil_r, Nat.add_0_r. destruct s. split; [reflexivity|constructor].
  - apply Forall_cons in Hpos. destruct Hpos as [Hlen Hpos].
    destruct (IH (State (heap s ++ [fresh_genes rand (drawn s) (Z.to_nat len)])
                        (drawn s + Z.to_nat len)) Hpos) as (gs & Hrest & Hall).
    exists (fresh_genes rand (drawn s) (Z.to_nat len) :: gs). cbn [forM].
    step (Chromosome_new_genes len s Hlen). step Hrest.
    cbn [heap drawn length seq foldr]. unfold ret. split.
    + rewrite length_app, <- app_assoc. cbn [length app].
      replace (length (heap s) + 1)%nat with (S (length (heap s))) by lia.
      assert (Htot : 0 <= foldr Z.add 0 lengths).
      { clear - Hpos. induction Hpos; cbn [foldr]; lia. }
      do 3 f_equal. lia.
    + constructor; [|exact Hall]. rewrite fresh_genes_length. lia.
Qed.

Lemma new_all_negative lengths : forall s,
  Exists (fun len => len < 0) lengths ->
  forM (Chromosome_new rand) lengths s = Throw RangeError.
Proof.
  induction lengths as [|len lengths IH]; intros s Hneg.
  - inversion Hneg.
  - cbn [forM]. destruct (Z.lt_ge_cases len 0) as [Hlen|Hlen].
    + unfold bind. rewrite Chromosome_new_negative by exact Hlen. reflexivity.
    + apply Exists_cons in Hneg. destruct Hneg as [?|Hneg]; [lia|].
      step (Chromosome_new_genes len s Hlen).
      unfold bind. rewrite IH by exact Hneg. reflexivity.
Qed.

End ConstructMore.

Lemma sum_fmap_Some lengths : foldr Z.add 0 (default 0 <$> (Some <$> lengths)) = foldr Z.add 0 lengths.
Proof.
  induction lengths as [|x l IH]; cbn [fmap list_fmap foldr]; [reflexivity|].
  cbn [fmap list_fmap] in IH. rewrite IH. reflexivity.
Qed.

Lemma numGenes_loop s cs : forall sh acc,
  length sh = length cs ->
  (forall i c, cs !! i = Some c ->
     exists genes, heap s !! c = Some genes /\
                   sh !! i = Some (Some (Z.of_nat (length genes)))) ->
  foldM (fun sum c => n <- Chromosome_length c ;; ret (sum + Z.of_nat n))
        acc cs s
  = Ok (acc + foldr Z.add 0 (default 0 <$> sh), s).
Proof.
  induction cs as [|c cs IH]; intros sh acc Hlen Hget.
  - destruct sh; [|discriminate]. cbn. unfold ret. do 2 f_equal. lia.
  - destruct sh as [|x sh]; [discriminate|].
    destruct (Hget 0%nat c eq_refl) as (genes & Hg & Hx).
    cbn in Hx. injection Hx as ->.
    cbn [foldM].
    assert (Hbody :
      (n <- Chromosome_length c ;; ret (acc + Z.of_nat n)) s
      = Ok (acc + Z.of_nat (length genes), s)).
    { step (Chromosome_length_Ok _ _ _ Hg). reflexivity. }
    step Hbody. rewrite (IH sh).
    + cbn [fmap list_fmap foldr from_option id]. do 2 f_equal. lia.
    + cbn [length] in Hlen. lia.
    + intros i c' Hc'. exact (Hget (S i) c' Hc').
Qed.

Section ExtraConstruct.

Variable rand : nat -> Q.

(** X7.  [new Chromosome(len)] for an integer [len] at least 0, with
    draws of the unit interval, allocates one object of [len] genes and
    makes [len] draws; every gene lies between 0 and 4294967294. *)
Theorem Chromosome_new_genes_drawn (s : state) (len : Z) :
  (forall i, (0 <= rand i)%Q /\ (rand i < 1)%Q) -> 0 <= len ->
  exists genes,
    Chromosome_new rand len s
    = Ok (length (heap s),
          State (heap s ++ [genes]) (drawn s + Z.to_nat len)) /\
    Z.of_nat (length genes) = len /\
    Forall (fun x => 0 <= x <= 4294967294) genes.
Proof.
  intros Hr Hlen. exists (fresh_genes rand (drawn s) (Z.to_nat len)).
  split; [apply Chromosome_new_genes, Hlen|].
  rewrite fresh_genes_length. split; [lia|].
  apply fresh_genes_range, Hr.
Qed.

(** X8.  [new Genome(lengths)], the lengths being integers, throws a
    RangeError when one of them is negative. *)
Theorem Genome_new_negative (s : state) (lengths : list Z) :
  Exists (fun len => len < 0) lengths ->
  Genome_new rand lengths s = Throw RangeError.
Proof.
  intros Hneg. unfold Genome_new, bind.
  rewrite new_all_negative by exact Hneg. reflexivity.
Qed.

(** X9.  [new Genome(lengths)] for lengths that are not negative makes one
    new chromosome per length, at the next free locations in order;
    [shape] is the list of the lengths and holds the length of each
    chromosome; the objects of the heap stay as they were; the number of
    draws is the sum of the lengths. *)
Theorem Genome_new_fresh (s : state) (lengths : list Z) :
  Forall (fun len => 0 <= len) lengths ->
  exists g s',
    Genome_new rand lengths s = Ok (g, s') /\
    chromosomes g = seq (length (heap s)) (length lengths) /\
    shape g = Some <$> lengths /\
    shape_ok (heap s') g /\
    heap s `prefix_of` heap s' /\
    Z.of_nat (drawn s') = Z.of_nat (drawn s) + foldr Z.add 0 lengths.
Proof.
  intros Hpos.
  destruct (new_all_spec rand lengths s Hpos) as (gs & Hrun & Hall).
  eexists _, _. unfold Genome_new. step Hrun.
  split; [reflexivity|]. cbn [chromosomes shape heap drawn].
  split; [reflexivity|]. split; [reflexivity|]. split; [|split].
  - split; cbn [chromosomes shape].
    + rewrite length_fmap, length_seq. reflexivity.
    + intros i c Hc. apply lookup_seq in Hc. destruct Hc as [-> Hi].
      destruct (lookup_lt_is_Some_2 lengths i Hi) as [len Hlen].
      destruct (Forall2_lookup_r _ _ _ _ _ Hall Hlen) as (g & Hg & Hgl).
      exists g. split.
      * rewrite lookup_app_r by lia.
        replace (length (heap s) + i - length (heap s))%nat with i by lia.
        exact Hg.
      * rewrite list_lookup_fmap, Hlen, Hgl. reflexivity.
  - apply prefix_app_r. reflexivity.
  - assert (Htot : 0 <= foldr Z.add 0 lengths).
    { clear - Hpos. induction Hpos; cbn [foldr]; lia. }
    lia.
Qed.

(** X10.  For a genome whose [shape] holds the length of each chromosome,
    [numGenes] is the sum of the entries of [shape], and the state is left
    as it was. *)
Theorem Genome_numGenes_shape (s : state) (g : Genome) :
  shape_ok (heap s) g ->
  Genome_numGenes g s = Ok (foldr Z.add 0 (default 0 <$> shape g), s).
Proof.
  intros [Hlen Hget]. unfold Genome_numGenes.
  rewrite (numGenes_loop s (chromosomes g) (shape g) 0 Hlen Hget).
  reflexivity.
Qed.

(** X11.  [numGenes] of [new Genome(lengths)], for lengths that are not
    negative, is the sum of the lengths. *)
Theorem Genome_new_numGenes (s : state) (lengths : list Z) :
  Forall (fun len => 0 <= len) lengths ->
  exists g s',
    Genome_new rand lengths s = Ok (g, s') /\
    Genome_numGenes g s' = Ok (foldr Z.add 0 lengths, s').
Proof.
  intros Hpos.
  destruct (Genome_new_shape rand lengths s Hpos)
    as (g & s' & Hrun & _ & Hshape & [Hlen Hget]).
  exists g, s'. split; [exact Hrun|]. unfold Genome_numGenes.
  rewrite (numGenes_loop s' (chromosomes g) (shape g) 0 Hlen Hget).
  rewrite Hshape, sum_fmap_Some. reflexivity.
Qed.

End ExtraConstruct.

(** ** Chromosome.copy and Genome.copy *)

Lemma lengths_all_spec s cs gs :
  Forall2 (fun c g => heap s !! c = Some g) cs gs ->
  forM (fun c => n <- Chromosome_length c ;; ret (Some (Z.of_nat n))) cs s
  = Ok ((fun g => Some (Z.of_nat (length g))) <$> gs, s).
Proof.
  induction 1 as [|c g cs gs Hg _ IH]; [reflexivity|].
  cbn [forM].
  assert (Hbody :
    (n <- Chromosome_length c ;; ret (Some (Z.of_nat n))) s
    = Ok (Some (Z.of_nat (length g)), s)).
  { step (Chromosome_length_Ok _ _ _ Hg). reflexivity. }
  step Hbody. step IH. reflexivity.
Qed.

Section CopyMore.

Variable rand : nat -> Q.

Lemma copy_all_spec h0 cs : forall s,
  h0 `prefix_of` heap s ->
  Forall (fun c => is_Some (h0 !! c)) cs ->
  exists gs,
    forM (Chromosome_copy rand) cs s
    = Ok (seq (length (heap s)) (length cs),
          State (heap s ++ gs) (drawn s)) /\
    Forall2 (fun c g => h0 !! c = Some g) cs gs.
Proof.
  induction cs as [|c cs IH]; intros s Hpre Hv.
  - exists []. cbn [forM length seq]. unfold ret. rewrite app_nil_r.
    destruct s. split; [reflexivity|constructor].
  - apply Forall_cons in Hv. destruct Hv as [[g Hg] Hv].
    pose proof (prefix_lookup_Some _ _ _ _ Hg Hpre) as Hg'.
    destruct (IH (State (heap s ++ [g]) (drawn s))) as (gs & Hrest & Hall);
      [cbn [heap]; apply prefix_app_r, Hpre|exact Hv|].
    exists (g :: gs). cbn [forM].
    step (Chromosome_copy_Ok rand c g s Hg'). step Hrest.
    cbn [heap drawn length seq]. unfold ret. split.
    + rewrite length_app, <- app_assoc. cbn [length app].
      replace (length (heap s) + 1)%nat with (S (length (heap s))) by lia.
      reflexivity.
    + constructor; assumption.
Qed.

(** The whole of [Genome.copy]. *)
Lemma Genome_copy_spec this s :
  valid (heap s) this ->
  exists gs,
    Genome_copy rand this s
    = Ok (MkGenome (seq (length (heap s)) (length (chromosomes this)))
                   ((fun g => Some (Z.of_nat (length g))) <$> gs),
          State (heap s ++ gs) (drawn s)) /\
    Forall2 (fun c g => heap s !! c = Some g) (chromosomes this) gs.
Proof.
  intros Hv.
  destruct (copy_all_spec (heap s) (chromosomes this) s) as (gs & Hcopy & Hall);
    [reflexivity|exact Hv|].
  exists gs. split; [|exact Hall].
  unfold Genome_copy, Genome_new. cbn [forM fmap list_fmap].
  unfold bind at 1. unfold bind at 1. unfold ret at 1. unfold ret at 1.
  step Hcopy.
  assert (Hall' : Forall2 (fun c g =>
            heap (State (heap s ++ gs) (drawn s)) !! c = Some g)
            (chromosomes this) gs).
  { cbn [heap]. eapply Forall2_impl; [exact Hall|].
    intros c g Hg. apply lookup_app_l_Some, Hg. }
  step (lengths_all_spec _ _ _ Hall'). reflexivity.
Qed.


(** X13.  [copy] of a genome of the heap makes no draw and leaves the
    objects of the heap as they were; the copy has as many chromosomes,
    each one a new object with the genes of the chromosome of the same
    index, and its [shape] holds their lengths. *)
Theorem Genome_copy_same_genes (s : state) (this : Genome) :
  valid (heap s) this ->
  exists g s',
    Genome_copy rand this s = Ok (g, s') /\
    drawn s' = drawn s /\
    heap s `prefix_of` heap s' /\
    shape_ok (heap s') g /\
    length (chromosomes g) = length (chromosomes this) /\
    forall i c, chromosomes this !! i = Some c ->
      exists c', chromosomes g !! i = Some c' /\
                 heap s !! c' = None /\
                 heap s' !! c' = heap s !! c.
Proof.
  intros Hv. destruct (Genome_copy_spec this s Hv) as (gs & Hrun & Hall).
  pose proof (Forall2_length _ _ _ Hall) as Hlen.
  eexists _, _. split; [exact Hrun|]. cbn [heap drawn chromosomes shape].
  split; [reflexivity|]. split; [apply prefix_app_r; reflexivity|].
  assert (Hnew : forall i x, gs !! i = Some x ->
            (heap s ++ gs) !! (length (heap s) + i)%nat = Some x).
  { intros i x Hx. rewrite lookup_app_r by lia.
    replace (length (heap s) + i - length (heap s))%nat with i by lia.
    exact Hx. }
  split; [|split].
  - split; cbn [chromosomes shape].
    + rewrite length_fmap, length_seq. lia.
    + intros i c' Hc'. apply lookup_seq in Hc'. destruct Hc' as [-> Hi].
      destruct (lookup_lt_is_Some_2 gs i ltac:(lia)) as [x Hx].
      exists x. split; [apply Hnew, Hx|].
      rewrite list_lookup_fmap, Hx. reflexivity.
  - apply length_seq.
  - intros i c Hc.
    destruct (Forall2_lookup_l _ _ _ _ _ Hall Hc) as (x & Hx & Hcx).
    exists (length (heap s) + i)%nat.
    split; [apply lookup_seq; split; [reflexivity|eapply lookup_lt_Some, Hc]|].
    split; [apply lookup_ge_None_2; lia|].
    rewrite Hcx. apply Hnew, Hx.
Qed.

End CopyMore.

(** ** diversityWith, symmetry *)

Lemma bitxor_comm x y : JS.bitxor x y = JS.bitxor y x.
Proof. unfold JS.bitxor. apply Z.lxor_comm. Qed.

Lemma extend_same_length longer shorter :
  length shorter = length longer -> extend_shorter longer shorter = Some shorter.
Proof.
  intros Hlen.
  destruct (extend_shorter_Some longer shorter ltac:(lia)) as (ext & -> & _ & Hget).
  f_equal. apply list_eq. intros j. rewrite Hget.
  destruct (decide (j < length shorter)%nat); [reflexivity|].
  rewrite decide_False by lia. symmetry. apply lookup_ge_None_2. lia.
Qed.

Lemma xor_arrays_comm a b : length a = length b -> xor_arrays a b = xor_arrays b a.
Proof.
  intros Hlen. apply list_eq. intros j.
  destruct (decide (j < length a)%nat) as [Hj|Hj].
  - rewrite !xor_arrays_lookup by lia. rewrite bitxor_comm. reflexivity.
  - rewrite !lookup_ge_None_2; [reflexivity| |]; rewrite xor_arrays_length; lia.
Qed.

Lemma genes_diversity_sym a b : genes_diversity a b = genes_diversity b a.
Proof.
  unfold genes_diversity, pick_longer.
  destruct (Nat.ltb_spec (length b) (length a)) as [H1|H1];
    destruct (Nat.ltb_spec (length a) (length b)) as [H2|H2];
    try reflexivity; try lia.
  assert (Hlen : length a = length b) by lia.
  rewrite (extend_same_length b a Hlen), (extend_same_length a b (eq_sym Hlen)).
  rewrite (xor_arrays_comm a b Hlen), Hlen. reflexivity.
Qed.

Lemma foldM_ext_in {A B} (f g : B -> A -> M B) l : forall b s,
  (forall x, x ∈ l -> forall b s, f b x s = g b x s) ->
  foldM f b l s = foldM g b l s.
Proof.
  induction l as [|x l IH]; intros b s H; [reflexivity|].
  cbn [foldM]. unfold bind. rewrite (H x) by (left).
  destruct (g b x s) as [[b' s']|e]; [|reflexivity].
  apply IH. intros y Hy. apply H. right. exact Hy.
Qed.

Lemma Chromosome_diversityWith_comm a b s :
  Chromosome_diversityWith a b s = Chromosome_diversityWith b a s.
Proof.
  unfold Chromosome_diversityWith, bind, get_genes.
  destruct (heap s !! a) as [ga|] eqn:Ha; destruct (heap s !! b) as [gb|] eqn:Hb;
    rewrite ?Ha, ?Hb; try reflexivity.
  rewrite genes_diversity_sym. reflexivity.
Qed.

Lemma add_diversity_swap l1 l2 v i s :
  add_diversity l1 l2 v i s = add_diversity l2 l1 v i s.
Proof.
  unfold add_diversity, nth_obj, bind, lift_option.
  destruct (l1 !! i) as [a|]; destruct (l2 !! i) as [b|];
    unfold ret, throw; try reflexivity.
  rewrite Chromosome_diversityWith_comm. reflexivity.
Qed.

(** X14.  [a.diversityWith(b)] and [b.diversityWith(a)] give the same
    result, a thrown error included, whatever the lengths and whatever the
    state. *)
Theorem Chromosome_diversityWith_sym (s : state) (a b : loc) :
  Chromosome_diversityWith a b s = Chromosome_diversityWith b a s.
Proof.
  unfold Chromosome_diversityWith, bind, get_genes.
  destruct (heap s !! a) as [ga|] eqn:Ha; destruct (heap s !! b) as [gb|] eqn:Hb;
    rewrite ?Ha, ?Hb; try reflexivity.
  rewrite genes_diversity_sym. reflexivity.
Qed.

(** X15.  [g1.diversityWith(g2)] and [g2.diversityWith(g1)] are the same
    computation. *)
Theorem Genome_diversityWith_sym (s : state) (g1 g2 : Genome) :
  Genome_diversityWith g1 g2 s = Genome_diversityWith g2 g1 s.
Proof.
  unfold Genome_diversityWith.
  destruct (Nat.ltb_spec (length (chromosomes g1)) (length (chromosomes g2)))
    as [H1|H1];
    destruct (Nat.ltb_spec (length (chromosomes g2)) (length (chromosomes g1)))
      as [H2|H2]; try reflexivity; try lia.
  assert (Hlen : length (chromosomes g2) = length (chromosomes g1)) by lia.
  rewrite Hlen. unfold bind.
  rewrite (foldM_ext_in (add_diversity (chromosomes g2) (chromosomes g1))
             (add_diversity (chromosomes g1) (chromosomes g2))).
  - reflexivity.
  - intros x _ v s'. apply add_diversity_swap.
Qed.

(** ** Chromosome.diversityWith, bounds *)

(** Beyond the shorter array the XOR is all ones. *)
Lemma xor_tail longer shorter ext j :
  extend_shorter longer shorter = Some ext ->
  (length shorter <= j < length longer)%nat ->
  xor_arrays longer ext !! j = Some 4294967295.
Proof.
  intros Hext Hj.
  destruct (extend_shorter_Some longer shorter ltac:(lia)) as (ext' & Hext' & _ & Hget).
  rewrite Hext in Hext'. injection Hext' as <-.
  rewrite xor_arrays_lookup by lia. f_equal.
  unfold JS.ta_read at 2. rewrite Hget.
  rewrite decide_False by lia. rewrite decide_True by lia.
  cbn [default from_option id]. apply xor_with_bitnot.
Qed.

Lemma bit_total_tail l k :
  (k <= length l)%nat ->
  (forall j, (k <= j < length l)%nat -> l !! j = Some 4294967295) ->
  bit_total l = bit_total (take k l) + 32 * Z.of_nat (length l - k).
Proof.
  intros Hk Hones. rewrite <- (take_drop k l) at 1. rewrite bit_total_app.
  f_equal. rewrite <- bit_total_ones. f_equal.
  apply list_eq. intros j. rewrite lookup_drop.
  destruct (decide (j < length l - k)%nat) as [Hj|Hj].
  - rewrite lookup_replicate_2 by exact Hj. apply Hones. lia.
  - rewrite !lookup_ge_None_2; [reflexivity|rewrite length_replicate; lia|lia].
Qed.

(** The count of [diversityWith]: at least 32 for each gene that only the
    longer chromosome has, at most 32 for each gene of the longer. *)
Lemma genes_diversity_count ga gb :
  exists ones,
    genes_diversity ga gb
      = Some (ratio ones (Nat.max (length ga) (length gb))) /\
    32 * Z.of_nat (Nat.max (length ga) (length gb)
                   - Nat.min (length ga) (length gb)) <= ones
    <= 32 * Z.of_nat (Nat.max (length ga) (length gb)).
Proof.
  destruct (genes_diversity_unfold ga gb) as (ext & Hext & Hdiv).
  destruct (pick_longer_le ga gb) as [Hle Hmax].
  assert (Hmin : length (pick_longer ga gb).2
                 = Nat.min (length ga) (length gb)).
  { unfold pick_longer. destruct (Nat.ltb_spec (length gb) (length ga));
      cbn [snd]; lia. }
  eexists. split; [rewrite Hdiv, Hmax; reflexivity|].
  pose proof (countOnes_bounds (xor_arrays (pick_longer ga gb).1 ext)) as Hb.
  rewrite xor_arrays_length, Hmax in Hb. split; [|lia].
  rewrite countOnes_exact.
  rewrite (bit_total_tail _ (length (pick_longer ga gb).2)).
  - rewrite xor_arrays_length, Hmax, Hmin.
    pose proof (bit_total_nonneg
                  (take (Nat.min (length ga) (length gb))
                     (xor_arrays (pick_longer ga gb).1 ext))). lia.
  - rewrite xor_arrays_length. exact Hle.
  - intros j Hj. rewrite xor_arrays_length in Hj.
    eapply xor_tail; eassumption.
Qed.

Lemma ratio_full n : (0 < n)%nat ->
  exists q, ratio (32 * Z.of_nat n) n = JS.Fin q /\ (q == 1)%Q.
Proof.
  intros Hn.
  assert (Hb : 0 <= 32 * Z.of_nat n <= 32 * Z.of_nat n) by lia.
  destruct (ratio_unit (32 * Z.of_nat n) n Hn Hb) as (Hq & _).
  eexists. split; [exact Hq|].
  replace (32 * Z.of_nat n) with (Z.of_nat n * 32) by lia.
  unfold Qdiv. apply Qmult_inv_r.
  intros H. unfold Qeq in H. cbn [Qnum Qden inject_Z] in H. lia.
Qed.

Lemma Chromosome_diversityWith_count a b ga gb s :
  heap s !! a = Some ga -> heap s !! b = Some gb ->
  exists ones,
    Chromosome_diversityWith a b s
      = Ok (ratio ones (Nat.max (length ga) (length gb)), s) /\
    32 * Z.of_nat (Nat.max (length ga) (length gb)
                   - Nat.min (length ga) (length gb)) <= ones
    <= 32 * Z.of_nat (Nat.max (length ga) (length gb)).
Proof.
  intros Ha Hb. destruct (genes_diversity_count ga gb) as (ones & Hdiv & Hb1).
  exists ones. split; [|exact Hb1].
  destruct (Chromosome_diversityWith_Ok _ _ _ _ s Ha Hb) as (v & Hv & Hrun).
  rewrite Hrun. congruence.
Qed.

(** X16.  Two chromosomes of different lengths have a diversity that is
    greater than 0 and at most 1: the genes that only the longer one has
    count as different, whatever they hold. *)
Theorem diversityWith_extra_genes (s : state) (a b : loc) (ga gb : list Z) :
  heap s !! a = Some ga -> heap s !! b = Some gb ->
  length ga <> length gb ->
  exists q,
    Chromosome_diversityWith a b s = Ok (JS.Fin q, s) /\
    (0 < q)%Q /\ (q <= 1)%Q.
Proof.
  intros Ha Hb Hne.
  destruct (Chromosome_diversityWith_count a b ga gb s Ha Hb)
    as (ones & Hrun & Hlow & Hhigh).
  assert (Hpos : (0 < Nat.max (length ga) (length gb))%nat) by lia.
  assert (Hones : 0 < ones) by lia.
  assert (Hb1 : 0 <= ones
                <= 32 * Z.of_nat (Nat.max (length ga) (length gb))) by lia.
  destruct (ratio_unit ones _ Hpos Hb1) as (Hq & _ & Hq1).
  eexists. split; [rewrite Hrun, Hq; reflexivity|]. split; [|exact Hq1].
  apply Qlt_shift_div_l.
  - change 0%Q with (inject_Z 0). rewrite <- Zlt_Qlt. lia.
  - rewrite Qmult_0_l. change 0%Q with (inject_Z 0). rewrite <- Zlt_Qlt.
    exact Hones.
Qed.

(** X17.  Against a chromosome without genes, a chromosome with genes has
    diversity 1. *)
Theorem diversityWith_empty_other (s : state) (a b : loc) (ga : list Z) :
  heap s !! a = Some ga -> heap s !! b = Some [] -> ga <> [] ->
  exists q, Chromosome_diversityWith a b s = Ok (JS.Fin q, s) /\ (q == 1)%Q.
Proof.
  intros Ha Hb Hne.
  destruct (Chromosome_diversityWith_count a b ga [] s Ha Hb)
    as (ones & Hrun & Hlow & Hhigh).
  cbn [length] in *. rewrite Nat.max_0_r, Nat.min_0_r, Nat.sub_0_r in *.
  assert (ones = 32 * Z.of_nat (length ga)) as -> by lia.
  destruct (ratio_full (length ga)) as (q & Hq & Hq1);
    [destruct ga; [congruence|cbn [length]; lia]|].
  exists q. rewrite Hrun, Hq. split; [reflexivity|exact Hq1].
Qed.

(** X18.  Two chromosomes of the same positive number of 32-bit genes,
    each gene of one being the complement of the gene of the other, have
    diversity 1. *)
Theorem diversityWith_complement (s : state) (a b : loc) (ga : list Z) :
  heap s !! a = Some ga ->
  heap s !! b = Some ((fun x => 4294967295 - x) <$> ga) ->
  Forall uint32 ga -> ga <> [] ->
  exists q, Chromosome_diversityWith a b s = Ok (JS.Fin q, s) /\ (q == 1)%Q.
Proof.
  intros Ha Hb Hu Hne.
  destruct (Chromosome_diversityWith_Ok _ _ _ _ s Ha Hb) as (v & Hv & Hrun).
  set (gb := (fun x => 4294967295 - x) <$> ga) in *.
  assert (Hlen : length gb = length ga) by apply length_fmap.
  assert (Hxor : xor_arrays gb ga = replicate (length gb) 4294967295).
  { apply list_eq. intros j. destruct (decide (j < length gb)%nat) as [Hj|Hj].
    - rewrite xor_arrays_lookup by exact Hj.
      rewrite lookup_replicate_2 by exact Hj. f_equal.
      destruct (lookup_lt_is_Some_2 ga j ltac:(lia)) as [x Hx].
      unfold JS.ta_read, gb. rewrite list_lookup_fmap, Hx.
      cbn [fmap option_fmap option_map default from_option id].
      rewrite bitxor_comm. apply xor_with_complement.
      exact (Forall_lookup_1 _ _ _ _ Hu Hx).
    - rewrite !lookup_ge_None_2;
        [reflexivity|rewrite length_replicate; lia|rewrite xor_arrays_length; lia]. }
  unfold genes_diversity, pick_longer in Hv.
  destruct (Nat.ltb_spec (length gb) (length ga)) as [?|_]; [lia|].
  rewrite (extend_same_length gb ga (eq_sym Hlen)) in Hv.
  rewrite Hxor, countOnes_exact, bit_total_ones in Hv. injection Hv as <-.
  destruct (ratio_full (length gb)) as (q & Hq & Hq1);
    [rewrite Hlen; destruct ga; [congruence|cbn [length]; lia]|].
  exists q. rewrite Hrun, Hq. split; [reflexivity|exact Hq1].
Qed.

(** ** Genome.diversityWith *)

Lemma Chromosome_diversityWith_unit a b ga gb s :
  heap s !! a = Some ga -> heap s !! b = Some gb -> ga <> [] ->
  exists q, Chromosome_diversityWith a b s = Ok (JS.Fin q, s) /\
            (0 <= q)%Q /\ (q <= 1)%Q.
Proof.
  intros Ha Hb Hne.
  destruct (Chromosome_diversityWith_count a b ga gb s Ha Hb)
    as (ones & Hrun & Hlow & Hhigh).
  assert (Hpos : (0 < Nat.max (length ga) (length gb))%nat)
    by (destruct ga; [congruence|cbn [length]; lia]).
  assert (Hb1 : 0 <= ones <= 32 * Z.of_nat (Nat.max (length ga) (length gb))) by lia.
  destruct (ratio_unit ones _ Hpos Hb1) as (Hq & Hq0 & Hq1).
  eexists. rewrite Hrun, Hq. split; [reflexivity|]. split; assumption.
Qed.

(** The loop of [Genome.diversityWith] on chromosomes with genes: the sum
    of [n] rationals of the unit interval. *)
Lemma diversity_loop_unit shorter longer s n :
  Forall (fun c => exists genes, heap s !! c = Some genes /\ genes <> []) shorter ->
  Forall (fun c => is_Some (heap s !! c)) longer ->
  (n <= length shorter)%nat -> (length shorter <= length longer)%nat ->
  exists q,
    foldM (add_diversity shorter longer) (JS.Fin 0) (seq 0 n) s
      = Ok (JS.Fin q, s) /\
    (0 <= q)%Q /\ (q <= inject_Z (Z.of_nat n))%Q.
Proof.
  intros Hs Hl Hn Hle. induction n as [|n IH].
  - exists 0%Q. split; [reflexivity|]. split; apply Qle_refl.
  - destruct IH as (q & IH & Hq0 & Hqn); [lia|].
    rewrite seq_S. rewrite (foldM_snoc _ _ _ _ _ _ _ IH). cbn [Nat.add].
    destruct (lookup_lt_is_Some_2 shorter n ltac:(lia)) as [a Ha].
    destruct (lookup_lt_is_Some_2 longer n ltac:(lia)) as [b Hb].
    destruct (Forall_lookup_1 _ _ _ _ Hs Ha) as (ga & Hga & Hne).
    destruct (Forall_lookup_1 _ _ _ _ Hl Hb) as [gb Hgb].
    destruct (Chromosome_diversityWith_unit _ _ _ _ _ Hga Hgb Hne)
      as (d & Hd & Hd0 & Hd1).
    unfold add_diversity.
    step (nth_obj_Ok _ _ _ _ Ha). step (nth_obj_Ok _ _ _ _ Hb). step Hd.
    exists (q + d)%Q. split; [reflexivity|]. split.
    + change 0%Q with (0 + 0)%Q. apply Qplus_le_compat; assumption.
    + rewrite Nat2Z.inj_succ. unfold Z.succ. rewrite inject_Z_plus.
      apply Qplus_le_compat; assumption.
Qed.

Lemma average_unit q n :
  (0 < n)%nat -> (0 <= q)%Q -> (q <= inject_Z (Z.of_nat n))%Q ->
  JS.div (JS.Fin q) (JS.Fin (inject_Z (Z.of_nat n)))
    = JS.Fin (q / inject_Z (Z.of_nat n)) /\
  (0 <= q / inject_Z (Z.of_nat n))%Q /\ (q / inject_Z (Z.of_nat n) <= 1)%Q.
Proof.
  intros Hn Hq0 Hqn.
  assert (Hpos : (0 < inject_Z (Z.of_nat n))%Q).
  { change 0%Q with (inject_Z 0). rewrite <- Zlt_Qlt. lia. }
  unfold JS.div.
  destruct (Qeq_bool (inject_Z (Z.of_nat n)) 0) eqn:E.
  - apply Qeq_bool_eq in E. rewrite E in Hpos. exfalso.
    revert Hpos. apply Qlt_irrefl.
  - split; [reflexivity|]. split.
    + apply Qle_shift_div_l; [exact Hpos|]. rewrite Qmult_0_l. exact Hq0.
    + apply Qle_shift_div_r; [exact Hpos|]. rewrite Qmult_1_l. exact Hqn.
Qed.

Lemma populated_valid h g : populated h g -> valid h g.
Proof.
  unfold populated, valid. intros H. eapply Forall_impl; [exact H|].
  intros c (x & Hx & _). eauto.
Qed.

(** X19.  The diversity of two genomes that each have at least one
    chromosome, every chromosome having at least one gene, is a rational
    of the interval [0, 1], and the state is left as it was. *)
Theorem Genome_diversityWith_unit_interval (s : state) (g1 g2 : Genome) :
  populated (heap s) g1 -> populated (heap s) g2 ->
  chromosomes g1 <> [] -> chromosomes g2 <> [] ->
  exists q, Genome_diversityWith g1 g2 s = Ok (JS.Fin q, s) /\
            (0 <= q)%Q /\ (q <= 1)%Q.
Proof.
  intros H1 H2 Hn1 Hn2. unfold Genome_diversityWith.
  assert (Hl1 : (0 < length (chromosomes g1))%nat)
    by (destruct (chromosomes g1); [congruence|cbn [length]; lia]).
  assert (Hl2 : (0 < length (chromosomes g2))%nat)
    by (destruct (chromosomes g2); [congruence|cbn [length]; lia]).
  destruct (Nat.ltb_spec (length (chromosomes g1)) (length (chromosomes g2))).
  - destruct (diversity_loop_unit (chromosomes g1) (chromosomes g2) s
                (length (chromosomes g1)) H1 (populated_valid _ _ H2))
      as (q & Hrun & Hq0 & Hqn); [lia|lia|].
    step Hrun. destruct (average_unit q _ Hl1 Hq0 Hqn) as (Hd & Hd0 & Hd1).
    unfold ret. rewrite Hd. eauto.
  - destruct (diversity_loop_unit (chromosomes g2) (chromosomes g1) s
                (length (chromosomes g2)) H2 (populated_valid _ _ H1))
      as (q & Hrun & Hq0 & Hqn); [lia|lia|].
    step Hrun. destruct (average_unit q _ Hl2 Hq0 Hqn) as (Hd & Hd0 & Hd1).
    unfold ret. rewrite Hd. eauto.
Qed.

(** The loop on pairs of chromosomes with the same genes. *)
Lemma diversity_loop_same shorter longer s n :
  (n <= length shorter)%nat -> (length shorter <= length longer)%nat ->
  (forall i a b, shorter !! i = Some a -> longer !! i = Some b ->
     exists genes, heap s !! a = Some genes /\ heap s !! b = Some genes /\
                   genes <> []) ->
  exists q,
    foldM (add_diversity shorter longer) (JS.Fin 0) (seq 0 n) s
      = Ok (JS.Fin q, s) /\ (q == 0)%Q.
Proof.
  intros Hn Hle Hsame. induction n as [|n IH].
  - exists 0%Q. split; reflexivity.
  - destruct IH as (q & IH & Hq); [lia|].
    rewrite seq_S. rewrite (foldM_snoc _ _ _ _ _ _ _ IH). cbn [Nat.add].
    destruct (lookup_lt_is_Some_2 shorter n ltac:(lia)) as [a Ha].
    destruct (lookup_lt_is_Some_2 longer n ltac:(lia)) as [b Hb].
    destruct (Hsame n a b Ha Hb) as (genes & Hga & Hgb & Hne).
    destruct (Chromosome_diversityWith_Ok _ _ _ _ s Hga Hgb) as (v & Hv & Hd).
    rewrite genes_diversity_self in Hv. injection Hv as <-.
    assert (Hpos : (0 < length genes)%nat)
      by (destruct genes; [congruence|cbn [length]; lia]).
    assert (Hb0 : 0 <= 0 <= 32 * Z.of_nat (length genes)) by lia.
    destruct (ratio_unit 0 (length genes) Hpos Hb0) as (Hr & _).
    rewrite Hr in Hd.
    unfold add_diversity.
    step (nth_obj_Ok _ _ _ _ Ha). step (nth_obj_Ok _ _ _ _ Hb). step Hd.
    eexists. split; [reflexivity|].
    rewrite Hq. unfold Qdiv. rewrite Qmult_0_l. reflexivity.
Qed.

Section CopyDiversity.

Variable rand : nat -> Q.

(** X20.  A genome with at least one chromosome, every chromosome having
    at least one gene, has diversity 0 with its copy. *)
Theorem Genome_copy_diversity_zero (s : state) (this : Genome) :
  populated (heap s) this -> chromosomes this <> [] ->
  exists g s' q,
    Genome_copy rand this s = Ok (g, s') /\
    Genome_diversityWith this g s' = Ok (JS.Fin q, s') /\
    (q == 0)%Q.
Proof.
  intros Hp Hne.
  destruct (Genome_copy_spec rand this s (populated_valid _ _ Hp))
    as (gs & Hrun & Hall).
  pose proof (Forall2_length _ _ _ Hall) as Hlen.
  eexists _, _. 
  assert (Hpos : (0 < length (chromosomes this))%nat)
    by (destruct (chromosomes this); [congruence|cbn [length]; lia]).
  destruct (diversity_loop_same
              (seq (length (heap s)) (length (chromosomes this)))
              (chromosomes this)
              (State (heap s ++ gs) (drawn s))
              (length (chromosomes this))) as (q & Hloop & Hq).
  { rewrite length_seq. lia. }
  { rewrite length_seq. lia. }
  { intros i a b Ha Hb. apply lookup_seq in Ha. destruct Ha as [-> Hi].
    destruct (Forall2_lookup_l _ _ _ _ _ Hall Hb) as (x & Hx & Hbx).
    destruct (Forall_lookup_1 _ _ _ _ Hp Hb) as (x' & Hx' & Hxne).
    assert (x' = x) as -> by congruence.
    exists x. cbn [heap]. split; [|split; [apply lookup_app_l_Some, Hbx|exact Hxne]].
    rewrite lookup_app_r by lia.
    replace (length (heap s) + i - length (heap s))%nat with i by lia.
    exact Hx. }
  exists (q / inject_Z (Z.of_nat (length (chromosomes this))))%Q.
  split; [exact Hrun|]. split.
  - unfold Genome_diversityWith. cbn [chromosomes].
    rewrite length_seq.
    destruct (Nat.ltb_spec (length (chromosomes this)) (length (chromosomes this)))
      as [?|_]; [lia|].
    rewrite length_seq. step Hloop. unfold ret. do 2 f_equal.
    unfold JS.div.
    destruct (Qeq_bool (inject_Z (Z.of_nat (length (chromosomes this)))) 0) eqn:E;
      [|reflexivity].
    apply Qeq_bool_eq in E. unfold Qeq in E. cbn [Qnum Qden inject_Z] in E. lia.
  - rewrite Hq. unfold Qdiv. apply Qmult_0_l.
Qed.

End CopyDiversity.

(** X21.  The chromosomes that only the genome with more chromosomes has
    do not count: the diversity of two genomes is that of the genomes cut
    to the smaller number of chromosomes. *)
Theorem Genome_diversityWith_common (s : state) (g1 g2 : Genome) :
  Genome_diversityWith g1 g2 s =
  Genome_diversityWith
    (MkGenome (take (Nat.min (length (chromosomes g1))
                             (length (chromosomes g2))) (chromosomes g1))
              (shape g1))
    (MkGenome (take (Nat.min (length (chromosomes g1))
                             (length (chromosomes g2))) (chromosomes g2))
              (shape g2)) s.
Proof.
  unfold Genome_diversityWith. cbn [chromosomes].
  rewrite !length_take.
  destruct (Nat.ltb_spec (length (chromosomes g1)) (length (chromosomes g2)))
    as [H|H].
  - replace (Nat.min (length (chromosomes g1)) (length (chromosomes g2)))
      with (length (chromosomes g1)) by lia.
    rewrite take_ge by lia.
    destruct (Nat.ltb_spec
                (Nat.min (length (chromosomes g1)) (length (chromosomes g1)))
                (Nat.min (length (chromosomes g1)) (length (chromosomes g2))))
      as [?|_]; [lia|].
    rewrite length_take.
    replace (Nat.min (length (chromosomes g1)) (length (chromosomes g2)))
      with (length (chromosomes g1)) by lia.
    unfold bind.
    rewrite (foldM_ext_in (add_diversity (chromosomes g1) (chromosomes g2))
               (add_diversity (take (length (chromosomes g1)) (chromosomes g2))
                              (chromosomes g1))); [reflexivity|].
    intros i Hi v s'. apply elem_of_seq in Hi.
    rewrite add_diversity_swap. unfold add_diversity, nth_obj.
    rewrite lookup_take_lt by lia. reflexivity.
  - replace (Nat.min (length (chromosomes g1)) (length (chromosomes g2)))
      with (length (chromosomes g2)) by lia.
    rewrite (take_ge (chromosomes g2)) by lia.
    destruct (Nat.ltb_spec
                (Nat.min (length (chromosomes g2)) (length (chromosomes g1)))
                (Nat.min (length (chromosomes g2)) (length (chromosomes g2))))
      as [?|_]; [lia|].
    unfold bind.
    rewrite (foldM_ext_in (add_diversity (chromosomes g2) (chromosomes g1))
               (add_diversity (chromosomes g2)
                  (take (length (chromosomes g2)) (chromosomes g1))));
      [reflexivity|].
    intros i Hi v s'. apply elem_of_seq in Hi.
    unfold add_diversity, nth_obj.
    rewrite lookup_take_lt by lia. reflexivity.
Qed.

(** ** spawnWith, further *)

Section SpawnMore.

Variable rand : nat -> Q.

Lemma inherit_same k g : inherit rand k g g = g.
Proof.
  apply list_eq. intros i. rewrite inherit_lookup.
  case_decide; [|reflexivity]. destruct (JS.Qlt_bool _ _); reflexivity.
Qed.

Lemma crossed_empty k dom : crossed rand k dom [] = (dom, k).
Proof.
  unfold crossed.
  destruct (cross_loop_spec rand [] dom k (length dom)) as (Hk & Hlen & Hget).
  destruct (foldl _ _ _) as [c k']. cbn [fst snd length] in *.
  f_equal; [|lia].
  apply list_eq. intros j. rewrite Hget. case_decide; [lia|reflexivity].
Qed.

Lemma crossed_uint32 k dom nondom :
  Forall uint32 dom -> Forall uint32 (crossed rand k dom nondom).1.
Proof.
  intros Hu. apply Forall_lookup_2. intros j x. unfold crossed.
  destruct (cross_loop_spec rand nondom dom k (length dom)) as (_ & _ & Hget).
  rewrite Hget. case_decide.
  - destruct (JS.Qlt_bool _ _).
    + intros [= <-]. apply ToUint32_range.
    + apply (Forall_lookup_1 _ _ _ _ Hu).
  - apply (Forall_lookup_1 _ _ _ _ Hu).
Qed.

Lemma offspring_length mp ap ga gb k :
  (Nat.max (length ga) (length gb)
   <= length (offspring rand mp ap ga gb k).1
   <= S (Nat.max (length ga) (length gb)))%nat.
Proof.
  unfold offspring. cbn zeta.
  pose proof (mutated_length rand mp ap
                (crossed rand k (dominant ga gb) (nondominant ga gb)).1
                (crossed rand k (dominant ga gb) (nondominant ga gb)).2) as H.
  rewrite crossed_length in H. destruct (dominant_length ga gb) as [Hd _].
  rewrite Hd in H. exact H.
Qed.

Lemma offspring_uint32 mp ap ga gb k :
  Forall uint32 ga -> Forall uint32 gb ->
  Forall uint32 (offspring rand mp ap ga gb k).1.
Proof.
  intros Ha Hb. unfold offspring, mutated. cbn zeta.
  apply grow_uint32, flips_uint32, crossed_uint32.
  unfold dominant. destruct (_ <? _)%nat; assumption.
Qed.

(** [map] of crossover and mutation over pairs of chromosomes of the
    heap: the results are the next free locations, in order. *)
Lemma spawn_pairs_spec mp ap ps : forall s,
  Forall (fun p => is_Some (heap s !! p.1) /\ is_Some (heap s !! p.2)) ps ->
  exists gs k,
    forM (spawn_pair rand mp ap) ps s
      = Ok (seq (length (heap s)) (length ps), State (heap s ++ gs) k) /\
    length gs = length ps /\
    forall i p g, ps !! i = Some p -> gs !! i = Some g ->
      exists ga gb,
        heap s !! p.1 = Some ga /\ heap s !! p.2 = Some gb /\
        (Nat.max (length ga) (length gb) <= length g
         <= S (Nat.max (length ga) (length gb)))%nat /\
        (Forall uint32 ga -> Forall uint32 gb -> Forall uint32 g).
Proof.
  induction ps as [|[a b] ps IH]; intros s Hv.
  - exists [], (drawn s). cbn [forM length seq]. rewrite app_nil_r.
    destruct s. split; [reflexivity|]. split; [reflexivity|].
    intros i p g Hp. rewrite lookup_nil in Hp. discriminate.
  - pose proof (Forall_inv Hv) as [[ga Hga] [gb Hgb]].
    pose proof (Forall_inv_tail Hv) as Hv'. cbn [fst snd] in Hga, Hgb.
    pose proof (spawn_pair_Ok rand mp ap a b ga gb s Hga Hgb) as Hhead.
    set (g1 := (offspring rand mp ap ga gb (drawn s)).1) in *.
    set (k1 := (offspring rand mp ap ga gb (drawn s)).2) in *.
    destruct (IH (State (heap s ++ [g1]) k1)) as (gs & k & Hrest & Hlen & Hget).
    { eapply Forall_impl; [exact Hv'|]. cbn [heap].
      intros p [[x Hx] [y Hy]]. split; eexists; apply lookup_app_l_Some; eassumption. }
    exists (g1 :: gs), k. cbn [forM length seq heap] in *.
    step Hhead. step Hrest. unfold ret.
    rewrite length_app, Nat.add_1_r, <- app_assoc. cbn [app length].
    split; [reflexivity|]. split; [lia|].
    intros [|i] p g Hp Hg; cbn [lookup list_lookup] in Hp, Hg.
    + injection Hp as <-. injection Hg as <-. exists ga, gb. cbn [fst snd].
      split; [exact Hga|]. split; [exact Hgb|].
      split; [apply offspring_length|apply offspring_uint32].
    + destruct (Hget i p g Hp Hg) as (xa & xb & Hxa & Hxb & Hl & Hu).
      destruct (Forall_lookup_1 _ _ _ _ Hv' Hp) as [[ya Hya] [yb Hyb]].
      rewrite (lookup_app_l_Some _ _ _ _ Hya) in Hxa.
      rewrite (lookup_app_l_Some _ _ _ _ Hyb) in Hxb.
      injection Hxa as <-. injection Hxb as <-. exists ya, yb. auto.
Qed.

(** X22.  Crossover of two chromosomes with the same 32-bit genes gives a
    new chromosome with these genes, whatever the draws; one draw is made
    per gene. *)
Theorem spawnWith_same_genes (s : state) (a b : loc) (g : list Z) :
  heap s !! a = Some g -> heap s !! b = Some g -> Forall uint32 g ->
  Chromosome_spawnWith rand a b s =
    Ok (length (heap s),
        State (heap s ++ [g]) (drawn s + length g)).
Proof.
  intros Ha Hb Hu.
  rewrite (Chromosome_spawnWith_Ok rand _ _ _ _ _ Ha Hb).
  rewrite crossed_draws.
  rewrite crossed_inherit by (apply uint32_nondominant; assumption).
  unfold dominant, nondominant. rewrite Nat.ltb_irrefl.
  rewrite inherit_same. do 3 f_equal. lia.
Qed.

(** X23.  Crossover with a chromosome without genes, as the receiver or as
    the argument, gives a new chromosome with the genes of the other one
    and makes no draw. *)
Theorem spawnWith_empty (s : state) (a b : loc) (ga : list Z) :
  heap s !! a = Some ga -> heap s !! b = Some [] ->
  Chromosome_spawnWith rand a b s
    = Ok (length (heap s), State (heap s ++ [ga]) (drawn s)) /\
  Chromosome_spawnWith rand b a s
    = Ok (length (heap s), State (heap s ++ [ga]) (drawn s)).
Proof.
  intros Ha Hb. split.
  - rewrite (Chromosome_spawnWith_Ok rand _ _ _ _ _ Ha Hb).
    unfold dominant, nondominant. cbn [length].
    destruct (Nat.ltb_spec (length ga) 0) as [?|_]; [lia|].
    rewrite crossed_empty. reflexivity.
  - rewrite (Chromosome_spawnWith_Ok rand _ _ _ _ _ Hb Ha).
    unfold dominant, nondominant. cbn [length].
    destruct (Nat.ltb_spec 0 (length ga)) as [H|H].
    + rewrite crossed_empty. reflexivity.
    + destruct ga; [|cbn [length] in H; lia].
      rewrite crossed_empty. reflexivity.
Qed.

(** X24.  The chromosomes of the child of [g1.spawnWith(g2)] are new
    objects at the next free locations, one per index that both parents
    have. The one of index [j] has the length of the longer of the two
    chromosomes of index [j], or one gene more, and holds 32-bit genes
    when both of them do. *)
Theorem Genome_spawnWith_children (s : state) (g1 g2 : Genome)
    (mp ap : option Q) :
  valid (heap s) g1 -> valid (heap s) g2 ->
  exists child s',
    Genome_spawnWith rand g1 g2 mp ap s = Ok (child, s') /\
    chromosomes child
      = seq (length (heap s))
            (Nat.min (length (chromosomes g1)) (length (chromosomes g2))) /\
    forall j a b,
      chromosomes g1 !! j = Some a -> chromosomes g2 !! j = Some b ->
      exists ga gb gc,
        heap s !! a = Some ga /\ heap s !! b = Some gb /\
        heap s' !! (length (heap s) + j)%nat = Some gc /\
        (Nat.max (length ga) (length gb) <= length gc
         <= S (Nat.max (length ga) (length gb)))%nat /\
        (Forall uint32 ga -> Forall uint32 gb -> Forall uint32 gc).
Proof.
  intros H1 H2.
  destruct (Genome_spawnWith_Ok rand g1 g2 mp ap s H1 H2)
    as (child & s' & Hrun & Hmap & _).
  destruct (spawn_pairs_spec (default mutation_probability mp)
              (default addition_probability ap)
              (zip (chromosomes g1) (chromosomes g2)) s)
    as (gs & k & Hps & Hlen & Hget).
  { apply Forall_lookup_2. intros i [a b] Hi.
    apply lookup_zip_with_Some in Hi.
    destruct Hi as (x & y & [= <- <-] & Hx & Hy). cbn [fst snd]. split.
    - exact (Forall_lookup_1 _ _ _ _ H1 Hx).
    - exact (Forall_lookup_1 _ _ _ _ H2 Hy). }
  rewrite Hps in Hmap. injection Hmap as Hc Hs.
  rewrite length_zip_with in Hc, Hlen.
  exists child, s'. split; [exact Hrun|]. split; [symmetry; exact Hc|].
  intros j a b Ha Hb.
  assert (Hp : zip (chromosomes g1) (chromosomes g2) !! j = Some (a, b)).
  { apply lookup_zip_with_Some. eauto. }
  pose proof (lookup_lt_Some _ _ _ Ha) as Hja.
  pose proof (lookup_lt_Some _ _ _ Hb) as Hjb.
  destruct (lookup_lt_is_Some_2 gs j ltac:(lia)) as [gc Hgc].
  destruct (Hget j (a, b) gc Hp Hgc) as (ga & gb & Hga & Hgb & Hl & Hu).
  exists ga, gb, gc. cbn [fst snd] in *. subst s'. cbn [heap].
  split; [exact Hga|]. split; [exact Hgb|]. split; [|auto].
  rewrite lookup_app_r by lia.
  replace (length (heap s) + j - length (heap s))%nat with j by lia.
  exact Hgc.
Qed.

End SpawnMore.

(** ** countOnes and the differing bits *)

Lemma xor_uint32 x y :
  uint32 x -> uint32 y -> JS.ToUint32 (JS.bitxor x y) = Z.lxor x y.
Proof.
  intros Hx Hy. unfold JS.ToUint32, JS.bitxor.
  apply Z.bits_inj'. intros j Hj.
  destruct (Z.lt_ge_cases j 32) as [Hlow|Hhigh].
  - rewrite Z.mod_pow2_bits_low by lia. rewrite !Z.lxor_spec.
    rewrite !ToInt32_testbit by lia. reflexivity.
  - rewrite Z.mod_pow2_bits_high by lia. rewrite Z.lxor_spec.
    rewrite (uint32_high_bits x j Hx Hhigh), (uint32_high_bits y j Hy Hhigh).
    reflexivity.
Qed.

Lemma lxor_uint32 x y : uint32 x -> uint32 y -> uint32 (Z.lxor x y).
Proof.
  intros Hx Hy. rewrite <- xor_uint32 by assumption. apply ToUint32_range.
Qed.

Lemma xor_arrays_same_length a b :
  length a = length b -> Forall uint32 a -> Forall uint32 b ->
  xor_arrays a b = zip_with Z.lxor a b.
Proof.
  intros Hlen Ha Hb. apply list_eq. intros j.
  destruct (decide (j < length a)%nat) as [Hj|Hj].
  - rewrite xor_arrays_lookup by exact Hj.
    destruct (lookup_lt_is_Some_2 a j Hj) as [x Hx].
    destruct (lookup_lt_is_Some_2 b j ltac:(lia)) as [y Hy].
    rewrite lookup_zip_with, Hx, Hy. unfold JS.ta_read. rewrite Hx, Hy.
    cbn [default from_option id mbind option_bind fmap option_fmap option_map].
    f_equal. apply xor_uint32.
    + exact (Forall_lookup_1 _ _ _ _ Ha Hx).
    + exact (Forall_lookup_1 _ _ _ _ Hb Hy).
  - rewrite !lookup_ge_None_2; [reflexivity| |].
    + rewrite length_zip_with. lia.
    + rewrite xor_arrays_length. lia.
Qed.

Lemma popcount_zero_bits k n :
  popcount k n = 0 ->
  forall j, 0 <= j < Z.of_nat k -> Z.testbit n j = false.
Proof.
  induction k as [|k IH]; intros H j Hj; [lia|].
  cbn [popcount] in H. pose proof (popcount_bounds k n) as Hb.
  destruct (Z.testbit n (Z.of_nat k)) eqn:E; cbn [Z.b2z] in H; [lia|].
  destruct (Z.eq_dec j (Z.of_nat k)) as [->|Hne]; [exact E|].
  apply IH; lia.
Qed.

Lemma popcount_zero n : uint32 n -> popcount 32 n = 0 -> n = 0.
Proof.
  intros Hn H. apply Z.bits_inj'. intros j Hj. rewrite Z.bits_0.
  destruct (Z.lt_ge_cases j 32) as [Hlow|Hhigh].
  - apply (popcount_zero_bits 32 n H). lia.
  - apply uint32_high_bits; assumption.
Qed.

Lemma popcount_sum_zero k l :
  foldr (fun n acc => popcount k n + acc) 0 l = 0 ->
  Forall (fun n => popcount k n = 0) l.
Proof.
  induction l as [|x l IH]; intros H; [constructor|].
  cbn [foldr] in H. pose proof (popcount_bounds k x) as Hx.
  assert (Hl : 0 <= foldr (fun n acc => popcount k n + acc) 0 l).
  { clear. induction l as [|y l IH]; cbn [foldr]; [lia|].
    pose proof (popcount_bounds k y). lia. }
  constructor; [lia|apply IH; lia].
Qed.

Lemma bit_total_zero l :
  Forall uint32 l -> bit_total l = 0 -> Forall (fun x => x = 0) l.
Proof.
  intros Hu H. apply popcount_sum_zero in H.
  apply Forall_lookup_2. intros i x Hx.
  apply popcount_zero.
  - exact (Forall_lookup_1 _ _ _ _ Hu Hx).
  - exact (Forall_lookup_1 _ _ _ _ H Hx).
Qed.

Lemma bit_total_zeros l : Forall (fun x => x = 0) l -> bit_total l = 0.
Proof.
  unfold bit_total. induction 1 as [|x l -> _ IH]; cbn [foldr]; [reflexivity|].
  rewrite IH. reflexivity.
Qed.

Lemma zip_lxor_zero a b :
  length a = length b ->
  Forall (fun x => x = 0) (zip_with Z.lxor a b) -> a = b.
Proof.
  revert b. induction a as [|x a IH]; intros [|y b] Hlen H;
    cbn [length] in Hlen; try lia; [reflexivity|].
  cbn [zip_with] in H. f_equal.
  - apply Z.lxor_eq. exact (Forall_inv H).
  - apply IH; [lia|exact (Forall_inv_tail H)].
Qed.

Lemma zip_lxor_uint32 a b :
  Forall uint32 a -> Forall uint32 b -> Forall uint32 (zip_with Z.lxor a b).
Proof.
  intros Ha. revert b. induction Ha as [|x a Hx Ha IH]; intros b Hb;
    [constructor|].
  destruct Hb as [|y b Hy Hb]; cbn [zip_with]; constructor.
  - apply lxor_uint32; assumption.
  - apply IH. exact Hb.
Qed.

Lemma zip_lxor_comm a b : zip_with Z.lxor a b = zip_with Z.lxor b a.
Proof.
  revert b. induction a as [|x a IH]; intros [|y b]; cbn [zip_with];
    try reflexivity.
  rewrite Z.lxor_comm, IH. reflexivity.
Qed.

Lemma genes_diversity_same_length ga gb :
  length ga = length gb -> Forall uint32 ga -> Forall uint32 gb ->
  genes_diversity ga gb
  = Some (ratio (bit_total (zip_with Z.lxor ga gb)) (length ga)).
Proof.
  intros Hlen Ha Hb. unfold genes_diversity, pick_longer.
  destruct (Nat.ltb_spec (length gb) (length ga)) as [?|_]; [lia|].
  rewrite (extend_same_length gb ga Hlen).
  rewrite (xor_arrays_same_length gb ga (eq_sym Hlen) Hb Ha).
  rewrite countOnes_exact, zip_lxor_comm, Hlen. reflexivity.
Qed.

(** X25.  The count of [countOnes] on a concatenation is the sum of the
    counts of the parts. *)
Theorem countOnes_app (l1 l2 : list Z) :
  countOnes (l1 ++ l2) = countOnes l1 + countOnes l2.
Proof. rewrite !countOnes_exact. apply bit_total_app. Qed.

(** X26.  On 32-bit values, [countOnes] is 0 exactly when every element is
    0. *)
Theorem countOnes_zero_iff (arr : list Z) :
  Forall uint32 arr ->
  (countOnes arr = 0 <-> Forall (fun x => x = 0) arr).
Proof.
  intros Hu. rewrite countOnes_exact. split.
  - apply bit_total_zero. exact Hu.
  - apply bit_total_zeros.
Qed.

(** In the embedding, where the quotient is exact: the diversity of two
    chromosomes of the same positive number of 32-bit genes, by the
    number of bit positions at which the genes differ. *)
Lemma Chromosome_diversityWith_same_length a b ga gb s :
  heap s !! a = Some ga -> heap s !! b = Some gb ->
  Forall uint32 ga -> Forall uint32 gb ->
  length ga = length gb -> ga <> [] ->
  Chromosome_diversityWith a b s
  = Ok (JS.Fin (inject_Z (bit_total (zip_with Z.lxor ga gb))
                / inject_Z (Z.of_nat (length ga) * 32)), s).
Proof.
  intros Ha Hb Hua Hub Hlen Hne.
  destruct (Chromosome_diversityWith_Ok _ _ _ _ s Ha Hb) as (v & Hv & Hrun).
  rewrite (genes_diversity_same_length ga gb Hlen Hua Hub) in Hv.
  injection Hv as <-. rewrite Hrun. do 2 f_equal.
  assert (Hpos : (0 < length ga)%nat)
    by (destruct ga; [congruence|cbn [length]; lia]).
  apply ratio_unit; [exact Hpos|].
  pose proof (countOnes_bounds (zip_with Z.lxor ga gb)) as Hb1.
  rewrite countOnes_exact, length_zip_with in Hb1. lia.
Qed.

(** X27.  Among pairs of chromosomes that all have the same positive
    number of 32-bit genes, the diversity orders the pairs as the number
    of differing bit positions does: the diversity of one pair is at most
    that of another exactly when no more bits differ in it. *)
Theorem diversityWith_differing_bits (s : state) (a b c d : loc)
    (ga gb gc gd : list Z) :
  heap s !! a = Some ga -> heap s !! b = Some gb ->
  heap s !! c = Some gc -> heap s !! d = Some gd ->
  Forall uint32 ga -> Forall uint32 gb ->
  Forall uint32 gc -> Forall uint32 gd ->
  length ga = length gb -> length gc = length gd ->
  length ga = length gc -> ga <> [] ->
  exists q1 q2,
    Chromosome_diversityWith a b s = Ok (JS.Fin q1, s) /\
    Chromosome_diversityWith c d s = Ok (JS.Fin q2, s) /\
    ((q1 <= q2)%Q <->
     bit_total (zip_with Z.lxor ga gb) <= bit_total (zip_with Z.lxor gc gd)).
Proof.
  intros Ha Hb Hc Hd Hua Hub Huc Hud Hab Hcd Hac Hne.
  assert (Hne' : gc <> [])
    by (destruct gc; [destruct ga; [congruence|discriminate Hac]|discriminate]).
  rewrite (Chromosome_diversityWith_same_length _ _ _ _ _ Ha Hb Hua Hub Hab Hne).
  rewrite (Chromosome_diversityWith_same_length _ _ _ _ _ Hc Hd Huc Hud Hcd Hne').
  eexists _, _. split; [reflexivity|]. split; [reflexivity|].
  rewrite <- Hac. unfold Qdiv. rewrite Zle_Qle. apply Qmult_le_r.
  apply Qinv_lt_0_compat. change 0%Q with (inject_Z 0). rewrite <- Zlt_Qlt.
  destruct ga; [congruence|cbn [length]; lia].
Qed.

(** X28.  Two chromosomes of the same positive number of 32-bit genes have
    diversity 0 exactly when they have the same genes. *)
Theorem diversityWith_zero_iff_equal (s : state) (a b : loc)
    (ga gb : list Z) :
  heap s !! a = Some ga -> heap s !! b = Some gb ->
  Forall uint32 ga -> Forall uint32 gb ->
  length ga = length gb -> ga <> [] ->
  exists q,
    Chromosome_diversityWith a b s = Ok (JS.Fin q, s) /\
    ((q == 0)%Q <-> ga = gb).
Proof.
  intros Ha Hb Hua Hub Hlen Hne.
  destruct (Chromosome_diversityWith_Ok _ _ _ _ s Ha Hb) as (v & Hv & Hrun).
  rewrite (genes_diversity_same_length ga gb Hlen Hua Hub) in Hv.
  injection Hv as <-.
  assert (Hpos : (0 < length ga)%nat)
    by (destruct ga; [congruence|cbn [length]; lia]).
  pose proof (countOnes_bounds (zip_with Z.lxor ga gb)) as Hb1.
  rewrite countOnes_exact, length_zip_with in Hb1.
  assert (Hb2 : 0 <= bit_total (zip_with Z.lxor ga gb)
                <= 32 * Z.of_nat (length ga)) by lia.
  destruct (ratio_unit _ _ Hpos Hb2) as (Hq & _).
  eexists. split; [rewrite Hrun, Hq; reflexivity|].
  assert (Hd : ~ (inject_Z (Z.of_nat (length ga) * 32) == 0)%Q).
  { intros H. unfold Qeq in H. cbn [Qnum Qden inject_Z] in H. lia. }
  split.
  - intros H0. apply zip_lxor_zero; [exact Hlen|].
    apply bit_total_zero; [apply zip_lxor_uint32; assumption|].
    unfold Qdiv in H0.
    destruct (Qmult_integral _ _ H0) as [H1|H1].
    + unfold Qeq in H1. cbn [Qnum Qden inject_Z] in H1. lia.
    + exfalso. apply Hd.
      rewrite <- (Qinv_involutive (inject_Z (Z.of_nat (length ga) * 32))).
      rewrite H1. reflexivity.
  - intros <-.
    assert (Hz : bit_total (zip_with Z.lxor ga ga) = 0).
    { apply bit_total_zeros. clear. induction ga as [|x l IH];
        cbn [zip_with]; constructor; [apply Z.lxor_nilpotent|exact IH]. }
    rewrite Hz. unfold Qdiv. apply Qmult_0_l.
Qed.

(** ** Strings *)

Lemma has_char_app c s1 s2 :
  has_char c (s1 +:+ s2) = has_char c s1 || has_char c s2.
Proof.
  induction s1 as [|a s1 IH]; simpl; [reflexivity|].
  rewrite IH. apply orb_assoc.
Qed.

Lemma split_at_char c s1 s2 r1 r2 :
  has_char c s1 = false -> has_char c s2 = false ->
  s1 +:+ String c r1 = s2 +:+ String c r2 -> s1 = s2 /\ r1 = r2.
Proof.
  revert s2. induction s1 as [|a s1 IH]; intros [|b s2] H1 H2 H;
    simpl in *.
  - injection H as ->. auto.
  - injection H as <- _. rewrite Ascii.eqb_refl in H2. discriminate.
  - injection H as -> _. rewrite Ascii.eqb_refl in H1. discriminate.
  - injection H as -> H. apply orb_false_elim in H1 as [_ H1].
    apply orb_false_elim in H2 as [_ H2].
    destruct (IH s2 H1 H2 H) as [-> ->]. auto.
Qed.

Lemma pretty_N_char_not c :
  (forall d, (d < 10)%N -> pretty_N_char d <> c) ->
  forall d, Ascii.eqb (pretty_N_char d) c = false.
Proof.
  intros H d. apply Ascii.eqb_neq.
  destruct (N.lt_ge_cases d 10) as [Hd|Hd]; [apply H, Hd|].
  replace (pretty_N_char d) with (pretty_N_char 9%N); [apply H; lia|].
  unfold pretty_N_char. destruct d as [|p]; [lia|].
  do 4 (destruct p as [p|p|]; try lia; try reflexivity).
Qed.

Lemma pretty_N_go_chars c x : forall s,
  (forall d, (d < 10)%N -> pretty_N_char d <> c) ->
  has_char c s = false -> has_char c (pretty_N_go x s) = false.
Proof.
  induction (N.lt_wf_0 x) as [x _ IH]. intros s Hc Hs.
  destruct (N.eq_dec x 0%N) as [->|Hx]; [rewrite pretty_N_go_0; exact Hs|].
  rewrite pretty_N_go_step by lia. apply IH.
  - apply N.div_lt; lia.
  - exact Hc.
  - cbn [has_char]. rewrite (pretty_N_char_not c Hc), Hs. reflexivity.
Qed.

Lemma pretty_N_go_nonempty x : forall s,
  s <> EmptyString -> pretty_N_go x s <> EmptyString.
Proof.
  induction (N.lt_wf_0 x) as [x _ IH]. intros s Hs.
  destruct (N.eq_dec x 0%N) as [->|Hx]; [rewrite pretty_N_go_0; exact Hs|].
  rewrite pretty_N_go_step by lia. apply IH; [apply N.div_lt; lia|].
  discriminate.
Qed.

Lemma pretty_N_chars c (x : N) :
  (forall d, (d < 10)%N -> pretty_N_char d <> c) ->
  has_char c (pretty x) = false /\ pretty x <> EmptyString.
Proof.
  intros Hc. unfold pretty, pretty_N. case_decide as Hx.
  - split; [|discriminate].
    pose proof (pretty_N_char_not c Hc 0%N) as H0.
    unfold pretty_N_char in H0. cbn [has_char]. rewrite H0. reflexivity.
  - split; [apply pretty_N_go_chars; [exact Hc|reflexivity]|].
    rewrite pretty_N_go_step by lia. apply pretty_N_go_nonempty. discriminate.
Qed.

(** The decimal form of a number that is not negative has a character
    and holds digits only. *)
Lemma pretty_Z_chars c (z : Z) :
  (forall d, (d < 10)%N -> pretty_N_char d <> c) -> 0 <= z ->
  has_char c (pretty z) = false /\ pretty z <> EmptyString.
Proof.
  intros Hc Hz. destruct z as [|p|p]; [| |lia].
  - apply (pretty_N_chars c 0%N Hc).
  - apply (pretty_N_chars c (Npos p) Hc).
Qed.

Lemma comma_no_digit d : (d < 10)%N -> pretty_N_char d <> ","%char.
Proof.
  intros _. unfold pretty_N_char.
  destruct d as [|p]; [discriminate|].
  do 4 (destruct p as [p|p|]; try discriminate).
Qed.

Lemma newline_no_digit d : (d < 10)%N -> pretty_N_char d <> "010"%char.
Proof.
  intros _. unfold pretty_N_char.
  destruct d as [|p]; [discriminate|].
  do 4 (destruct p as [p|p|]; try discriminate).
Qed.

Lemma concat_cons sep x y l :
  String.concat sep (x :: y :: l) = x +:+ sep +:+ String.concat sep (y :: l).
Proof. reflexivity. Qed.

(** Joining with commas loses nothing on strings that have a character
    and no comma. *)
Lemma concat_comma_inj l1 : forall l2,
  Forall (fun s => has_char ","%char s = false /\ s <> EmptyString) l1 ->
  Forall (fun s => has_char ","%char s = false /\ s <> EmptyString) l2 ->
  String.concat "," l1 = String.concat "," l2 -> l1 = l2.
Proof.
  induction l1 as [|x l1 IH]; intros l2 H1 H2 H.
  - destruct l2 as [|y l2]; [reflexivity|]. exfalso.
    destruct (Forall_inv H2) as [_ Hy]. destruct l2 as [|y' l2].
    + cbn [String.concat] in H. congruence.
    + rewrite concat_cons in H. destruct y; [congruence|].
      simpl in H. discriminate.
  - destruct l2 as [|y l2].
    + exfalso. destruct (Forall_inv H1) as [_ Hx]. destruct l1 as [|x' l1].
      * cbn [String.concat] in H. congruence.
      * rewrite concat_cons in H. destruct x; [congruence|].
        simpl in H. discriminate.
    + destruct (Forall_inv H1) as [Hx _]. destruct (Forall_inv H2) as [Hy _].
      pose proof (Forall_inv_tail H1) as H1'.
      pose proof (Forall_inv_tail H2) as H2'.
      destruct l1 as [|x' l1]; destruct l2 as [|y' l2].
      * cbn [String.concat] in H. congruence.
      * exfalso. rewrite concat_cons in H.
        change (String.concat "," [x]) with x in H.
        rewrite H in Hx. rewrite has_char_app in Hx.
        simpl in Hx. rewrite ?orb_true_r in Hx. discriminate.
      * exfalso. rewrite concat_cons in H.
        change (String.concat "," [y]) with y in H.
        rewrite <- H in Hy. rewrite has_char_app in Hy.
        simpl in Hy. rewrite ?orb_true_r in Hy. discriminate.
      * rewrite !concat_cons in H. simpl in H.
        destruct (split_at_char _ _ _ _ _ Hx Hy H) as [-> Hrest].
        f_equal. apply IH; assumption.
Qed.

Lemma fmap_pretty_inj (l1 : list Z) : forall l2,
  pretty <$> l1 = pretty <$> l2 -> l1 = l2.
Proof.
  induction l1 as [|x l1 IH]; intros [|y l2] H; cbn [fmap list_fmap] in H;
    try discriminate; [reflexivity|].
  injection H as Hx Hl. f_equal; [apply (inj pretty), Hx|apply IH, Hl].
Qed.

Lemma pretty_all_chars c (arr : list Z) :
  (forall d, (d < 10)%N -> pretty_N_char d <> c) ->
  Forall uint32 arr ->
  Forall (fun s => has_char c s = false /\ s <> EmptyString) (pretty <$> arr).
Proof.
  intros Hc Hu. apply Forall_fmap. eapply Forall_impl; [exact Hu|].
  intros z Hz. apply pretty_Z_chars; [exact Hc|]. unfold uint32 in Hz. lia.
Qed.

Lemma ta_toString_inj ga gb :
  Forall uint32 ga -> Forall uint32 gb ->
  ta_toString ga = ta_toString gb -> ga = gb.
Proof.
  intros Ha Hb H. apply fmap_pretty_inj.
  apply concat_comma_inj; [| |exact H];
    apply pretty_all_chars; auto using comma_no_digit.
Qed.

(** The string of a typed array has no line break. *)
Lemma ta_toString_one_line arr :
  Forall uint32 arr -> has_char "010"%char (ta_toString arr) = false.
Proof.
  intros Hu. unfold ta_toString.
  pose proof (pretty_all_chars "010"%char arr newline_no_digit Hu) as H.
  induction H as [|x l [Hx _] _ IH]; [reflexivity|].
  destruct l as [|y l]; [exact Hx|].
  rewrite concat_cons, !has_char_app, Hx, IH. reflexivity.
Qed.

Lemma Chromosome_toString_Ok c g s :
  heap s !! c = Some g -> Chromosome_toString c s = Ok (ta_toString g, s).
Proof.
  intros H. unfold Chromosome_toString. step (get_genes_Ok _ _ _ H).
  reflexivity.
Qed.

(** X29.  The strings of two chromosomes holding 32-bit genes are the same
    exactly when the genes are the same; [toString] leaves the state as it
    was. *)
Theorem Chromosome_toString_inj (s : state) (a b : loc) (ga gb : list Z) :
  heap s !! a = Some ga -> heap s !! b = Some gb ->
  Forall uint32 ga -> Forall uint32 gb ->
  exists sa sb,
    Chromosome_toString a s = Ok (sa, s) /\
    Chromosome_toString b s = Ok (sb, s) /\
    (sa = sb <-> ga = gb).
Proof.
  intros Ha Hb Hua Hub. exists (ta_toString ga), (ta_toString gb).
  split; [apply Chromosome_toString_Ok, Ha|].
  split; [apply Chromosome_toString_Ok, Hb|].
  split; [apply ta_toString_inj; assumption|congruence].
Qed.

Lemma append_empty_r s : s +:+ EmptyString = s.
Proof.
  induction s as [|a s IH]; [reflexivity|].
  change (String a s +:+ EmptyString) with (String a (s +:+ EmptyString)). rewrite IH.
  reflexivity.
Qed.

Lemma append_assoc s1 s2 s3 : (s1 +:+ s2) +:+ s3 = s1 +:+ (s2 +:+ s3).
Proof.
  induction s1 as [|a s1 IH]; [reflexivity|].
  change (String a ((s1 +:+ s2) +:+ s3) = String a (s1 +:+ (s2 +:+ s3))).
  rewrite IH. reflexivity.
Qed.

Lemma concat_empty_cons x l :
  String.concat EmptyString (x :: l) = x +:+ String.concat EmptyString l.
Proof.
  destruct l as [|y l]; [simpl; symmetry; apply append_empty_r|].
  rewrite concat_cons. reflexivity.
Qed.

Lemma genome_lines_cons g gs :
  genome_lines (g :: gs)
  = String "010"%char (String " "%char (ta_toString g +:+ genome_lines gs)).
Proof.
  unfold genome_lines. cbn [fmap list_fmap]. rewrite concat_empty_cons.
  rewrite append_assoc. reflexivity.
Qed.

Lemma genome_lines_start gs :
  exists r, genome_lines gs = String "010"%char r.
Proof.
  destruct gs as [|g gs]; [eexists; reflexivity|].
  rewrite genome_lines_cons. eexists. reflexivity.
Qed.

Lemma genome_lines_inj gs1 : forall gs2,
  Forall (Forall uint32) gs1 -> Forall (Forall uint32) gs2 ->
  genome_lines gs1 = genome_lines gs2 -> gs1 = gs2.
Proof.
  induction gs1 as [|g1 gs1 IH]; intros [|g2 gs2] H1 H2 H.
  - reflexivity.
  - rewrite genome_lines_cons in H. discriminate.
  - rewrite genome_lines_cons in H. discriminate.
  - rewrite !genome_lines_cons in H. injection H as H.
    destruct (genome_lines_start gs1) as [r1 Hr1].
    destruct (genome_lines_start gs2) as [r2 Hr2].
    rewrite Hr1, Hr2 in H.
    apply split_at_char in H as [Hg Hr];
      [|apply ta_toString_one_line, (Forall_inv H1)
       |apply ta_toString_one_line, (Forall_inv H2)].
    f_equal.
    + apply ta_toString_inj; [exact (Forall_inv H1)|exact (Forall_inv H2)|exact Hg].
    + apply IH; [exact (Forall_inv_tail H1)|exact (Forall_inv_tail H2)|].
      rewrite Hr1, Hr2, Hr. reflexivity.
Qed.

Lemma chromosome_line_Ok c g s :
  heap s !! c = Some g ->
  chromosome_line c s
  = Ok (String "010"%char (String " "%char (ta_toString g)), s).
Proof.
  intros H. unfold chromosome_line. step (Chromosome_toString_Ok _ _ _ H).
  reflexivity.
Qed.

Lemma chromosome_lines_Ok cs gs s :
  Forall2 (fun c g => heap s !! c = Some g) cs gs ->
  forM chromosome_line cs s
  = Ok ((fun g => String "010"%char (String " "%char (ta_toString g))) <$> gs,
        s).
Proof.
  induction 1 as [|c g cs gs Hc _ IH]; [reflexivity|].
  cbn [forM fmap list_fmap]. step (chromosome_line_Ok _ _ _ Hc).
  step IH. reflexivity.
Qed.

Lemma Genome_toString_Ok this gs s :
  Forall2 (fun c g => heap s !! c = Some g) (chromosomes this) gs ->
  Genome_toString this s = Ok (String "("%char (genome_lines gs), s).
Proof.
  intros H. unfold Genome_toString. step (chromosome_lines_Ok _ _ _ H).
  reflexivity.
Qed.

(** X30.  The strings of two genomes whose chromosomes hold 32-bit genes
    are the same exactly when the genomes have the same number of
    chromosomes and, index by index, chromosomes with the same genes;
    [toString] leaves the state as it was. *)
Theorem Genome_toString_inj (s : state) (g1 g2 : Genome)
    (gs1 gs2 : list (list Z)) :
  Forall2 (fun c g => heap s !! c = Some g) (chromosomes g1) gs1 ->
  Forall2 (fun c g => heap s !! c = Some g) (chromosomes g2) gs2 ->
  Forall (Forall uint32) gs1 -> Forall (Forall uint32) gs2 ->
  exists s1 s2,
    Genome_toString g1 s = Ok (s1, s) /\
    Genome_toString g2 s = Ok (s2, s) /\
    (s1 = s2 <-> gs1 = gs2).
Proof.
  intros H1 H2 Hu1 Hu2. eexists _, _.
  split; [apply (Genome_toString_Ok _ _ _ H1)|].
  split; [apply (Genome_toString_Ok _ _ _ H2)|].
  split; [|congruence].
  intros H. injection H as H. apply genome_lines_inj; assumption.
Qed.

(** * Instances of the further properties *)

Ltac solve_unit_draws := intros i; split; [discriminate|reflexivity].

Ltac solve_nonneg := repeat (constructor; [discriminate|]); constructor.

Ltac solve_populated :=
  repeat (constructor; [eexists; split; [reflexivity|discriminate]|]);
  constructor.

Ltac solve_shape_ok :=
  split; [reflexivity|];
  intros [|[|[|i]]] c Hc; cbn in Hc; try discriminate Hc;
  injection Hc as <-; eexists; split; reflexivity.

(** X1 at the default probabilities on a chromosome of two genes. *)
Lemma mutate_writes_receiver_only_witness :
  (heap (State [[5; 6]] 0) !! 0%nat = Some [5; 6] /\
   (mutation_probability <= inject_Z (2 ^ 53))%Q) /\
  exists g' k,
    Chromosome_mutate (always (3 # 10)) 0%nat None None (State [[5; 6]] 0)
      = Ok (0%nat, State (<[0%nat := g']> [[5; 6]]) k) /\
    (2 <= length g' <= 3)%nat /\ (2 <= k)%nat.
Proof.
  split; [split; [reflexivity|vm_compute; discriminate]|].
  destruct (mutate_writes_receiver_only (always (3 # 10))
              (State [[5; 6]] 0) 0%nat [5; 6] None None)
    as (g' & k & Hrun & Hlen & _ & Hk);
    [reflexivity|vm_compute; discriminate|].
  exists g', k. split; [exact Hrun|]. split; [exact Hlen|exact Hk].
Defined.


(** X3 at [mutate(0, -1)]. *)
Lemma mutate_nothing_witness :
  ((forall i : nat, (0 <= always (3 # 10) i)%Q) /\
   (0 <= 0)%Q /\ (-1 # 1 <= 0)%Q /\
   heap (State [[5]] 7) !! 0%nat = Some [5]) /\
  Chromosome_mutate (always (3 # 10)) 0%nat (Some 0%Q) (Some (-1 # 1)%Q)
    (State [[5]] 7)
  = Ok (0%nat, State [[5]] 9).
Proof.
  split.
  - split; [intros i; discriminate|]. split; [discriminate|].
    split; [discriminate|reflexivity].
  - apply (mutate_nothing (always (3 # 10)) (State [[5]] 7) 0%nat [5]
             0%Q (-1 # 1)%Q);
      [intros i; discriminate|discriminate|discriminate|reflexivity].
Defined.

(** X4 at [mutate(0, 1)]. *)
Lemma mutate_appends_witness :
  ((forall i : nat,
      (0 <= always (3 # 10) i)%Q /\ (always (3 # 10) i < 1)%Q) /\
   (0 <= 0)%Q /\ (1 <= 1)%Q /\
   heap (State [[5]] 0) !! 0%nat = Some [5]) /\
  exists x,
    0 <= x <= 4294967294 /\
    Chromosome_mutate (always (3 # 10)) 0%nat (Some 0%Q) (Some 1%Q)
      (State [[5]] 0)
    = Ok (0%nat, State [[5; x]] 3).
Proof.
  split.
  - split; [solve_unit_draws|]. split; [discriminate|].
    split; [discriminate|reflexivity].
  - apply (mutate_appends (always (3 # 10)) (State [[5]] 0) 0%nat [5]
             0%Q 1%Q);
      [solve_unit_draws|discriminate|discriminate|reflexivity].
Defined.

(** X5 at a chromosome of two genes. *)
Lemma mutate_one_flip_witness :
  ((forall i : nat,
      (0 <= always (3 # 10) i)%Q /\ (always (3 # 10) i < 1)%Q) /\
   heap (State [[5; 6]] 0) !! 0%nat = Some [5; 6] /\
   Forall uint32 [5; 6] /\ [5; 6] <> []) /\
  exists i x b,
    [5; 6] !! i = Some x /\ 0 <= b < 32 /\
    Z.lxor x (2 ^ b) <> x /\
    Chromosome_mutate (always (3 # 10)) 0%nat (Some 1%Q) (Some 0%Q)
      (State [[5; 6]] 0)
    = Ok (0%nat,
          State (<[0%nat := <[i := Z.lxor x (2 ^ b)]> [5; 6]]> [[5; 6]]) 4).
Proof.
  split.
  - split; [solve_unit_draws|]. split; [reflexivity|].
    split; [solve_uint32|discriminate].
  - apply (mutate_one_flip (always (3 # 10)) (State [[5; 6]] 0) 0%nat
             [5; 6]);
      [solve_unit_draws|reflexivity|solve_uint32|discriminate].
Defined.


(** X7 at [new Chromosome(2)]. *)
Lemma Chromosome_new_genes_drawn_witness :
  ((forall i : nat,
      (0 <= always (3 # 10) i)%Q /\ (always (3 # 10) i < 1)%Q) /\
   0 <= 2) /\
  exists genes,
    Chromosome_new (always (3 # 10)) 2 (State [[9]] 4)
    = Ok (1%nat, State [[9]; genes] 6) /\
    Z.of_nat (length genes) = 2 /\
    Forall (fun x => 0 <= x <= 4294967294) genes.
Proof.
  split.
  - split; [solve_unit_draws|discriminate].
  - destruct (Chromosome_new_genes_drawn (always (3 # 10))
                (State [[9]] 4) 2)
      as (genes & Hrun & Hlen & Hr); [solve_unit_draws|discriminate|].
    exists genes. split; [exact Hrun|]. split; [exact Hlen|exact Hr].
Defined.

(** X8 at [new Genome([2, -1])]. *)
Lemma Genome_new_negative_witness :
  Exists (fun len => len < 0) [2; -1] /\
  Genome_new (always (3 # 10)) [2; -1] (State [] 0) = Throw RangeError.
Proof.
  split.
  - apply Exists_cons_tl, Exists_cons_hd. reflexivity.
  - apply (Genome_new_negative (always (3 # 10)) (State [] 0) [2; -1]).
    apply Exists_cons_tl, Exists_cons_hd. reflexivity.
Defined.

(** X9 at [new Genome([2, 0, 1])] on a heap of one object. *)
Lemma Genome_new_fresh_witness :
  Forall (fun len => 0 <= len) [2; 0; 1] /\
  exists g s',
    Genome_new (always (3 # 10)) [2; 0; 1] (State [[9]] 4) = Ok (g, s') /\
    chromosomes g = [1; 2; 3]%nat /\
    shape g = [Some 2; Some 0; Some 1] /\
    shape_ok (heap s') g /\
    Z.of_nat (drawn s') = 7.
Proof.
  split; [solve_nonneg|].
  destruct (Genome_new_fresh (always (3 # 10)) (State [[9]] 4) [2; 0; 1])
    as (g & s' & Hrun & Hc & Hs & Hok & _ & Hd); [solve_nonneg|].
  exists g, s'. split; [exact Hrun|]. split; [exact Hc|].
  split; [exact Hs|]. split; [exact Hok|exact Hd].
Defined.

(** X10 at a genome of two chromosomes. *)
Lemma Genome_numGenes_shape_witness :
  shape_ok (heap (State [[1; 2]; [3]] 5))
           (MkGenome [0; 1]%nat [Some 2; Some 1]) /\
  Genome_numGenes (MkGenome [0; 1]%nat [Some 2; Some 1])
    (State [[1; 2]; [3]] 5)
  = Ok (3, State [[1; 2]; [3]] 5).
Proof.
  split; [solve_shape_ok|].
  apply (Genome_numGenes_shape (State [[1; 2]; [3]] 5)
           (MkGenome [0; 1]%nat [Some 2; Some 1])).
  solve_shape_ok.
Defined.

(** X11 at [new Genome([3, 4, 5])], as in the tests of the repository. *)
Lemma Genome_new_numGenes_witness :
  Forall (fun len => 0 <= len) [3; 4; 5] /\
  exists g s',
    Genome_new (always (1 # 2)) [3; 4; 5] (State [] 0) = Ok (g, s') /\
    Genome_numGenes g s' = Ok (12, s').
Proof.
  split; [solve_nonneg|].
  apply (Genome_new_numGenes (always (1 # 2)) (State [] 0) [3; 4; 5]).
  solve_nonneg.
Defined.


(** X13 at a genome of two chromosomes. *)
Lemma Genome_copy_same_genes_witness :
  valid (heap (State [[1; 2]; [3]] 5))
        (MkGenome [0; 1]%nat [Some 2; Some 1]) /\
  exists g s',
    Genome_copy (always (3 # 10)) (MkGenome [0; 1]%nat [Some 2; Some 1])
      (State [[1; 2]; [3]] 5) = Ok (g, s') /\
    drawn s' = 5%nat /\
    shape_ok (heap s') g /\
    length (chromosomes g) = 2%nat.
Proof.
  split; [solve_valid|].
  destruct (Genome_copy_same_genes (always (3 # 10))
              (State [[1; 2]; [3]] 5)
              (MkGenome [0; 1]%nat [Some 2; Some 1]))
    as (g & s' & Hrun & Hd & _ & Hok & Hlen & _); [solve_valid|].
  exists g, s'. split; [exact Hrun|]. split; [exact Hd|].
  split; [exact Hok|exact Hlen].
Defined.

(** X16 at chromosomes of three genes and of one gene. *)
Lemma diversityWith_extra_genes_witness :
  (heap (State [[1; 2; 3]; [4]] 0) !! 0%nat = Some [1; 2; 3] /\
   heap (State [[1; 2; 3]; [4]] 0) !! 1%nat = Some [4] /\
   length [1; 2; 3] <> length [4]) /\
  exists q,
    Chromosome_diversityWith 0%nat 1%nat (State [[1; 2; 3]; [4]] 0)
      = Ok (JS.Fin q, State [[1; 2; 3]; [4]] 0) /\
    (0 < q)%Q /\ (q <= 1)%Q.
Proof.
  split.
  - split; [reflexivity|]. split; [reflexivity|discriminate].
  - apply (diversityWith_extra_genes (State [[1; 2; 3]; [4]] 0)
             0%nat 1%nat [1; 2; 3] [4]);
      [reflexivity|reflexivity|discriminate].
Defined.

(** X17 at a chromosome of two genes. *)
Lemma diversityWith_empty_other_witness :
  (heap (State [[1; 2]; []] 0) !! 0%nat = Some [1; 2] /\
   heap (State [[1; 2]; []] 0) !! 1%nat = Some [] /\ [1; 2] <> []) /\
  exists q,
    Chromosome_diversityWith 0%nat 1%nat (State [[1; 2]; []] 0)
      = Ok (JS.Fin q, State [[1; 2]; []] 0) /\
    (q == 1)%Q.
Proof.
  split.
  - split; [reflexivity|]. split; [reflexivity|discriminate].
  - apply (diversityWith_empty_other (State [[1; 2]; []] 0)
             0%nat 1%nat [1; 2]);
      [reflexivity|reflexivity|discriminate].
Defined.

(** X18 at the genes 5 and 0 and their complements. *)
Lemma diversityWith_complement_witness :
  (heap (State [[5; 0]; [4294967290; 4294967295]] 0) !! 0%nat
     = Some [5; 0] /\
   heap (State [[5; 0]; [4294967290; 4294967295]] 0) !! 1%nat
     = Some ((fun x => 4294967295 - x) <$> [5; 0]) /\
   Forall uint32 [5; 0] /\ [5; 0] <> []) /\
  exists q,
    Chromosome_diversityWith 0%nat 1%nat
      (State [[5; 0]; [4294967290; 4294967295]] 0)
      = Ok (JS.Fin q, State [[5; 0]; [4294967290; 4294967295]] 0) /\
    (q == 1)%Q.
Proof.
  split.
  - split; [reflexivity|]. split; [reflexivity|].
    split; [solve_uint32|discriminate].
  - apply (diversityWith_complement
             (State [[5; 0]; [4294967290; 4294967295]] 0)
             0%nat 1%nat [5; 0]);
      [reflexivity|reflexivity|solve_uint32|discriminate].
Defined.

(** X19 at genomes of two chromosomes and of one chromosome. *)
Lemma Genome_diversityWith_unit_interval_witness :
  (populated (heap (State [[1; 2]; [3]; [4]] 0))
             (MkGenome [0; 1]%nat [Some 2; Some 1]) /\
   populated (heap (State [[1; 2]; [3]; [4]] 0))
             (MkGenome [2%nat] [Some 1]) /\
   chromosomes (MkGenome [0; 1]%nat [Some 2; Some 1]) <> [] /\
   chromosomes (MkGenome [2%nat] [Some 1]) <> []) /\
  exists q,
    Genome_diversityWith (MkGenome [0; 1]%nat [Some 2; Some 1])
      (MkGenome [2%nat] [Some 1]) (State [[1; 2]; [3]; [4]] 0)
      = Ok (JS.Fin q, State [[1; 2]; [3]; [4]] 0) /\
    (0 <= q)%Q /\ (q <= 1)%Q.
Proof.
  split.
  - split; [solve_populated|]. split; [solve_populated|].
    split; discriminate.
  - apply (Genome_diversityWith_unit_interval (State [[1; 2]; [3]; [4]] 0)
             (MkGenome [0; 1]%nat [Some 2; Some 1])
             (MkGenome [2%nat] [Some 1]));
      [solve_populated|solve_populated|discriminate|discriminate].
Defined.

(** X20 at a genome of two chromosomes. *)
Lemma Genome_copy_diversity_zero_witness :
  (populated (heap (State [[1; 2]; [3]] 0))
             (MkGenome [0; 1]%nat [Some 2; Some 1]) /\
   chromosomes (MkGenome [0; 1]%nat [Some 2; Some 1]) <> []) /\
  exists g s' q,
    Genome_copy (always (3 # 10)) (MkGenome [0; 1]%nat [Some 2; Some 1])
      (State [[1; 2]; [3]] 0) = Ok (g, s') /\
    Genome_diversityWith (MkGenome [0; 1]%nat [Some 2; Some 1]) g s'
      = Ok (JS.Fin q, s') /\
    (q == 0)%Q.
Proof.
  split.
  - split; [solve_populated|discriminate].
  - apply (Genome_copy_diversity_zero (always (3 # 10))
             (State [[1; 2]; [3]] 0)
             (MkGenome [0; 1]%nat [Some 2; Some 1]));
      [solve_populated|discriminate].
Defined.

(** X22 at two chromosomes with the genes 1 and 2. *)
Lemma spawnWith_same_genes_witness :
  (heap (State [[1; 2]; [1; 2]] 0) !! 0%nat = Some [1; 2] /\
   heap (State [[1; 2]; [1; 2]] 0) !! 1%nat = Some [1; 2] /\
   Forall uint32 [1; 2]) /\
  Chromosome_spawnWith (always (7 # 10)) 0%nat 1%nat
    (State [[1; 2]; [1; 2]] 0)
  = Ok (2%nat, State [[1; 2]; [1; 2]; [1; 2]] 2).
Proof.
  split.
  - split; [reflexivity|]. split; [reflexivity|solve_uint32].
  - apply (spawnWith_same_genes (always (7 # 10))
             (State [[1; 2]; [1; 2]] 0) 0%nat 1%nat [1; 2]);
      [reflexivity|reflexivity|solve_uint32].
Defined.

(** X23 at a chromosome of two genes and one without genes. *)
Lemma spawnWith_empty_witness :
  (heap (State [[1; 2]; []] 5) !! 0%nat = Some [1; 2] /\
   heap (State [[1; 2]; []] 5) !! 1%nat = Some []) /\
  Chromosome_spawnWith (always (7 # 10)) 0%nat 1%nat (State [[1; 2]; []] 5)
    = Ok (2%nat, State [[1; 2]; []; [1; 2]] 5) /\
  Chromosome_spawnWith (always (7 # 10)) 1%nat 0%nat (State [[1; 2]; []] 5)
    = Ok (2%nat, State [[1; 2]; []; [1; 2]] 5).
Proof.
  split.
  - split; reflexivity.
  - apply (spawnWith_empty (always (7 # 10)) (State [[1; 2]; []] 5)
             0%nat 1%nat [1; 2]); reflexivity.
Defined.

(** X24 at a receiver of two chromosomes and another parent of one. *)
Lemma Genome_spawnWith_children_witness :
  (valid (heap (State [[1]; [2]; [3]] 0))
         (MkGenome [0; 1]%nat [Some 1; Some 1]) /\
   valid (heap (State [[1]; [2]; [3]] 0)) (MkGenome [2%nat] [Some 1])) /\
  exists child s',
    Genome_spawnWith (always (7 # 10))
      (MkGenome [0; 1]%nat [Some 1; Some 1]) (MkGenome [2%nat] [Some 1])
      None None (State [[1]; [2]; [3]] 0)
    = Ok (child, s') /\
    chromosomes child = [3%nat].
Proof.
  split.
  - split; solve_valid.
  - destruct (Genome_spawnWith_children (always (7 # 10))
                (State [[1]; [2]; [3]] 0)
                (MkGenome [0; 1]%nat [Some 1; Some 1])
                (MkGenome [2%nat] [Some 1]) None None)
      as (child & s' & Hrun & Hc & _); [solve_valid|solve_valid|].
    exists child, s'. split; [exact Hrun|exact Hc].
Defined.

(** X26 at an array of two zeros. *)
Lemma countOnes_zero_iff_witness :
  Forall uint32 [0; 0] /\
  (countOnes [0; 0] = 0 <-> Forall (fun x => x = 0) [0; 0]).
Proof.
  split; [solve_uint32|].
  apply (countOnes_zero_iff [0; 0]). solve_uint32.
Defined.

(** X27 at the pairs 5, 6 against 5, 7, where one bit differs, and 5, 6
    against 0, 0, where four bits differ. *)
Lemma diversityWith_differing_bits_witness :
  (heap (State [[5; 6]; [5; 7]; [0; 0]] 0) !! 0%nat = Some [5; 6] /\
   heap (State [[5; 6]; [5; 7]; [0; 0]] 0) !! 1%nat = Some [5; 7] /\
   heap (State [[5; 6]; [5; 7]; [0; 0]] 0) !! 2%nat = Some [0; 0] /\
   Forall uint32 [5; 6] /\ Forall uint32 [5; 7] /\ Forall uint32 [0; 0] /\
   length [5; 6] = length [5; 7] /\ length [5; 6] = length [0; 0] /\
   [5; 6] <> []) /\
  exists q1 q2,
    Chromosome_diversityWith 0%nat 1%nat (State [[5; 6]; [5; 7]; [0; 0]] 0)
      = Ok (JS.Fin q1, State [[5; 6]; [5; 7]; [0; 0]] 0) /\
    Chromosome_diversityWith 0%nat 2%nat (State [[5; 6]; [5; 7]; [0; 0]] 0)
      = Ok (JS.Fin q2, State [[5; 6]; [5; 7]; [0; 0]] 0) /\
    ((q1 <= q2)%Q <->
     bit_total (zip_with Z.lxor [5; 6] [5; 7])
     <= bit_total (zip_with Z.lxor [5; 6] [0; 0])).
Proof.
  split.
  - split; [reflexivity|]. split; [reflexivity|]. split; [reflexivity|].
    split; [solve_uint32|]. split; [solve_uint32|]. split; [solve_uint32|].
    split; [reflexivity|]. split; [reflexivity|discriminate].
  - apply (diversityWith_differing_bits (State [[5; 6]; [5; 7]; [0; 0]] 0)
             0%nat 1%nat 0%nat 2%nat [5; 6] [5; 7] [5; 6] [0; 0]);
      [reflexivity|reflexivity|reflexivity|reflexivity
      |solve_uint32|solve_uint32|solve_uint32|solve_uint32
      |reflexivity|reflexivity|reflexivity|discriminate].
Defined.

(** X28 at the genes 5, 6 and 5, 7. *)
Lemma diversityWith_zero_iff_equal_witness :
  (heap (State [[5; 6]; [5; 7]] 0) !! 0%nat = Some [5; 6] /\
   heap (State [[5; 6]; [5; 7]] 0) !! 1%nat = Some [5; 7] /\
   Forall uint32 [5; 6] /\ Forall uint32 [5; 7] /\
   length [5; 6] = length [5; 7] /\ [5; 6] <> []) /\
  exists q,
    Chromosome_diversityWith 0%nat 1%nat (State [[5; 6]; [5; 7]] 0)
      = Ok (JS.Fin q, State [[5; 6]; [5; 7]] 0) /\
    ((q == 0)%Q <-> [5; 6] = [5; 7]).
Proof.
  split.
  - split; [reflexivity|]. split; [reflexivity|]. split; [solve_uint32|].
    split; [solve_uint32|]. split; [reflexivity|discriminate].
  - apply (diversityWith_zero_iff_equal (State [[5; 6]; [5; 7]] 0)
             0%nat 1%nat [5; 6] [5; 7]);
      [reflexivity|reflexivity|solve_uint32|solve_uint32|reflexivity
      |discriminate].
Defined.

(** X29 at the genes 1, 23 and 12, 3. *)
Lemma Chromosome_toString_inj_witness :
  (heap (State [[1; 23]; [12; 3]] 0) !! 0%nat = Some [1; 23] /\
   heap (State [[1; 23]; [12; 3]] 0) !! 1%nat = Some [12; 3] /\
   Forall uint32 [1; 23] /\ Forall uint32 [12; 3]) /\
  exists sa sb,
    Chromosome_toString 0%nat (State [[1; 23]; [12; 3]] 0)
      = Ok (sa, State [[1; 23]; [12; 3]] 0) /\
    Chromosome_toString 1%nat (State [[1; 23]; [12; 3]] 0)
      = Ok (sb, State [[1; 23]; [12; 3]] 0) /\
    (sa = sb <-> [1; 23] = [12; 3]).
Proof.
  split.
  - split; [reflexivity|]. split; [reflexivity|]. split; solve_uint32.
  - apply (Chromosome_toString_inj (State [[1; 23]; [12; 3]] 0)
             0%nat 1%nat [1; 23] [12; 3]);
      [reflexivity|reflexivity|solve_uint32|solve_uint32].
Defined.

(** X30 at two genomes of two chromosomes with the same genes. *)
Lemma Genome_toString_inj_witness :
  (Forall2 (fun c g => heap (State [[1; 2]; [3]; [1; 2]] 0) !! c = Some g)
     (chromosomes (MkGenome [0; 1]%nat [Some 2; Some 1])) [[1; 2]; [3]] /\
   Forall2 (fun c g => heap (State [[1; 2]; [3]; [1; 2]] 0) !! c = Some g)
     (chromosomes (MkGenome [2; 1]%nat [Some 2; Some 1])) [[1; 2]; [3]] /\
   Forall (Forall uint32) [[1; 2]; [3]]) /\
  exists s1 s2,
    Genome_toString (MkGenome [0; 1]%nat [Some 2; Some 1])
      (State [[1; 2]; [3]; [1; 2]] 0)
      = Ok (s1, State [[1; 2]; [3]; [1; 2]] 0) /\
    Genome_toString (MkGenome [2; 1]%nat [Some 2; Some 1])
      (State [[1; 2]; [3]; [1; 2]] 0)
      = Ok (s2, State [[1; 2]; [3]; [1; 2]] 0) /\
    (s1 = s2 <-> [[1; 2]; [3]] = [[1; 2]; [3]]).
Proof.
  split.
  - split; [repeat constructor|]. split; [repeat constructor|].
    repeat (constructor; [solve_uint32|]). constructor.
  - apply (Genome_toString_inj (State [[1; 2]; [3]; [1; 2]] 0)
             (MkGenome [0; 1]%nat [Some 2; Some 1])
             (MkGenome [2; 1]%nat [Some 2; Some 1])
             [[1; 2]; [3]] [[1; 2]; [3]]);
      [repeat constructor|repeat constructor
      |repeat (constructor; [solve_uint32|]); constructor
      |repeat (constructor; [solve_uint32|]); constructor].
Defined.
